(** * Property-tree engine of plotly.py (plotly/basedatatypes.py)

    A shallow embedding of [BaseFigure] and [BasePlotlyType]: key-path
    parsing, [_vals_equal], [_set_in], the restyle / relayout / update
    operations, batching, change-callback dispatch and the [data] setter,
    with the properties the specification states about them.

    Conventions.
    - Python strings are [string]s whose characters are code points below
      256; [int] and the [\d] class of [re] are modelled on that range.
    - Python values are the type [value]: the [Undefined] sentinel, [None],
      ints, strings, the float NaN (the one value that differs from
      itself), lists and dicts.  A dict is an association list in insertion
      order with pairwise distinct keys.
    - A method that mutates [self] takes the figure and returns the figure
      it leaves behind, together with its result or the exception raised:
      an exception does not roll back what was mutated before it.
    - Outbound messages ([_send_*_msg]) and callback dispatches are
      recorded, in order, in the figure's [log]. *)

From Stdlib Require Import String Ascii ZArith NArith Bool Lia Arith List.
From Stdlib Require Decimal DecimalString DecimalN.
Import ListNotations.

Local Open Scope string_scope.
Local Open Scope list_scope.
Local Open Scope Z_scope.

(* ================================================================== *)
(** * Exceptions and results *)

Inductive exn : Type :=
| ValueError_TraceIndexOutOfRange (trace_ind : Z)
| ValueError_InvalidPropertyPath (key_path_str : string)
| ValueError_CannotRemoveElement (key_path_str : string)
| ValueError_CannotSetElement (key_path_str : string)
| ValueError_DataNotSequence
| ValueError_DataElementType
| ValueError_InvalidUids
| ValueError_DuplicateUids
| ValueError_InvalidValue
| ValueError_UnrecognizedChild
| TypeError
| KeyError
| IndexError
| ZeroDivisionError
| AssertionError
| UserException (tag : nat).

Definition is_ValueError (e : exn) : bool :=
  match e with
  | TypeError | KeyError | IndexError | ZeroDivisionError | AssertionError
  | UserException _ => false
  | _ => true
  end.

Inductive res (A : Type) : Type :=
| OK (a : A)
| Raise (e : exn).
Arguments OK {A} a.
Arguments Raise {A} e.

(* ================================================================== *)
(** * Key paths *)

(** An element of a key path tuple: a property name or an int. *)
Inductive key : Type :=
| KStr (s : string)
| KInt (z : Z).

Definition key_eqb (a b : key) : bool :=
  match a, b with
  | KStr s, KStr t => String.eqb s t
  | KInt x, KInt y => Z.eqb x y
  | _, _ => false
  end.

Definition is_int (k : key) : bool :=
  match k with KInt _ => true | KStr _ => false end.

Module PyStr.

(** [str.split('.')]: always at least one piece. *)
Fixpoint split_dot (s : string) : list string :=
  match s with
  | EmptyString => [EmptyString]
  | String c rest =>
      if Ascii.eqb c "." then EmptyString :: split_dot rest
      else match split_dot rest with
           | [] => [String c EmptyString]
           | h :: t => String c h :: t
           end
  end.

Definition is_digit (c : ascii) : bool :=
  let n := N_of_ascii c in ((48 <=? n) && (n <=? 57))%N.

(** What [int] strips from both ends, below code point 256: TAB..CR,
    space, NEL and NBSP. *)
Definition is_space (c : ascii) : bool :=
  let n := N_of_ascii c in
  ((9 <=? n) && (n <=? 13) || (n =? 32) || (n =? 133) || (n =? 160))%N.

Definition is_newline (c : ascii) : bool := Ascii.eqb c "010".

Fixpoint dropwhile (p : ascii -> bool) (cs : list ascii) : list ascii :=
  match cs with
  | [] => []
  | c :: r => if p c then dropwhile p r else cs
  end.

Fixpoint span (p : ascii -> bool) (cs : list ascii)
  : list ascii * list ascii :=
  match cs with
  | [] => ([], [])
  | c :: r => if p c then let (a, b) := span p r in (c :: a, b)
              else ([], cs)
  end.

Definition strip (cs : list ascii) : list ascii :=
  rev (dropwhile is_space (rev (dropwhile is_space cs))).

(** Digits of an int literal: digits with single underscores allowed
    between them; the underscores are dropped. *)
Fixpoint int_digits (after_digit : bool) (cs : list ascii)
  : option (list ascii) :=
  match cs with
  | [] => if after_digit then Some [] else None
  | c :: r =>
      if is_digit c then option_map (cons c) (int_digits true r)
      else if Ascii.eqb c "_" && after_digit then int_digits false r
      else None
  end.

Definition nat_literal (cs : list ascii) : option Z :=
  match int_digits false cs with
  | Some ds =>
      match DecimalString.NilEmpty.uint_of_string (string_of_list_ascii ds) with
      | Some u => Some (Z.of_N (N.of_uint u))
      | None => None
      end
  | None => None
  end.

(** [int(s)] in base 10 (Python 3.6 and later, where digits may be
    separated by single underscores); [None] stands for the ValueError. *)
Definition int (s : string) : option Z :=
  match strip (list_ascii_of_string s) with
  | c :: r =>
      if Ascii.eqb c "-" then option_map Z.opp (nat_literal r)
      else if Ascii.eqb c "+" then nat_literal r
      else nat_literal (c :: r)
  | [] => None
  end.

(** [bracket_re.fullmatch(key)] and its two groups, for the pattern
    "anything, an opening bracket, one or more digits, a closing bracket".
    Digits contain no bracket, so group 2 is the longest run of digits
    before the closing bracket and group 1 is what precedes the bracket
    that opens it; the dot of the pattern does not match a newline. *)
Definition bracket_fullmatch (key : string) : option (string * string) :=
  match rev (list_ascii_of_string key) with
  | c :: r =>
      if Ascii.eqb c "]" then
        match span is_digit r with
        | (d :: ds, o :: p) =>
            if Ascii.eqb o "[" && negb (existsb is_newline p)
            then Some (string_of_list_ascii (rev p),
                       string_of_list_ascii (rev (d :: ds)))
            else None
        | _ => None
        end
      else None
  | [] => None
  end.

(** Decimal numeral of a non-negative int ([str(n)]). *)
Definition decimal (z : Z) : string :=
  DecimalString.NilEmpty.string_of_uint (N.to_uint (Z.to_N z)).

End PyStr.

(** The argument of [_str_to_dict_path]: a key path string or a tuple. *)
Inductive path_arg : Type :=
| Str (key_path_str : string)
| Tuple (key_path : list key).

(** Split out bracket indexes: ['bar[1]'] becomes ['bar', '1']. *)
Fixpoint split_brackets (key_path : list string) : list string :=
  match key_path with
  | [] => []
  | key :: rest =>
      match PyStr.bracket_fullmatch key with
      | Some (name, idx) => name :: idx :: split_brackets rest
      | None => key :: split_brackets rest
      end
  end.

(** Convert an element to an int if possible. *)
Definition to_key (s : string) : key :=
  match PyStr.int s with
  | Some z => KInt z
  | None => KStr s
  end.

Definition _str_to_dict_path (key_path_str : path_arg) : list key :=
  match key_path_str with
  | Tuple t => t
  | Str s => map to_key (split_brackets (PyStr.split_dot s))
  end.

(** The serialized form of a path as the specification defines it: field
    names joined on ['.'], integer indexes wrapped in ['[]']. *)
Fixpoint serialize_from (first : bool) (p : list key) : string :=
  match p with
  | [] => ""
  | KStr s :: rest =>
      (if first then "" else ".") ++ s ++ serialize_from false rest
  | KInt z :: rest =>
      "[" ++ PyStr.decimal z ++ "]" ++ serialize_from false rest
  end.

Definition serialize (p : list key) : string := serialize_from true p.

(** Paths that survive serialization: a name has no dot and is not taken
    for an int; a name that ends the path or precedes another name does
    not itself end in a bracketed index; a name that carries an index has
    no newline; an index is non-negative and follows a name. *)
Definition has_char (c : ascii) (s : string) : bool :=
  existsb (fun x => Ascii.eqb x c) (list_ascii_of_string s).

Definition plain_name (s : string) : bool :=
  negb (has_char "." s)
  && match PyStr.int s with Some _ => false | None => true end.

Fixpoint plain_from (after_name : bool) (p : list key) : bool :=
  match p with
  | [] => true
  | KStr s :: rest =>
      plain_name s
      && match rest with
         | KInt _ :: _ => negb (has_char "010" s)
         | _ => match PyStr.bracket_fullmatch s with
                | Some _ => false
                | None => true
                end
         end
      && plain_from true rest
  | KInt z :: rest => after_name && (0 <=? z) && plain_from false rest
  end.

Definition plain_path (p : list key) : bool :=
  match p with [] => false | _ => plain_from false p end.

(* ================================================================== *)
(** * Python values, dicts and lists *)

#[local] Unset Elimination Schemes.
Inductive value : Type :=
| Undefined
| VNone
| VInt (z : Z)
| VStr (s : string)
| VNaN
| VList (l : list value)
| VDict (d : list (key * value)).
#[local] Set Elimination Schemes.

(** Insertion-ordered dicts as association lists. *)
Section Dict.
Context {K V : Type} (eqb : K -> K -> bool).

Fixpoint dict_get (k : K) (d : list (K * V)) : option V :=
  match d with
  | [] => None
  | (k', x) :: t => if eqb k k' then Some x else dict_get k t
  end.

Definition dict_has (k : K) (d : list (K * V)) : bool :=
  match dict_get k d with Some _ => true | None => false end.

(** [d[k] = v]: an existing key keeps its position, a new one goes last. *)
Fixpoint dict_set (k : K) (v : V) (d : list (K * V)) : list (K * V) :=
  match d with
  | [] => [(k, v)]
  | (k', x) :: t =>
      if eqb k k' then (k', v) :: t else (k', x) :: dict_set k v t
  end.

(** [d.pop(k)] for a key that is present. *)
Fixpoint dict_pop (k : K) (d : list (K * V)) : list (K * V) :=
  match d with
  | [] => []
  | (k', x) :: t => if eqb k k' then t else (k', x) :: dict_pop k t
  end.

Definition dict_keys (d : list (K * V)) : list K := map fst d.
End Dict.

(** [lst[i]] addresses from the end when [i] is negative. *)
Definition list_index (len : nat) (i : Z) : option nat :=
  if (0 <=? i) && (i <? Z.of_nat len) then Some (Z.to_nat i)
  else if (i <? 0) && (- Z.of_nat len <=? i)
       then Some (Z.to_nat (Z.of_nat len + i))
       else None.

Fixpoint list_update {A : Type} (n : nat) (x : A) (l : list A) : list A :=
  match l, n with
  | [], _ => []
  | _ :: t, O => x :: t
  | h :: t, S m => h :: list_update m x t
  end.

(** [while len(lst) <= i: lst.append(None)]. *)
Definition pad_to (l : list value) (i : Z) : list value :=
  l ++ repeat VNone (Z.to_nat (i + 1 - Z.of_nat (length l))).

(** [v1 == v2] for a [v1] that is neither a list nor a dict. *)
Definition py_eq (v1 v2 : value) : bool :=
  match v1, v2 with
  | Undefined, Undefined => true
  | VNone, VNone => true
  | VInt a, VInt b => Z.eqb a b
  | VStr a, VStr b => String.eqb a b
  | _, _ => false
  end.

(** [set(v1.keys()) == set(v2.keys())]. *)
Definition keys_equal (d1 d2 : list (key * value)) : bool :=
  forallb (fun k => dict_has key_eqb k d2) (dict_keys d1)
  && forallb (fun k => dict_has key_eqb k d1) (dict_keys d2).

(** [BasePlotlyType._vals_equal], without the numpy branch: the model has
    no arrays.  In the dict case [v1[k]] is the value stored with [k]. *)
Fixpoint _vals_equal (v1 v2 : value) {struct v1} : bool :=
  match v1 with
  | VList l1 =>
      match v2 with
      | VList l2 =>
          Nat.eqb (length l1) (length l2)
          && (fix all_zip (l1 l2 : list value) {struct l1} : bool :=
                match l1, l2 with
                | e1 :: t1, e2 :: t2 => _vals_equal e1 e2 && all_zip t1 t2
                | _, _ => true
                end) l1 l2
      | _ => false
      end
  | VDict d1 =>
      match v2 with
      | VDict d2 =>
          keys_equal d1 d2
          && (fix all_keys (d : list (key * value)) : bool :=
                match d with
                | [] => true
                | (k, x) :: t =>
                    match dict_get key_eqb k d2 with
                    | Some y => _vals_equal x y
                    | None => false
                    end && all_keys t
                end) d1
      | _ => false
      end
  | _ => py_eq v1 v2
  end.

(* ================================================================== *)
(** * [_set_in] *)

(** One step of the loop over [key_path[:-1]]: extend the list, or create
    the missing container, before stepping into [val_parent[key_path_el]]. *)
Definition extend_parent (val_parent : value) (key_path_el next : key)
  : value :=
  match val_parent, key_path_el with
  | VList l, KInt i => VList (pad_to l i)
  | VDict d, _ =>
      if dict_has key_eqb key_path_el d then val_parent
      else VDict (dict_set key_eqb key_path_el
                    (if is_int next then VList [] else VDict []) d)
  | _, _ => val_parent
  end.

(** [val_parent[key_path_el]]. *)
Definition getitem (val_parent : value) (key_path_el : key) : res value :=
  match val_parent, key_path_el with
  | VList l, KInt i =>
      match list_index (length l) i with
      | Some n => OK (nth n l VNone)
      | None => Raise IndexError
      end
  | VDict d, _ =>
      match dict_get key_eqb key_path_el d with
      | Some x => OK x
      | None => Raise KeyError
      end
  | VStr s, KInt i =>
      match list_index (String.length s) i with
      | Some n => OK (VStr (String.substring n 1 s))
      | None => Raise IndexError
      end
  | _, _ => Raise TypeError
  end.

(** The effect, seen from [val_parent], of the in-place changes made to
    the object [val_parent[key_path_el]]. *)
Definition store_back (val_parent : value) (key_path_el : key)
  (child : value) : value :=
  match val_parent, key_path_el with
  | VList l, KInt i =>
      match list_index (length l) i with
      | Some n => VList (list_update n child l)
      | None => val_parent
      end
  | VDict d, _ => VDict (dict_set key_eqb key_path_el child d)
  | _, _ => val_parent
  end.

(** "Assign value to final parent dict or list". *)
Definition assign_last (val_parent : value) (last_key : key)
  (key_path_str : string) (v : value) : value * res bool :=
  match v with
  | Undefined => (val_parent, OK false)
  | VNone =>
      match val_parent with
      | VDict d =>
          if dict_has key_eqb last_key d
          then (VDict (dict_pop key_eqb last_key d), OK true)
          else (val_parent, OK false)
      | VList l =>
          match last_key with
          | KInt i =>
              if (0 <=? i) && (i <? Z.of_nat (length l))
              then (VList (list_update (Z.to_nat i) VNone l), OK true)
              else (val_parent, OK false)
          | KStr _ => (val_parent, OK false)
          end
      | _ => (val_parent, Raise (ValueError_CannotRemoveElement key_path_str))
      end
  | _ =>
      match val_parent with
      | VDict d =>
          if negb (dict_has key_eqb last_key d)
             || negb (match dict_get key_eqb last_key d with
                      | Some x => _vals_equal x v
                      | None => false
                      end)
          then (VDict (dict_set key_eqb last_key v d), OK true)
          else (val_parent, OK false)
      | VList l =>
          match last_key with
          | KInt i =>
              let l1 := pad_to l i in
              match list_index (length l1) i with
              | Some n =>
                  if negb (_vals_equal (nth n l1 VNone) v)
                  then (VList (list_update n v l1), OK true)
                  else (VList l1, OK false)
              | None => (VList l1, Raise IndexError)
              end
          | KStr _ => (val_parent, OK false)
          end
      | _ => (val_parent, Raise (ValueError_CannotSetElement key_path_str))
      end
  end.

(** The walk of [_set_in] from [val_parent] along [key_path]; the first
    component is [val_parent] as the call leaves it, also when it raises. *)
Fixpoint set_in_path (val_parent : value) (key_path : list key)
  (key_path_str : string) (v : value) {struct key_path} : value * res bool :=
  match key_path with
  | [] => (val_parent, Raise IndexError)
  | [last_key] => assign_last val_parent last_key key_path_str v
  | key_path_el :: ((next :: _) as rest) =>
      let val_parent := extend_parent val_parent key_path_el next in
      match getitem val_parent key_path_el with
      | Raise e => (val_parent, Raise e)
      | OK child =>
          let (child', r) := set_in_path child rest key_path_str v in
          (store_back val_parent key_path_el child', r)
      end
  end.

Definition _set_in (d : value) (key_path_str : string) (v : value)
  : value * res bool :=
  match d with
  | VDict _ =>
      set_in_path d (_str_to_dict_path (Str key_path_str)) key_path_str v
  | _ => (d, Raise AssertionError)
  end.

(** A value other than the [Undefined] sentinel and [None]. *)
Definition is_concrete (v : value) : bool :=
  match v with Undefined | VNone => false | _ => true end.

(** The loop of [_set_in] finds the container in place: the list is long
    enough, the dict has the key. *)
Definition nothing_to_extend (val_parent : value) (key_path_el : key)
  : bool :=
  match val_parent, key_path_el with
  | VList l, KInt i => i <? Z.of_nat (length l)
  | VDict d, _ => dict_has key_eqb key_path_el d
  | _, _ => true
  end.

(** The container in which [_set_in] assigns the last key, when its walk
    there extends nothing, creates nothing and does not raise. *)
Fixpoint final_parent (val_parent : value) (key_path : list key)
  : option value :=
  match key_path with
  | [] => None
  | [_] => Some val_parent
  | key_path_el :: rest =>
      if nothing_to_extend val_parent key_path_el then
        match getitem val_parent key_path_el with
        | OK child => final_parent child rest
        | Raise _ => None
        end
      else None
  end.

Fixpoint distinct_keys (ks : list key) : bool :=
  match ks with
  | [] => true
  | k :: t => negb (existsb (key_eqb k) t) && distinct_keys t
  end.

(** A value with no NaN inside, whose dicts have pairwise distinct keys. *)
Fixpoint nan_free (v : value) : bool :=
  match v with
  | VNaN => false
  | VList l => forallb nan_free l
  | VDict d =>
      distinct_keys (map fst d)
      && (fix all (d : list (key * value)) : bool :=
            match d with
            | [] => true
            | (_, x) :: t => nan_free x && all t
            end) d
  | _ => true
  end.

(* ================================================================== *)
(** * The figure, its collaborators and its log *)

(** The contents of a properties dict ([_props], an element of [_data]). *)
Definition props : Type := list (key * value).

(** A dict from key path strings to values ([restyle_data] and the like). *)
Definition edits : Type := list (string * value).

(** The [trace_indexes] argument: [None], an int or a list of ints. *)
Inductive trace_indexes_arg : Type :=
| TI_None
| TI_Int (trace_index : Z)
| TI_List (trace_indexes : list Z).

(** The object a node hangs from: the layout or a trace object, the latter
    named by its identity. *)
Inductive owner : Type :=
| Layout
| Trace (obj : nat).

(** A node of the object tree: its owner and its path tuple below it. *)
Definition node : Type := (owner * list key)%type.

Definition owner_eqb (a b : owner) : bool :=
  match a, b with
  | Layout, Layout => true
  | Trace x, Trace y => Nat.eqb x y
  | _, _ => false
  end.

Fixpoint path_eqb (p q : list key) : bool :=
  match p, q with
  | [], [] => true
  | a :: p', b :: q' => key_eqb a b && path_eqb p' q'
  | _, _ => false
  end.

Fixpoint paths_eqb (a b : list (list key)) : bool :=
  match a, b with
  | [], [] => true
  | p :: a', q :: b' => path_eqb p q && paths_eqb a' b'
  | _, _ => false
  end.

Definition node_eqb (a b : node) : bool :=
  owner_eqb (fst a) (fst b) && path_eqb (snd a) (snd b).

(** What the engine asks of the generated validators and of the tree of
    objects built from them. *)
Class Validators : Type := {
  (** what [node[cb_path]] returns: a presented value or an object *)
  arg : Type;
  (** [key_path_tuple in trace] for the trace object [obj] *)
  trace_contains : nat -> list key -> bool;
  (** [key_path_tuple in self.layout] *)
  layout_contains : list key -> bool;
  (** [self._validators.get(prop).validate_coerce(val)] *)
  validate_coerce : owner -> string -> value -> res value;
  (** [node[cb_path]], read from the properties and the defaults of the
      node's owner *)
  node_getitem : node -> props -> props -> list key -> arg
}.

(** What an observer of the figure sees of its batch state. *)
Record seen : Type := {
  seen_in_batch_mode : bool;
  seen_batch_trace_edits : list (Z * edits);
  seen_batch_layout_edits : edits
}.

(** State passing with exceptions that keep the state reached. *)
Definition M (S A : Type) : Type := S -> S * res A.

Definition ret {S A : Type} (a : A) : M S A := fun s => (s, OK a).

Definition raise {S A : Type} (e : exn) : M S A := fun s => (s, Raise e).

Definition bind {S A B : Type} (m : M S A) (f : A -> M S B) : M S B :=
  fun s =>
    match m s with
    | (s', OK a) => f a s'
    | (s', Raise e) => (s', Raise e)
    end.

Definition get {S : Type} : M S S := fun s => (s, OK s).

Definition modify {S : Type} (f : S -> S) : M S unit := fun s => (f s, OK tt).

Definition lift {S A : Type} (r : res A) : M S A := fun s => (s, r).

Declare Scope py_scope.
Delimit Scope py_scope with py.
Notation "x <- m ;; k" := (bind m (fun x => k))
  (at level 61, m at next level, right associativity) : py_scope.
Notation "m ;;; k" := (bind m (fun _ => k))
  (at level 61, right associativity) : py_scope.
Local Open Scope py_scope.

Definition for_each {S A : Type} (l : list A) (f : A -> M S unit)
  : M S unit :=
  (fix loop (l : list A) : M S unit :=
     match l with
     | [] => ret tt
     | a :: t => f a ;;; loop t
     end) l.

Definition nonempty {A : Type} (l : list A) : bool :=
  match l with [] => false | _ => true end.

(** [_index_is(iterable, val)]: the first position holding the object. *)
Fixpoint _index_is (iterable : list nat) (val : nat) : option nat :=
  match iterable with
  | [] => None
  | x :: t => if Nat.eqb x val then Some O
              else option_map S (_index_is t val)
  end.

(** ** [_build_dispatch_plan] *)

(** [[keys_left[:i+1] for i in range(len(keys_left))]]. *)
Fixpoint to_add (keys_left : list key) : list (list key) :=
  match keys_left with
  | [] => []
  | k :: rest => [k] :: map (cons k) (to_add rest)
  end.

Definition set_add (p : list key) (s : list (list key)) : list (list key) :=
  if existsb (path_eqb p) s then s else s ++ [p].

(** [s.update(ps)]. *)
Definition set_update (s ps : list (list key)) : list (list key) :=
  fold_left (fun acc p => set_add p acc) ps s.

Definition plan : Type := list (list key * list (list key)).

Definition plan_update (dispatch_plan : plan) (key_path_so_far : list key)
  (paths : list (list key)) : plan :=
  let dispatch_plan :=
    if dict_has path_eqb key_path_so_far dispatch_plan then dispatch_plan
    else dict_set path_eqb key_path_so_far [] dispatch_plan in
  match dict_get path_eqb key_path_so_far dispatch_plan with
  | Some s =>
      dict_set path_eqb key_path_so_far (set_update s paths) dispatch_plan
  | None => dispatch_plan
  end.

(** "Iterate down the key path". *)
Fixpoint plan_walk (dispatch_plan : plan) (key_path_so_far : list key)
  (keys_left : list key) : plan :=
  match keys_left with
  | [] => dispatch_plan
  | next_key :: rest =>
      plan_walk (plan_update dispatch_plan key_path_so_far (to_add keys_left))
                (key_path_so_far ++ [next_key]) rest
  end.

Definition _build_dispatch_plan (key_path_strs : list string) : plan :=
  fold_left
    (fun dispatch_plan key_path_str =>
       plan_walk dispatch_plan [] (_str_to_dict_path (Str key_path_str)))
    key_path_strs [].

(** [changed_paths.intersection(set(prop_path_tuples))] is not empty. *)
Definition intersects (changed_paths prop_path_tuples : list (list key))
  : bool :=
  existsb (fun p => existsb (path_eqb p) prop_path_tuples) changed_paths.

(** [_is_key_path_compatible], against the [in] test of the object. *)
Definition _is_key_path_compatible (key_path_str : string)
  (contains : list key -> bool) : bool :=
  let key_path_tuple := _str_to_dict_path (Str key_path_str) in
  let key_path_tuple :=
    if is_int (last key_path_tuple (KStr "")) then removelast key_path_tuple
    else key_path_tuple in
  contains key_path_tuple.

(** [_set_in] on a properties dict held by the figure. *)
Definition set_in_props (d : props) (key_path_str : string) (v : value)
  : props * res bool :=
  let (d', r) := _set_in (VDict d) key_path_str v in
  (match d' with VDict x => x | _ => d end, r).

(** [v[i % len(v)] if isinstance(v, list) else v]. *)
Definition trace_value (v : value) (i : nat) : res value :=
  match v with
  | VList [] => Raise ZeroDivisionError
  | VList l => OK (nth (Nat.modulo i (length l)) l VNone)
  | _ => OK v
  end.

Section Figure.
Context {V : Validators}.

(** What the figure sends out and whom it calls, as the log keeps it:
    the [_send_*_msg] calls, the entry into a dispatch of change
    callbacks, and each call of a registered callback. *)
Inductive event : Type :=
| Send_restyle (style : edits) (trace_indexes : trace_indexes_arg)
               (source_view_id : option string)
| Send_relayout (layout : edits) (source_view_id : option string)
| Send_update (restyle_data relayout_data : edits)
              (trace_indexes : list Z) (source_view_id : option string)
| Send_deleteTraces (delete_inds : list nat)
| Send_moveTraces (current_inds new_inds : list nat)
| Dispatch_trace_change_callbacks (restyle_data : edits)
                                  (trace_indexes : list Z)
| Dispatch_layout_change_callbacks (relayout_data : edits)
| Callback (callback : nat) (self : node) (callback_args : list arg).

Record Figure : Type := {
  _data : list props;
  _data_defaults : list props;
  (** [_data_objs]: the trace objects, by identity *)
  _data_objs : list nat;
  _layout : props;
  _layout_defaults : props;
  _in_batch_mode : bool;
  _batch_trace_edits : list (Z * edits);
  _batch_layout_edits : edits;
  (** the [_change_callbacks] dicts of the nodes below the figure: from
      the tuple of path tuples given to [on_change] to the callbacks *)
  _change_callbacks : list (node * list (list (list key) * list nat));
  (** the [_orphan_props] of the trace objects the figure has let go *)
  detached : list (nat * props);
  (** every event so far, with the batch state at that moment *)
  log : list (event * seen)
}.

Definition with_data (x : list props) (f : Figure) : Figure :=
  {| _data := x; _data_defaults := _data_defaults f;
     _data_objs := _data_objs f; _layout := _layout f;
     _layout_defaults := _layout_defaults f;
     _in_batch_mode := _in_batch_mode f;
     _batch_trace_edits := _batch_trace_edits f;
     _batch_layout_edits := _batch_layout_edits f;
     _change_callbacks := _change_callbacks f;
     detached := detached f; log := log f |}.

Definition with_data_defaults (x : list props) (f : Figure) : Figure :=
  {| _data := _data f; _data_defaults := x;
     _data_objs := _data_objs f; _layout := _layout f;
     _layout_defaults := _layout_defaults f;
     _in_batch_mode := _in_batch_mode f;
     _batch_trace_edits := _batch_trace_edits f;
     _batch_layout_edits := _batch_layout_edits f;
     _change_callbacks := _change_callbacks f;
     detached := detached f; log := log f |}.

Definition with_data_objs (x : list nat) (f : Figure) : Figure :=
  {| _data := _data f; _data_defaults := _data_defaults f;
     _data_objs := x; _layout := _layout f;
     _layout_defaults := _layout_defaults f;
     _in_batch_mode := _in_batch_mode f;
     _batch_trace_edits := _batch_trace_edits f;
     _batch_layout_edits := _batch_layout_edits f;
     _change_callbacks := _change_callbacks f;
     detached := detached f; log := log f |}.

Definition with_layout (x : props) (f : Figure) : Figure :=
  {| _data := _data f; _data_defaults := _data_defaults f;
     _data_objs := _data_objs f; _layout := x;
     _layout_defaults := _layout_defaults f;
     _in_batch_mode := _in_batch_mode f;
     _batch_trace_edits := _batch_trace_edits f;
     _batch_layout_edits := _batch_layout_edits f;
     _change_callbacks := _change_callbacks f;
     detached := detached f; log := log f |}.

Definition with_in_batch_mode (x : bool) (f : Figure) : Figure :=
  {| _data := _data f; _data_defaults := _data_defaults f;
     _data_objs := _data_objs f; _layout := _layout f;
     _layout_defaults := _layout_defaults f;
     _in_batch_mode := x;
     _batch_trace_edits := _batch_trace_edits f;
     _batch_layout_edits := _batch_layout_edits f;
     _change_callbacks := _change_callbacks f;
     detached := detached f; log := log f |}.

Definition with_batch_trace_edits (x : list (Z * edits)) (f : Figure)
  : Figure :=
  {| _data := _data f; _data_defaults := _data_defaults f;
     _data_objs := _data_objs f; _layout := _layout f;
     _layout_defaults := _layout_defaults f;
     _in_batch_mode := _in_batch_mode f;
     _batch_trace_edits := x;
     _batch_layout_edits := _batch_layout_edits f;
     _change_callbacks := _change_callbacks f;
     detached := detached f; log := log f |}.

Definition with_batch_layout_edits (x : edits) (f : Figure) : Figure :=
  {| _data := _data f; _data_defaults := _data_defaults f;
     _data_objs := _data_objs f; _layout := _layout f;
     _layout_defaults := _layout_defaults f;
     _in_batch_mode := _in_batch_mode f;
     _batch_trace_edits := _batch_trace_edits f;
     _batch_layout_edits := x;
     _change_callbacks := _change_callbacks f;
     detached := detached f; log := log f |}.

Definition with_detached (x : list (nat * props)) (f : Figure) : Figure :=
  {| _data := _data f; _data_defaults := _data_defaults f;
     _data_objs := _data_objs f; _layout := _layout f;
     _layout_defaults := _layout_defaults f;
     _in_batch_mode := _in_batch_mode f;
     _batch_trace_edits := _batch_trace_edits f;
     _batch_layout_edits := _batch_layout_edits f;
     _change_callbacks := _change_callbacks f;
     detached := x; log := log f |}.

Definition with_log (x : list (event * seen)) (f : Figure) : Figure :=
  {| _data := _data f; _data_defaults := _data_defaults f;
     _data_objs := _data_objs f; _layout := _layout f;
     _layout_defaults := _layout_defaults f;
     _in_batch_mode := _in_batch_mode f;
     _batch_trace_edits := _batch_trace_edits f;
     _batch_layout_edits := _batch_layout_edits f;
     _change_callbacks := _change_callbacks f;
     detached := detached f; log := x |}.

Definition batch_state (f : Figure) : seen :=
  {| seen_in_batch_mode := _in_batch_mode f;
     seen_batch_trace_edits := _batch_trace_edits f;
     seen_batch_layout_edits := _batch_layout_edits f |}.

(** Record an event in the log. *)
Definition emit (ev : event) : M Figure unit :=
  modify (fun f => with_log (log f ++ [(ev, batch_state f)]) f).

(** [self.data[trace_ind]]: the trace object at an index. *)
Definition data_getitem (trace_ind : Z) : M Figure nat :=
  fun f =>
    match list_index (length (_data_objs f)) trace_ind with
    | Some n => (f, OK (nth n (_data_objs f) O))
    | None => (f, Raise IndexError)
    end.

(** ** Dispatch of change callbacks *)

(** The properties and the defaults that the owner of a node reads. *)
Definition owner_props (o : owner) (f : Figure) : props * props :=
  match o with
  | Layout => (_layout f, _layout_defaults f)
  | Trace obj =>
      match _index_is (_data_objs f) obj with
      | Some i => (nth i (_data f) [], nth i (_data_defaults f) [])
      | None => ([], [])
      end
  end.

(** [BasePlotlyType._dispatch_change_callbacks] on the node [self]. *)
Definition _dispatch_change_callbacks (self : node)
  (changed_paths : list (list key)) : M Figure unit :=
  f <- get ;;
  match dict_get node_eqb self (_change_callbacks f) with
  | None => ret tt
  | Some registered =>
      for_each registered
        (fun '(prop_path_tuples, callbacks) =>
           if intersects changed_paths prop_path_tuples then
             f <- get ;;
             let (p, dflt) := owner_props (fst self) f in
             let callback_args :=
               map (node_getitem self p dflt) prop_path_tuples in
             for_each callbacks
               (fun callback => emit (Callback callback self callback_args))
           else ret tt)
  end.

(** The two dispatches name the object [self.layout[path_tuple]], or
    [trace[path_tuple]], by its owner and its path.  Looking the object
    up is taken to return, as it does when the owner has the property
    at the path; where a targeted trace has not, the lookup raises,
    which is not followed here.  What is found and is not an object has
    no [_change_callbacks]. *)
Definition _dispatch_layout_change_callbacks (relayout_data : edits)
  : M Figure unit :=
  emit (Dispatch_layout_change_callbacks relayout_data) ;;;
  let dispatch_plan := _build_dispatch_plan (dict_keys relayout_data) in
  for_each dispatch_plan
    (fun '(path_tuple, changed_paths) =>
       _dispatch_change_callbacks (Layout, path_tuple) changed_paths).

Definition _dispatch_trace_change_callbacks (restyle_data : edits)
  (trace_indexes : list Z) : M Figure unit :=
  emit (Dispatch_trace_change_callbacks restyle_data trace_indexes) ;;;
  let dispatch_plan := _build_dispatch_plan (dict_keys restyle_data) in
  for_each dispatch_plan
    (fun '(path_tuple, changed_paths) =>
       for_each trace_indexes
         (fun trace_ind =>
            trace <- data_getitem trace_ind ;;
            _dispatch_change_callbacks (Trace trace, path_tuple)
                                       changed_paths)).

(** ** Restyle *)

Definition _normalize_trace_indexes (trace_indexes : trace_indexes_arg)
  : M Figure (list Z) :=
  f <- get ;;
  match trace_indexes with
  | TI_None =>
      ret (map Z.of_nat (seq 0 (length (_data_objs f))))
  | TI_Int i => ret [i]
  | TI_List l => ret l
  end.

(** [_set_in(self._data[trace_ind], key_path_str, trace_v)]. *)
Definition set_in_trace (trace_ind : Z) (key_path_str : string)
  (trace_v : value) : M Figure bool :=
  fun f =>
    match list_index (length (_data f)) trace_ind with
    | None => (f, Raise IndexError)
    | Some n =>
        let (d', r) := set_in_props (nth n (_data f) []) key_path_str
                                    trace_v in
        (with_data (list_update n d' (_data f)) f, r)
    end.

(** The loop of [_perform_plotly_restyle] over [enumerate(trace_indexes)],
    from position [i] on, for one key. *)
Fixpoint restyle_traces (key_path_str : string) (v : value) (i : nat)
  (trace_indexes : list Z) (any_vals_changed : bool) : M Figure bool :=
  match trace_indexes with
  | [] => ret any_vals_changed
  | trace_ind :: rest =>
      f <- get ;;
      if trace_ind >=? Z.of_nat (length (_data f))
      then raise (ValueError_TraceIndexOutOfRange trace_ind)
      else
        trace_v <- lift (trace_value v i) ;;
        match trace_v with
        | Undefined =>
            restyle_traces key_path_str v (S i) rest any_vals_changed
        | _ =>
            trace_obj <- data_getitem trace_ind ;;
            if negb (_is_key_path_compatible key_path_str
                       (trace_contains trace_obj))
            then raise (ValueError_InvalidPropertyPath key_path_str)
            else
              val_changed <- set_in_trace trace_ind key_path_str trace_v ;;
              restyle_traces key_path_str v (S i) rest
                             (any_vals_changed || val_changed)
        end
  end.

(** The loop of [_perform_plotly_restyle] over [restyle_data.items()]. *)
Fixpoint restyle_keys (restyle_data : edits) (trace_indexes : list Z)
  (restyle_changes : edits) : M Figure edits :=
  match restyle_data with
  | [] => ret restyle_changes
  | (key_path_str, v) :: rest =>
      any_vals_changed <-
        restyle_traces key_path_str v 0 trace_indexes false ;;
      restyle_keys rest trace_indexes
        (if any_vals_changed
         then dict_set String.eqb key_path_str v restyle_changes
         else restyle_changes)
  end.

Definition _perform_plotly_restyle (restyle_data : edits)
  (trace_indexes : list Z) : M Figure edits :=
  restyle_keys restyle_data trace_indexes [].

Definition plotly_restyle (restyle_data : edits)
  (trace_indexes : trace_indexes_arg) (source_view_id : option string)
  : M Figure unit :=
  trace_indexes <- _normalize_trace_indexes trace_indexes ;;
  restyle_changes <- _perform_plotly_restyle restyle_data trace_indexes ;;
  if nonempty restyle_changes then
    emit (Send_restyle restyle_changes (TI_List trace_indexes)
                       source_view_id) ;;;
    _dispatch_trace_change_callbacks restyle_changes trace_indexes
  else ret tt.

(** ** Relayout *)

Definition set_in_layout (key_path_str : string) (v : value)
  : M Figure bool :=
  fun f =>
    let (d', r) := set_in_props (_layout f) key_path_str v in
    (with_layout d' f, r).

Fixpoint relayout_keys (relayout_data : edits) (relayout_changes : edits)
  : M Figure edits :=
  match relayout_data with
  | [] => ret relayout_changes
  | (key_path_str, v) :: rest =>
      if negb (_is_key_path_compatible key_path_str layout_contains)
      then raise (ValueError_InvalidPropertyPath key_path_str)
      else
        val_changed <- set_in_layout key_path_str v ;;
        relayout_keys rest
          (if val_changed
           then dict_set String.eqb key_path_str v relayout_changes
           else relayout_changes)
  end.

Definition _perform_plotly_relayout (relayout_data : edits)
  : M Figure edits :=
  relayout_keys relayout_data [].

Definition plotly_relayout (relayout_data : edits)
  (source_view_id : option string) : M Figure unit :=
  relayout_changes <- _perform_plotly_relayout relayout_data ;;
  if nonempty relayout_changes then
    emit (Send_relayout relayout_changes source_view_id) ;;;
    _dispatch_layout_change_callbacks relayout_changes
  else ret tt.

(** ** Update *)

Definition truthy (d : option edits) : bool :=
  match d with Some (_ :: _) => true | _ => false end.

Definition or_empty (d : option edits) : edits :=
  match d with Some x => x | None => [] end.

Definition _perform_plotly_update (restyle_data relayout_data : option edits)
  (trace_indexes : trace_indexes_arg)
  : M Figure (option (edits * edits * list Z)) :=
  if negb (truthy restyle_data) && negb (truthy relayout_data)
  then ret None
  else
    let restyle_data := or_empty restyle_data in
    let relayout_data := or_empty relayout_data in
    trace_indexes <- _normalize_trace_indexes trace_indexes ;;
    relayout_changes <- _perform_plotly_relayout relayout_data ;;
    restyle_changes <- _perform_plotly_restyle restyle_data trace_indexes ;;
    ret (Some (restyle_changes, relayout_changes, trace_indexes)).

Definition plotly_update (restyle_data relayout_data : option edits)
  (trace_indexes : trace_indexes_arg) (source_view_id : option string)
  : M Figure unit :=
  r <- _perform_plotly_update restyle_data relayout_data trace_indexes ;;
  match r with
  | None => ret tt
  | Some (restyle_changes, relayout_changes, trace_indexes) =>
      (if nonempty restyle_changes || nonempty relayout_changes
       then emit (Send_update restyle_changes relayout_changes
                              trace_indexes source_view_id)
       else ret tt) ;;;
      (if nonempty restyle_changes
       then _dispatch_trace_change_callbacks restyle_changes trace_indexes
       else ret tt) ;;;
      (if nonempty relayout_changes
       then _dispatch_layout_change_callbacks relayout_changes
       else ret tt)
  end.

(** ** Property writes on the layout and on trace objects *)

(** [self._props] of an object whose parent is the figure
    ([BaseFigure._get_child_props]). *)
Definition _props (self : owner) : M Figure props :=
  fun f =>
    match self with
    | Layout => (f, OK (_layout f))
    | Trace obj =>
        match _index_is (_data_objs f) obj with
        | None => (f, Raise ValueError_UnrecognizedChild)
        | Some trace_index =>
            match nth_error (_data f) trace_index with
            | Some d => (f, OK d)
            | None => (f, Raise IndexError)
            end
        end
    end.

(** An in-place change of [self._props]. *)
Definition update_props (self : owner) (g : props -> props)
  : M Figure unit :=
  modify (fun f =>
    match self with
    | Layout => with_layout (g (_layout f)) f
    | Trace obj =>
        match _index_is (_data_objs f) obj with
        | None => f
        | Some i => with_data (list_update i (g (nth i (_data f) []))
                                           (_data f)) f
        end
    end).

Definition _restyle_child (child : nat) (key_path_str : string)
  (val : value) : M Figure unit :=
  f <- get ;;
  match _index_is (_data_objs f) child with
  | None => raise ValueError_InvalidValue
  | Some trace_index =>
      let trace_index := Z.of_nat trace_index in
      if negb (_in_batch_mode f) then
        let restyle := [(key_path_str, VList [val])] in
        emit (Send_restyle restyle (TI_Int trace_index) None) ;;;
        _dispatch_trace_change_callbacks restyle [trace_index]
      else
        modify (fun f =>
          let batch := _batch_trace_edits f in
          let batch :=
            if dict_has Z.eqb trace_index batch then batch
            else dict_set Z.eqb trace_index [] batch in
          match dict_get Z.eqb trace_index batch with
          | Some trace_style =>
              with_batch_trace_edits
                (dict_set Z.eqb trace_index
                   (dict_set String.eqb key_path_str val trace_style)
                   batch) f
          | None => f
          end)
  end.

Definition _relayout_child (key_path_str : string) (val : value)
  : M Figure unit :=
  f <- get ;;
  if negb (_in_batch_mode f) then
    let relayout_msg := [(key_path_str, val)] in
    emit (Send_relayout relayout_msg None) ;;;
    _dispatch_layout_change_callbacks relayout_msg
  else
    modify (fun f =>
      with_batch_layout_edits
        (dict_set String.eqb key_path_str val (_batch_layout_edits f)) f).

(** [_send_prop_set] of [BaseTraceHierarchyType] and of
    [BaseLayoutHierarchyType], for an object whose parent is the figure. *)
Definition _send_prop_set (self : owner) (prop_path_str : string)
  (val : value) : M Figure unit :=
  match self with
  | Trace obj => _restyle_child obj prop_path_str val
  | Layout => _relayout_child prop_path_str val
  end.

(** [BasePlotlyType._set_prop] on the layout or on a trace object. *)
Definition _set_prop (self : owner) (prop : string) (val : value)
  : M Figure value :=
  match val with
  | Undefined => ret VNone
  | _ =>
      val <- lift (validate_coerce self prop val) ;;
      match val with
      | VNone =>
          p <- _props self ;;
          (if nonempty p && dict_has key_eqb (KStr prop) p then
             f <- get ;;
             (if negb (_in_batch_mode f)
              then update_props self (dict_pop key_eqb (KStr prop))
              else ret tt) ;;;
             _send_prop_set self prop val
           else ret tt) ;;;
          ret val
      | _ =>
          p <- _props self ;;
          (if negb (dict_has key_eqb (KStr prop) p)
              || negb (match dict_get key_eqb (KStr prop) p with
                       | Some x => _vals_equal x val
                       | None => false
                       end)
           then
             f <- get ;;
             (if negb (_in_batch_mode f)
              then update_props self (dict_set key_eqb (KStr prop) val)
              else ret tt) ;;;
             _send_prop_set self prop val
           else ret tt) ;;;
          ret val
      end
  end.

(** ** Batching *)

Section Sorted.
Context {A : Type} (leb eqb : A -> A -> bool).

Fixpoint insert_sorted (x : A) (l : list A) : list A :=
  match l with
  | [] => [x]
  | y :: t =>
      if eqb x y then l
      else if leb x y then x :: l
           else y :: insert_sorted x t
  end.

(** [sorted(set(l))]. *)
Definition sorted_set (l : list A) : list A :=
  fold_right insert_sorted [] l.

(** [l.index(x)]. *)
Fixpoint index_of (x : A) (l : list A) : option nat :=
  match l with
  | [] => None
  | y :: t => if eqb x y then Some O else option_map S (index_of x t)
  end.
End Sorted.

(** [restyle_data[trace_prop][restyle_trace_index] = trace_val]. *)
Definition fill_in (restyle_data : edits) (trace_prop : string)
  (restyle_trace_index : nat) (trace_val : value) : edits :=
  match dict_get String.eqb trace_prop restyle_data with
  | Some (VList l) =>
      dict_set String.eqb trace_prop
        (VList (list_update restyle_trace_index trace_val l)) restyle_data
  | _ => restyle_data
  end.

Definition _build_update_params_from_batch (f : Figure)
  : edits * edits * list Z :=
  let batch_style_commands := _batch_trace_edits f in
  let trace_indexes :=
    sorted_set Z.leb Z.eqb (dict_keys batch_style_commands) in
  let all_props :=
    sorted_set String.leb String.eqb
      (flat_map (fun '(_, trace_style) => dict_keys trace_style)
                batch_style_commands) in
  let restyle_data : edits :=
    map (fun prop =>
           (prop, VList (repeat Undefined (length trace_indexes))))
        all_props in
  let restyle_data :=
    fold_left
      (fun restyle_data '(trace_ind, trace_style) =>
         fold_left
           (fun restyle_data '(trace_prop, trace_val) =>
              match index_of Z.eqb trace_ind trace_indexes with
              | Some restyle_trace_index =>
                  fill_in restyle_data trace_prop restyle_trace_index
                          trace_val
              | None => restyle_data
              end)
           trace_style restyle_data)
      batch_style_commands restyle_data in
  let relayout_data := _batch_layout_edits f in
  (restyle_data, relayout_data, trace_indexes).

(** The [batch_update] context manager around a body.  An exception of
    the [finally] block replaces the one the body raised. *)
Definition batch_update (body : M Figure unit) : M Figure unit :=
  fun f =>
    if _in_batch_mode f then body f
    else
      let (f1, r) := body (with_in_batch_mode true f) in
      let f2 := with_in_batch_mode false f1 in
      let '(restyle_data, relayout_data, trace_indexes) :=
        _build_update_params_from_batch f2 in
      match plotly_update (Some restyle_data) (Some relayout_data)
                          (TI_List trace_indexes) None f2 with
      | (f3, Raise e) => (f3, Raise e)
      | (f3, OK _) =>
          (with_batch_trace_edits [] (with_batch_layout_edits [] f3), r)
      end.

(** The statements of the bodies of [with fig.batch_update():] blocks
    that are followed here: writes to the simple properties of the
    layout and of the traces themselves, blocks inside the block, and
    [raise].  A write to a property of an object below a trace or below
    the layout ([fig.data[0].marker.color = ...]), which first makes
    sure that the properties dict of that object exists
    ([_init_props]), is not among them. *)
#[local] Unset Elimination Schemes.
Inductive stmt : Type :=
| Assign (self : owner) (prop : string) (val : value)
  (** [self[prop] = val] for a simple property of the layout or a trace *)
| With_batch_update (body : list stmt)
| Raise_exception (e : exn).
#[local] Set Elimination Schemes.

Fixpoint exec (s : stmt) : M Figure unit :=
  match s with
  | Assign self prop val => _set_prop self prop val ;;; ret tt
  | With_batch_update body => batch_update (for_each body exec)
  | Raise_exception e => raise e
  end.

Definition exec_block (body : list stmt) : M Figure unit :=
  for_each body exec.

(** ** The [data] setter *)

(** An element of the assigned sequence: a trace object, with what its
    [uid] property returns, or something else. *)
Inductive data_elem : Type :=
| A_trace (obj : nat) (uid : value)
| Not_a_trace.

(** The assigned value: a list or tuple, or something else. *)
Inductive data_arg : Type :=
| Sequence (new_data : list data_elem)
| Not_a_sequence.

Definition hashable (v : value) : bool :=
  match v with VList _ | VDict _ => false | _ => true end.

(** Equality of hashable values as set members and list elements. *)
Definition uid_eqb (a b : value) : bool :=
  match a, b with
  | Undefined, Undefined | VNone, VNone | VNaN, VNaN => true
  | VInt x, VInt y => Z.eqb x y
  | VStr x, VStr y => String.eqb x y
  | _, _ => false
  end.

Definition mem_uid (u : value) (l : list value) : bool :=
  existsb (uid_eqb u) l.

(** [[_trace['uid'] for _trace in self._data]]. *)
Fixpoint uids_of (data : list props) : res (list value) :=
  match data with
  | [] => OK []
  | _trace :: rest =>
      match dict_get key_eqb (KStr "uid") _trace with
      | None => Raise KeyError
      | Some u =>
          match uids_of rest with
          | OK us => OK (u :: us)
          | Raise e => Raise e
          end
      end
  end.

Definition is_trace (e : data_elem) : bool :=
  match e with A_trace _ _ => true | Not_a_trace => false end.

Definition elem_uid (e : data_elem) : value :=
  match e with A_trace _ u => u | Not_a_trace => VNone end.

Definition elem_obj (e : data_elem) : nat :=
  match e with A_trace o _ => o | Not_a_trace => O end.

Fixpoint count_uid (u : value) (l : list value) : nat :=
  match l with
  | [] => O
  | x :: t => (if uid_eqb u x then 1 else 0) + count_uid u t
  end%nat.

(** The uids that [collections.Counter(new_uids)] counts more than once. *)
Definition duplicates (new_uids : list value) : list value :=
  filter (fun u => Nat.ltb 1 (count_uid u new_uids))
         (fold_left (fun acc u => if mem_uid u acc then acc else acc ++ [u])
                    new_uids []).

Fixpoint remove_at {A : Type} (n : nat) (l : list A) : list A :=
  match l, n with
  | [], _ => []
  | _ :: t, O => t
  | h :: t, S m => h :: remove_at m t
  end.

(** [l.insert(n, x)]. *)
Definition insert_at {A : Type} (n : nat) (x : A) (l : list A) : list A :=
  firstn n l ++ x :: skipn n l.

Fixpoint insert_by_index {A : Type} (x : nat * A) (l : list (nat * A))
  : list (nat * A) :=
  match l with
  | [] => [x]
  | y :: t => if Nat.leb (fst x) (fst y) then x :: l
              else y :: insert_by_index x t
  end.

Fixpoint has_duplicates (l : list nat) : bool :=
  match l with
  | [] => false
  | x :: t => existsb (Nat.eqb x) t || has_duplicates t
  end.

(** [sorted(zip(inds, xs))].  Two equal indexes make the sort compare
    the dicts paired with them, which raises; they arise only when two
    current traces share a uid. *)
Definition sorted_zip {A : Type} (inds : list nat) (xs : list A)
  : res (list (nat * A)) :=
  if has_duplicates (map fst (combine inds xs)) then Raise TypeError
  else OK (fold_right insert_by_index [] (combine inds xs)).

(** The validation that opens the setter; its result is the pair of
    [orig_uids] and [new_uids]. *)
Definition validate_new_data (f : Figure) (new_data : data_arg)
  : res (list data_elem * list value * list value) :=
  match new_data with
  | Not_a_sequence => Raise ValueError_DataNotSequence
  | Sequence new_data =>
      if negb (forallb is_trace new_data)
      then Raise ValueError_DataElementType
      else
        match uids_of (_data f) with
        | Raise e => Raise e
        | OK orig_uids =>
            let new_uids := map elem_uid new_data in
            if negb (forallb hashable new_uids)
               || negb (forallb hashable orig_uids)
            then Raise TypeError
            else if existsb (fun u => negb (mem_uid u orig_uids)) new_uids
            then Raise ValueError_InvalidUids
            else if nonempty (duplicates new_uids)
            then Raise ValueError_DuplicateUids
            else OK (new_data, orig_uids, new_uids)
        end
  end.

(** "Unparent removed traces": the indexes to delete, and the removed
    objects with a copy of their properties. *)
Fixpoint unparent_removed (f : Figure) (i : nat) (orig_uids : list value)
  (remove_uids : list value) : res (list nat * list (nat * props)) :=
  match orig_uids with
  | [] => OK ([], [])
  | uid :: rest =>
      if mem_uid uid remove_uids then
        match nth_error (_data_objs f) i with
        | None => Raise IndexError
        | Some old_trace =>
            let old_props :=
              match _index_is (_data_objs f) old_trace with
              | Some j => nth j (_data f) []
              | None => []
              end in
            match unparent_removed f (S i) rest remove_uids with
            | OK (delete_inds, orphans) =>
                OK (i :: delete_inds, (old_trace, old_props) :: orphans)
            | Raise e => Raise e
            end
        end
      else unparent_removed f (S i) rest remove_uids
  end.

(** The [data] setter. *)
Definition set_data (new_data : data_arg) : M Figure unit :=
  fun f =>
    match validate_new_data f new_data with
    | Raise e => (f, Raise e)
    | OK (new_data, orig_uids, new_uids) =>
        let remove_uids :=
          filter (fun u => negb (mem_uid u new_uids)) orig_uids in
        match unparent_removed f 0 orig_uids remove_uids with
        | Raise e => (f, Raise e)
        | OK (delete_inds, orphans) =>
            let f := with_detached (detached f ++ orphans) f in
            let del := fun {A : Type} (l : list A) =>
              fold_left (fun l i => remove_at i l) (rev delete_inds) l in
            let traces_props_post_removal := del (_data f) in
            let traces_prop_defaults_post_removal :=
              del (_data_defaults f) in
            let uids_post_removal := del orig_uids in
            let f := with_data (del (_data f)) f in
            let f :=
              if nonempty delete_inds
              then fst (emit (Send_deleteTraces delete_inds) f) else f in
            let new_inds :=
              map (fun uid =>
                     match index_of uid_eqb uid new_uids with
                     | Some n => n
                     | None => O
                     end) uids_post_removal in
            let current_inds :=
              seq 0 (length traces_props_post_removal) in
            let moved : Figure * res (list nat) :=
              if negb (forallb (fun '(i1, i2) => Nat.eqb i1 i2)
                               (combine new_inds current_inds))
              then
                let f := fst (emit (Send_moveTraces current_inds new_inds)
                                   f) in
                let moving_traces_data := _data f in
                match sorted_zip new_inds moving_traces_data with
                | Raise e => (with_data [] f, Raise e)
                | OK sorted =>
                    (with_data
                       (fold_left
                          (fun l '(ni, trace_data) =>
                             insert_at ni trace_data l)
                          sorted []) f,
                     OK (map fst sorted))
                end
              else (f, OK new_inds) in
            match moved with
            | (f, Raise e) => (f, Raise e)
            | (f, OK new_inds) =>
                match sorted_zip new_inds
                                 traces_prop_defaults_post_removal with
                | Raise e => (f, Raise e)
                | OK sorted =>
                    let f := with_data_defaults (map snd sorted) f in
                    (with_data_objs (map elem_obj new_data) f, OK tt)
                end
            end
        end
    end.

End Figure.

(* ================================================================== *)
(** * A schema and figures to run the engine on *)

(** [obj[p0][p1]...] on the stored values. *)
Fixpoint get_in (v : value) (path : list key) : res value :=
  match path with
  | [] => OK v
  | k :: rest =>
      match getitem v k with
      | OK child => get_in child rest
      | Raise e => Raise e
      end
  end.

(** A schema that accepts every path, stores values as they are given and
    presents a property as it is stored. *)
Definition any_schema : Validators :=
  {| arg := res value;
     trace_contains := fun _ _ => true;
     layout_contains := fun _ => true;
     validate_coerce := fun _ _ v => OK v;
     node_getitem := fun self p _ cb_path =>
                       get_in (VDict p) (snd self ++ cb_path) |}.

(** The figure that [__init__] builds from trace and layout properties:
    the trace objects are numbered from 0, nothing is batched, nothing was
    sent. *)
Definition new_figure {V : Validators} (data : list props) (layout : props)
  : Figure :=
  {| _data := data;
     _data_defaults := map (fun _ => []) data;
     _data_objs := seq 0 (length data);
     _layout := layout;
     _layout_defaults := [];
     _in_batch_mode := false;
     _batch_trace_edits := [];
     _batch_layout_edits := [];
     _change_callbacks := [];
     detached := [];
     log := [] |}.

(** [node.on_change(callback, *args, append=append)], for a node of the
    figure's tree and a non-empty list of valid [args]. *)
Definition on_change {V : Validators} (self : node) (callback : nat)
  (args : list path_arg) (append : bool) (f : Figure) : Figure :=
  let arg_tuples := map _str_to_dict_path args in
  let registered :=
    match dict_get node_eqb self (_change_callbacks f) with
    | Some r => r
    | None => []
    end in
  let callbacks :=
    match dict_get paths_eqb arg_tuples registered with
    | Some cbs => if append then cbs else []
    | None => []
    end in
  {| _data := _data f; _data_defaults := _data_defaults f;
     _data_objs := _data_objs f; _layout := _layout f;
     _layout_defaults := _layout_defaults f;
     _in_batch_mode := _in_batch_mode f;
     _batch_trace_edits := _batch_trace_edits f;
     _batch_layout_edits := _batch_layout_edits f;
     _change_callbacks :=
       dict_set node_eqb self
         (dict_set paths_eqb arg_tuples (callbacks ++ [callback]) registered)
         (_change_callbacks f);
     detached := detached f; log := log f |}.

(* ================================================================== *)
(** * The log, read back *)

Section Logged.
Context {V : Validators}.

Definition is_callback (ev : event) : bool :=
  match ev with Callback _ _ _ => true | _ => false end.

Definition is_send (ev : event) : bool :=
  match ev with
  | Send_restyle _ _ _ | Send_relayout _ _ | Send_update _ _ _ _
  | Send_deleteTraces _ | Send_moveTraces _ _ => true
  | _ => false
  end.

Definition is_dispatch (ev : event) : bool :=
  match ev with
  | Dispatch_trace_change_callbacks _ _
  | Dispatch_layout_change_callbacks _ => true
  | _ => false
  end.

(** The figure after the events [evs] were recorded in turn, nothing
    else having changed. *)
Definition logged (f : Figure) (evs : list event) : Figure :=
  with_log (log f ++ map (fun ev => (ev, batch_state f)) evs) f.

(** The calls one registration makes when its node is dispatched with
    [changed_paths], in the figure [f]. *)
Definition entry_events (self : node) (changed_paths : list (list key))
  (f : Figure) (entry : list (list key) * list nat) : list event :=
  let (prop_path_tuples, callbacks) := entry in
  if intersects changed_paths prop_path_tuples then
    let (p, dflt) := owner_props (fst self) f in
    map (fun callback =>
           Callback callback self
             (map (node_getitem self p dflt) prop_path_tuples))
        callbacks
  else [].

(** The calls a node makes when it is dispatched. *)
Definition node_events (self : node) (changed_paths : list (list key))
  (f : Figure) : list event :=
  match dict_get node_eqb self (_change_callbacks f) with
  | None => []
  | Some registered =>
      flat_map (entry_events self changed_paths f) registered
  end.

(** The calls a dispatch of layout changes makes. *)
Definition layout_events (relayout_data : edits) (f : Figure)
  : list event :=
  flat_map (fun '(path_tuple, changed_paths) =>
              node_events (Layout, path_tuple) changed_paths f)
           (_build_dispatch_plan (dict_keys relayout_data)).

(** The calls a dispatch of trace changes makes, on the trace objects
    [traces] that the trace indexes name, in their order. *)
Definition trace_events (restyle_data : edits) (traces : list nat)
  (f : Figure) : list event :=
  flat_map (fun '(path_tuple, changed_paths) =>
              flat_map (fun trace =>
                          node_events (Trace trace, path_tuple)
                                      changed_paths f)
                       traces)
           (_build_dispatch_plan (dict_keys restyle_data)).

(** [self.data[t]] for each targeted index. *)
Fixpoint traces_at (f : Figure) (trace_indexes : list Z)
  : option (list nat) :=
  match trace_indexes with
  | [] => Some []
  | t :: rest =>
      match list_index (length (_data_objs f)) t, traces_at f rest with
      | Some n, Some objs => Some (nth n (_data_objs f) O :: objs)
      | _, _ => None
      end
  end.

(** How often the callback [cb] is called in a run of events. *)
Definition fired (cb : nat) (evs : list event) : nat :=
  length (filter (fun ev => match ev with
                            | Callback c _ _ => Nat.eqb c cb
                            | _ => false
                            end) evs).
End Logged.

(** What the [data] setter accepts, in the words of its error message: a
    list or tuple that contains a permutation of a subset of the figure's
    traces, matched by uid: every element is a trace, every uid is one of
    the current uids, and no uid comes twice. *)
Definition permutation_of_subset {V : Validators} (orig_uids : list value)
  (new_data : data_arg) : bool :=
  match new_data with
  | Not_a_sequence => false
  | Sequence elems =>
      let new_uids := map elem_uid elems in
      forallb is_trace elems
      && forallb (fun u => mem_uid u orig_uids) new_uids
      && forallb (fun u => Nat.leb (count_uid u new_uids) 1) new_uids
  end.

Section Registrations.
Context {V : Validators}.

(** The registrations in the [_change_callbacks] dict of a node: one
    for each callback under each tuple of paths. *)
Definition registrations_of (self : node)
  (registered : list (list (list key) * list nat))
  : list (node * list (list key) * nat) :=
  flat_map (fun '(prop_path_tuples, callbacks) =>
              map (fun callback => (self, prop_path_tuples, callback))
                  callbacks)
           registered.

Definition has_callback (cb : nat) (t : node * list (list key) * nat)
  : bool :=
  Nat.eqb (snd t) cb.

(** The callback [cb] is registered once in the figure: on the node
    [self], for the paths [paths]. *)
Definition registered_once (f : Figure) (cb : nat) (self : node)
  (paths : list (list key)) : Prop :=
  (exists registered,
      dict_get node_eqb self (_change_callbacks f) = Some registered)
  /\ forall n registered,
       dict_get node_eqb n (_change_callbacks f) = Some registered ->
       filter (has_callback cb) (registrations_of n registered)
       = if node_eqb n self then [(self, paths, cb)] else [].

(** How often a registration for [paths] on the node at [path_tuple]
    fires in one dispatch of [changes]: once if the paths changed at
    the node meet [paths]. *)
Definition fires (changes : edits) (path_tuple : list key)
  (paths : list (list key)) : nat :=
  match dict_get path_eqb path_tuple
          (_build_dispatch_plan (dict_keys changes)) with
  | Some changed_paths => if intersects changed_paths paths then 1 else 0
  | None => 0
  end.
End Registrations.

(* ================================================================== *)
(** * More of the engine *)

From Stdlib Require Import Sorted Permutation.

(** A value whose dicts, at every depth, have pairwise distinct keys, as
    the dicts of Python have. *)
Fixpoint keys_distinct (v : value) : bool :=
  match v with
  | VList l => forallb keys_distinct l
  | VDict d =>
      distinct_keys (map fst d)
      && (fix all (d : list (key * value)) : bool :=
            match d with
            | [] => true
            | (_, x) :: t => keys_distinct x && all t
            end) d
  | _ => true
  end.

(* ------------------------------------------------------------------ *)
(** ** [add_traces] *)

(** An element of [rows] or [cols]: an int or something else. *)
Inductive row_col : Type :=
| RC_int (z : Z)
| RC_other.

(** The [rows] and [cols] arguments: [None], a list or tuple, or
    something else. *)
Inductive rows_cols_arg : Type :=
| RC_None
| RC_seq (vals : list row_col)
| RC_not_a_sequence.

(** What [add_traces] raises: the ValueErrors of the method itself, and
    whatever the data validator or [_set_trace_grid_position] raise. *)
Inductive add_traces_error : Type :=
| Traces_in_batch_context
| Invalid_rows_cols (name : string)
| Rows_but_not_cols
| Cols_but_not_rows
| Data_validator_error (e : exn)
| Grid_position_error (e : exn).

Definition is_RC_int (r : row_col) : bool :=
  match r with RC_int _ => true | RC_other => false end.

(** [BaseFigure._validate_rows_cols]; [None] when it returns. *)
Definition _validate_rows_cols (name : string) (n : nat)
  (vals : rows_cols_arg) : option add_traces_error :=
  match vals with
  | RC_None => None
  | RC_seq vals =>
      if negb (Nat.eqb (length vals) n) then Some (Invalid_rows_cols name)
      else if nonempty (filter (fun r => negb (is_RC_int r)) vals)
           then Some (Invalid_rows_cols name)
           else None
  | RC_not_a_sequence => Some (Invalid_rows_cols name)
  end.

Section AddTraces.
Context {V : Validators}.

(** [_set_trace_grid_position], which belongs to the subplot tools: it
    assigns axes to the trace that is not yet in the figure, or
    raises. *)
Variable _set_trace_grid_position :
  nat * props -> row_col -> row_col -> res (nat * props).

(** "Apply rows / cols": the loop over [zip(data, rows, cols)]. *)
Fixpoint apply_rows_cols (data : list (nat * props))
  (rows cols : list row_col) : res (list (nat * props)) :=
  match data, rows, cols with
  | trace :: data', row :: rows', col :: cols' =>
      match _set_trace_grid_position trace row col with
      | Raise e => Raise e
      | OK trace' =>
          match apply_rows_cols data' rows' cols' with
          | OK rest => OK (trace' :: rest)
          | Raise e => Raise e
          end
      end
  | _, _, _ => OK data
  end.

(** [BaseFigure.add_traces].  [data] is what the data validator makes
    of the argument: the trace objects with their properties, or its
    exception.  The result is the tuple of added traces together with
    the argument of the [_send_addTraces_msg] call that ends the
    method. *)
Definition add_traces (data : res (list (nat * props)))
  (rows cols : rows_cols_arg) (f : Figure)
  : Figure * (add_traces_error + list nat * list props) :=
  if _in_batch_mode f then
    (with_batch_trace_edits [] (with_batch_layout_edits [] f),
     inl Traces_in_batch_context)
  else
    match data with
    | Raise e => (f, inl (Data_validator_error e))
    | OK data =>
        let n := length data in
        match _validate_rows_cols "rows" n rows with
        | Some err => (f, inl err)
        | None =>
            match _validate_rows_cols "cols" n cols with
            | Some err => (f, inl err)
            | None =>
                match rows, cols with
                | RC_seq _, RC_None => (f, inl Rows_but_not_cols)
                | RC_None, RC_seq _ => (f, inl Cols_but_not_rows)
                | _, _ =>
                    let positioned :=
                      match rows, cols with
                      | RC_seq rows, RC_seq cols =>
                          apply_rows_cols data rows cols
                      | _, _ => OK data
                      end in
                    match positioned with
                    | Raise e => (f, inl (Grid_position_error e))
                    | OK data =>
                        let new_traces_data := map snd data in
                        let f := with_data (_data f ++ new_traces_data) f in
                        let f :=
                          with_data_defaults
                            (_data_defaults f ++ map (fun _ => []) data)
                            f in
                        let f :=
                          with_data_objs (_data_objs f ++ map fst data)
                                         f in
                        (f, inr (map fst data, new_traces_data))
                    end
                end
            end
        end
    end.

(** [add_traces] as a statement of a block: [as_exn] says which
    exception stands for an error of [add_traces]. *)
Definition add_traces_stmt (as_exn : add_traces_error -> exn)
  (data : res (list (nat * props))) (rows cols : rows_cols_arg)
  : M Figure unit :=
  fun f =>
    match add_traces data rows cols f with
    | (f', inl err) => (f', Raise (as_exn err))
    | (f', inr _) => (f', OK tt)
    end.
End AddTraces.

(* ------------------------------------------------------------------ *)
(** ** The event callbacks of a trace *)

(** The callback lists of a [BaseTraceType] object. *)
Record trace_callbacks : Type := {
  _hover_callbacks : list nat;
  _unhover_callbacks : list nat;
  _click_callbacks : list nat;
  _select_callbacks : list nat
}.

(** [if not append: callbacks.clear()], then
    [if callback: callbacks.append(callback)]. *)
Definition register (callbacks : list nat) (callback : option nat)
  (append : bool) : list nat :=
  let callbacks := if negb append then [] else callbacks in
  match callback with
  | Some cb => callbacks ++ [cb]
  | None => callbacks
  end.

Definition on_hover (callback : option nat) (append : bool)
  (self : trace_callbacks) : trace_callbacks :=
  {| _hover_callbacks := register (_hover_callbacks self) callback append;
     _unhover_callbacks := _unhover_callbacks self;
     _click_callbacks := _click_callbacks self;
     _select_callbacks := _select_callbacks self |}.

Definition on_unhover (callback : option nat) (append : bool)
  (self : trace_callbacks) : trace_callbacks :=
  {| _hover_callbacks := _hover_callbacks self;
     _unhover_callbacks :=
       register (_unhover_callbacks self) callback append;
     _click_callbacks := _click_callbacks self;
     _select_callbacks := _select_callbacks self |}.

Definition on_click (callback : option nat) (append : bool)
  (self : trace_callbacks) : trace_callbacks :=
  {| _hover_callbacks := _hover_callbacks self;
     _unhover_callbacks := _unhover_callbacks self;
     _click_callbacks := register (_click_callbacks self) callback append;
     _select_callbacks := _select_callbacks self |}.

Definition on_selection (callback : option nat) (append : bool)
  (self : trace_callbacks) : trace_callbacks :=
  {| _hover_callbacks := _hover_callbacks self;
     _unhover_callbacks := _unhover_callbacks self;
     _click_callbacks := _click_callbacks self;
     _select_callbacks :=
       register (_select_callbacks self) callback append |}.

Section TraceDispatch.
Context {Points State : Type}.

(** The calls [callback(self, points, state)] that a dispatch makes,
    in order. *)
Definition _dispatch_on_hover (self : trace_callbacks) (points : Points)
  (state : State) : list (nat * Points * State) :=
  map (fun callback => (callback, points, state)) (_hover_callbacks self).

Definition _dispatch_on_unhover (self : trace_callbacks)
  (points : Points) (state : State) : list (nat * Points * State) :=
  map (fun callback => (callback, points, state))
      (_unhover_callbacks self).

Definition _dispatch_on_click (self : trace_callbacks) (points : Points)
  (state : State) : list (nat * Points * State) :=
  map (fun callback => (callback, points, state)) (_click_callbacks self).

Definition _dispatch_on_selection (self : trace_callbacks)
  (points : Points) (selector : State) : list (nat * Points * State) :=
  map (fun callback => (callback, points, selector))
      (_select_callbacks self).
End TraceDispatch.

(* ------------------------------------------------------------------ *)
(** ** Subplot properties of the layout *)

Definition _subplotid_prop_names : list string :=
  ["xaxis"; "yaxis"; "geo"; "ternary"; "scene"].

(** What is left of [s] after the prefix [pre]. *)
Fixpoint strip_prefix (pre s : string) : option string :=
  match pre with
  | EmptyString => Some s
  | String a pre' =>
      match s with
      | String b s' => if Ascii.eqb a b then strip_prefix pre' s' else None
      | EmptyString => None
      end
  end.

(** [_subplotid_prop_re.fullmatch(prop)] and its two groups: one of the
    subplot names, tried in order, followed by one or more digits. *)
Definition _subplotid_prop_re_fullmatch (prop : string)
  : option (string * string) :=
  (fix alternatives (names : list string) : option (string * string) :=
     match names with
     | [] => None
     | name :: rest =>
         match strip_prefix name prop with
         | Some digits =>
             if nonempty (list_ascii_of_string digits)
                && forallb PyStr.is_digit (list_ascii_of_string digits)
             then Some (name, digits)
             else alternatives rest
         | None => alternatives rest
         end
     end) _subplotid_prop_names.

(** [BaseLayoutType._strip_subplot_suffix_of_1]. *)
Definition _strip_subplot_suffix_of_1 (prop : path_arg) : res path_arg :=
  match _str_to_dict_path prop with
  | [KStr prop'] =>
      match _subplotid_prop_re_fullmatch prop' with
      | Some (subplot_prop, digits) =>
          match PyStr.int digits with
          | None => Raise ValueError_InvalidValue
          | Some suffix_digit =>
              if nonempty (list_ascii_of_string subplot_prop)
                 && (suffix_digit =? 1)
              then OK (Str subplot_prop)
              else OK (Str prop')
          end
      | None => OK (Str prop')
      end
  | _ => OK prop
  end.

(* ------------------------------------------------------------------ *)
(** ** Telling the parent of a change *)

(** [getattr(self, child.plotly_name)]: an object, or a tuple of
    objects for a compound array property. *)
Inductive child_prop_val : Type :=
| Child_object (obj : nat)
| Child_tuple (objs : list nat).

(** The [obj_path] that [_prop_set_child] builds for a change at
    [prop_path_str] below the child. *)
Definition obj_path (child_name : string) (child : nat)
  (val : child_prop_val) (prop_path_str : string) : res string :=
  match val with
  | Child_tuple objs =>
      match _index_is objs child with
      | None => Raise ValueError_InvalidValue
      | Some child_ind =>
          OK (child_name ++ "." ++ PyStr.decimal (Z.of_nat child_ind)
                ++ "." ++ prop_path_str)%string
      end
  | Child_object _ => OK (child_name ++ "." ++ prop_path_str)%string
  end.

(** [BasePlotlyType._prop_set_child], for the [_send_prop_set] of the
    class of [self]. *)
Definition _prop_set_child {S : Type}
  (_send_prop_set : string -> value -> M S unit)
  (child_name : string) (child : nat) (child_val : child_prop_val)
  (prop_path_str : string) (val : value) : M S unit :=
  match obj_path child_name child child_val prop_path_str with
  | Raise e => raise e
  | OK path => _send_prop_set path val
  end.

(* ================================================================== *)
(** * Properties *)

Example parse_foo_bar_1 :
  _str_to_dict_path (Str "foo.bar[1]") = [KStr "foo"; KStr "bar"; KInt 1].
Proof. reflexivity. Qed.

Example parse_marker_size_0 :
  _str_to_dict_path (Str (serialize [KStr "marker"; KStr "size"; KInt 0]))
  = [KStr "marker"; KStr "size"; KInt 0].
Proof. reflexivity. Qed.

Example parse_numeric_name :
  _str_to_dict_path (Str "a. -1_0 .b") = [KStr "a"; KInt (-10); KStr "b"].
Proof. reflexivity. Qed.

Example set_in_nested :
  _set_in (VDict []) "foo.bar[1]" (VInt 7)
  = (VDict [(KStr "foo", VDict [(KStr "bar", VList [VNone; VInt 7])])],
     OK true).
Proof. reflexivity. Qed.

Example set_in_same_value :
  _set_in (VDict [(KStr "x", VList [VInt 1; VInt 2])]) "x"
          (VList [VInt 1; VInt 2])
  = (VDict [(KStr "x", VList [VInt 1; VInt 2])], OK false).
Proof. reflexivity. Qed.

(* ------------------------------------------------------------------ *)
(** ** Key path strings *)

Module PathFacts.

Lemma chars_app (a b : string) :
  list_ascii_of_string (a ++ b)%string
  = list_ascii_of_string a ++ list_ascii_of_string b.
Proof. induction a; simpl; congruence. Qed.

Lemma append_nil_r (a : string) : (a ++ "")%string = a.
Proof. induction a; simpl; congruence. Qed.

Lemma append_assoc (a b c : string) :
  ((a ++ b) ++ c)%string = (a ++ b ++ c)%string.
Proof. induction a; simpl; congruence. Qed.

Lemma has_char_app (c : ascii) (a b : string) :
  has_char c (a ++ b)%string = has_char c a || has_char c b.
Proof. unfold has_char. now rewrite chars_app, existsb_app. Qed.

Lemma split_dot_plain (s : string) :
  has_char "." s = false -> PyStr.split_dot s = [s].
Proof.
  unfold has_char. induction s as [|c s IH]; simpl; [reflexivity|].
  intros H. apply orb_false_iff in H as [Hc Hs].
  rewrite Hc, (IH Hs). reflexivity.
Qed.

Lemma split_dot_app (s t : string) :
  has_char "." s = false ->
  PyStr.split_dot (s ++ String "." t) = s :: PyStr.split_dot t.
Proof.
  unfold has_char. induction s as [|c s IH]; simpl; [reflexivity|].
  intros H. apply orb_false_iff in H as [Hc Hs].
  rewrite Hc, (IH Hs). reflexivity.
Qed.

Definition digits (cs : list ascii) : Prop :=
  Forall (fun c => PyStr.is_digit c = true) cs.

Lemma digit_facts (c : ascii) :
  PyStr.is_digit c = true ->
  PyStr.is_space c = false /\ Ascii.eqb c "-" = false
  /\ Ascii.eqb c "+" = false /\ Ascii.eqb c "_" = false
  /\ Ascii.eqb c "." = false /\ Ascii.eqb c "[" = false.
Proof.
  destruct c as [[|] [|] [|] [|] [|] [|] [|] [|]];
    intros H; try discriminate H; repeat split; reflexivity.
Qed.

Lemma uint_digits (d : Decimal.uint) :
  digits (list_ascii_of_string (DecimalString.NilEmpty.string_of_uint d)).
Proof.
  induction d; simpl; constructor; solve [reflexivity | assumption].
Qed.

Lemma uint_chars_nil (d : Decimal.uint) :
  list_ascii_of_string (DecimalString.NilEmpty.string_of_uint d) = [] ->
  d = Decimal.Nil.
Proof. destruct d; simpl; intros H; solve [reflexivity | discriminate H]. Qed.

Lemma decimal_digits (z : Z) :
  digits (list_ascii_of_string (PyStr.decimal z)).
Proof. apply uint_digits. Qed.

Lemma decimal_nonempty (z : Z) :
  list_ascii_of_string (PyStr.decimal z) <> [].
Proof.
  unfold PyStr.decimal. intros H. apply uint_chars_nil in H.
  destruct (Z.to_N z) as [|p]; simpl in H; [discriminate H|].
  exact (DecimalPos.Unsigned.to_uint_nonnil p H).
Qed.

Lemma digits_rev (cs : list ascii) : digits cs -> digits (rev cs).
Proof. apply Forall_rev. Qed.

Lemma dropwhile_digits (cs : list ascii) :
  digits cs -> PyStr.dropwhile PyStr.is_space cs = cs.
Proof.
  intros [|c r Hc _]; simpl; [reflexivity|].
  now destruct (digit_facts c Hc) as (-> & _).
Qed.

Lemma strip_digits (cs : list ascii) : digits cs -> PyStr.strip cs = cs.
Proof.
  intros H. unfold PyStr.strip.
  rewrite (dropwhile_digits cs H), (dropwhile_digits _ (digits_rev _ H)).
  apply rev_involutive.
Qed.

Lemma int_digits_all (cs : list ascii) :
  digits cs -> PyStr.int_digits true cs = Some cs.
Proof.
  induction 1 as [|c r Hc _ IH]; simpl; [reflexivity|].
  now rewrite Hc, IH.
Qed.

Lemma nat_literal_decimal (z : Z) :
  0 <= z ->
  PyStr.nat_literal (list_ascii_of_string (PyStr.decimal z)) = Some z.
Proof.
  intros Hz. unfold PyStr.nat_literal.
  pose proof (decimal_digits z) as Hd.
  pose proof (decimal_nonempty z) as Hn.
  destruct (list_ascii_of_string (PyStr.decimal z)) as [|c r] eqn:E;
    [contradiction|].
  inversion Hd as [|? ? Hc Hr]; subst. simpl.
  rewrite Hc, (int_digits_all r Hr). simpl option_map. cbv iota.
  rewrite <- E, string_of_list_ascii_of_string.
  unfold PyStr.decimal. rewrite DecimalString.NilEmpty.usu.
  rewrite DecimalN.Unsigned.of_to. f_equal. lia.
Qed.

Lemma int_decimal (z : Z) : 0 <= z -> PyStr.int (PyStr.decimal z) = Some z.
Proof.
  intros Hz. unfold PyStr.int.
  pose proof (decimal_digits z) as Hd.
  rewrite (strip_digits _ Hd).
  pose proof (nat_literal_decimal z Hz) as Hl.
  destruct (list_ascii_of_string (PyStr.decimal z)) as [|c r] eqn:E.
  - now destruct (decimal_nonempty z).
  - inversion Hd as [|? ? Hc Hr]; subst.
    destruct (digit_facts c Hc) as (_ & -> & -> & _). exact Hl.
Qed.

Lemma span_digits (ds rest : list ascii) (o : ascii) :
  digits ds -> PyStr.is_digit o = false ->
  PyStr.span PyStr.is_digit (ds ++ o :: rest) = (ds, o :: rest).
Proof.
  intros H Ho. induction H as [|c r Hc _ IH]; simpl.
  - now rewrite Ho.
  - now rewrite Hc, IH.
Qed.

Lemma existsb_rev {A : Type} (f : A -> bool) (l : list A) :
  existsb f (rev l) = existsb f l.
Proof.
  induction l as [|a l IH]; simpl; [reflexivity|].
  rewrite existsb_app, IH. simpl. rewrite orb_false_r. apply orb_comm.
Qed.

Lemma rev_chars_indexed (s d : string) :
  rev (list_ascii_of_string (s ++ "[" ++ d ++ "]")%string)
  = "]"%char :: rev (list_ascii_of_string d)
      ++ "["%char :: rev (list_ascii_of_string s).
Proof.
  rewrite !chars_app. simpl list_ascii_of_string.
  rewrite rev_app_distr. simpl rev at 1.
  rewrite rev_app_distr. simpl. now rewrite <- app_assoc.
Qed.

Lemma bracket_name_index (s : string) (z : Z) :
  has_char "010" s = false ->
  PyStr.bracket_fullmatch (s ++ "[" ++ PyStr.decimal z ++ "]")%string
  = Some (s, PyStr.decimal z).
Proof.
  intros Hs. unfold PyStr.bracket_fullmatch.
  rewrite rev_chars_indexed.
  change (Ascii.eqb "]" "]") with true. cbv iota.
  rewrite (span_digits (rev (list_ascii_of_string (PyStr.decimal z)))
             (rev (list_ascii_of_string s)) "["%char
             (digits_rev _ (decimal_digits z)) eq_refl).
  destruct (rev (list_ascii_of_string (PyStr.decimal z))) as [|d ds] eqn:E.
  - apply (f_equal (@rev ascii)) in E. rewrite rev_involutive in E.
    now destruct (decimal_nonempty z).
  - change (Ascii.eqb "[" "[") with true.
    unfold has_char in Hs. unfold PyStr.is_newline.
    rewrite existsb_rev, Hs. simpl andb. cbv iota.
    rewrite rev_involutive, string_of_list_ascii_of_string, <- E.
    now rewrite rev_involutive, string_of_list_ascii_of_string.
Qed.

Lemma to_key_name (s : string) : plain_name s = true -> to_key s = KStr s.
Proof.
  unfold plain_name, to_key. intros H. apply andb_true_iff in H as [_ H].
  now destruct (PyStr.int s).
Qed.

Lemma to_key_decimal (z : Z) : 0 <= z -> to_key (PyStr.decimal z) = KInt z.
Proof. intros H. unfold to_key. now rewrite int_decimal. Qed.

Lemma no_dot_name (s : string) :
  plain_name s = true -> has_char "." s = false.
Proof.
  unfold plain_name. intros H. apply andb_true_iff in H as [H _].
  now apply negb_true_iff in H.
Qed.

Lemma no_dot_decimal (z : Z) : has_char "." (PyStr.decimal z) = false.
Proof.
  unfold has_char. pose proof (decimal_digits z) as H.
  induction H as [|c r Hc _ IH]; simpl; [reflexivity|].
  now destruct (digit_facts c Hc) as (_ & _ & _ & _ & -> & _).
Qed.

Lemma no_dot_indexed (s : string) (z : Z) :
  plain_name s = true ->
  has_char "." (s ++ "[" ++ PyStr.decimal z ++ "]")%string = false.
Proof.
  intros H. rewrite !has_char_app, (no_dot_name s H), no_dot_decimal.
  reflexivity.
Qed.

Lemma split_brackets_indexed (s : string) (z : Z) (rest : list string) :
  has_char "010" s = false ->
  split_brackets ((s ++ "[" ++ PyStr.decimal z ++ "]")%string :: rest)
  = s :: PyStr.decimal z :: split_brackets rest.
Proof.
  intros H. cbn [split_brackets]. now rewrite (bracket_name_index s z H).
Qed.

(** The parse of a serialized plain path, by induction on its length. *)
Lemma parse_serialize_plain (n : nat) :
  forall p : list key,
    (length p <= n)%nat -> p <> [] -> plain_from false p = true ->
    map to_key (split_brackets (PyStr.split_dot (serialize_from true p)))
    = p.
Proof.
  induction n as [|n IH]; intros p Hlen Hne Hp.
  - destruct p; [contradiction | simpl in Hlen; lia].
  - destruct p as [|[s|z] rest]; [contradiction| |discriminate Hp].
    simpl in Hp. apply andb_true_iff in Hp as [Hp Hrest].
    apply andb_true_iff in Hp as [Hname Hshape].
    destruct rest as [|[t|z] rest'].
    + (* the name ends the path *)
      simpl. rewrite append_nil_r, (split_dot_plain s (no_dot_name s Hname)).
      simpl. destruct (PyStr.bracket_fullmatch s); [discriminate Hshape|].
      simpl. now rewrite (to_key_name s Hname).
    + (* the name precedes another name *)
      change (serialize_from true (KStr s :: KStr t :: rest'))
        with (s ++ String "." (serialize_from true (KStr t :: rest')))%string.
      rewrite (split_dot_app s _ (no_dot_name s Hname)).
      simpl split_brackets.
      destruct (PyStr.bracket_fullmatch s); [discriminate Hshape|].
      simpl map. rewrite (to_key_name s Hname). f_equal.
      apply (IH (KStr t :: rest'));
        [simpl in Hlen |- *; lia | discriminate | exact Hrest].
    + (* the name carries an index *)
      apply negb_true_iff in Hshape.
      simpl in Hrest. apply andb_true_iff in Hrest as [Hz Hrest].
      apply Z.leb_le in Hz.
      destruct rest' as [|[t|z'] rest''].
      * change (serialize_from true [KStr s; KInt z])
          with (s ++ "[" ++ PyStr.decimal z ++ "]" ++ "")%string.
        replace (s ++ "[" ++ PyStr.decimal z ++ "]" ++ "")%string
          with (s ++ "[" ++ PyStr.decimal z ++ "]")%string
          by (now rewrite !append_nil_r).
        rewrite (split_dot_plain _ (no_dot_indexed s z Hname)).
        rewrite (split_brackets_indexed s z [] Hshape).
        simpl. now rewrite (to_key_name s Hname), (to_key_decimal z Hz).
      * change (serialize_from true
                  (KStr s :: KInt z :: KStr t :: rest''))
          with (s ++ "[" ++ PyStr.decimal z ++ "]"
                  ++ String "." (serialize_from true (KStr t :: rest'')))%string.
        replace (s ++ "[" ++ PyStr.decimal z ++ "]"
                   ++ String "." (serialize_from true (KStr t :: rest'')))%string
          with ((s ++ "[" ++ PyStr.decimal z ++ "]")
                  ++ String "." (serialize_from true (KStr t :: rest'')))%string
          by (now rewrite !append_assoc).
        rewrite (split_dot_app _ _ (no_dot_indexed s z Hname)).
        rewrite (split_brackets_indexed s z _ Hshape).
        simpl map. rewrite (to_key_name s Hname), (to_key_decimal z Hz).
        do 2 f_equal.
        apply (IH (KStr t :: rest''));
          [simpl in Hlen |- *; lia | discriminate | exact Hrest].
      * discriminate Hrest.
Qed.

End PathFacts.

(** C8, as the claim states it, fails: a path with two consecutive
    indexes is serialized with two bracket pairs on one name, and the
    parser splits off only the last one. *)
Lemma parse_serialize_nested_index :
  let p := [KStr "z"; KInt 0; KInt 1] in
  Forall (fun k => match k with
                   | KStr s => PyStr.int s = None
                   | KInt i => 0 <= i
                   end) p
  /\ serialize p = "z[0][1]"
  /\ _str_to_dict_path (Str (serialize p)) = [KStr "z[0]"; KInt 1]
  /\ _str_to_dict_path (Str (serialize p)) <> p.
Proof.
  cbv zeta. split; [|split; [|split]].
  - repeat constructor; discriminate.
  - reflexivity.
  - reflexivity.
  - discriminate.
Qed.

(** C8 (amended): a non-empty path that starts with a name, has no two
    consecutive indexes, and whose names are plain (see [plain_from])
    is what [_str_to_dict_path] returns on its serialized form. *)
Theorem parse_serialize_roundtrip (p : list key) :
  plain_path p = true -> _str_to_dict_path (Str (serialize p)) = p.
Proof.
  intros H. unfold _str_to_dict_path, serialize.
  destruct p as [|k rest]; [discriminate H|].
  apply (PathFacts.parse_serialize_plain (length (k :: rest)));
    [apply Nat.le_refl | discriminate | exact H].
Qed.

Lemma parse_serialize_roundtrip_witness :
  plain_path [KStr "xaxis"; KStr "range"; KInt 10; KStr "font"] = true
  /\ _str_to_dict_path
       (Str (serialize [KStr "xaxis"; KStr "range"; KInt 10; KStr "font"]))
     = [KStr "xaxis"; KStr "range"; KInt 10; KStr "font"].
Proof.
  split; [reflexivity|].
  apply (parse_serialize_roundtrip
           [KStr "xaxis"; KStr "range"; KInt 10; KStr "font"]).
  reflexivity.
Defined.

(* ------------------------------------------------------------------ *)
(** ** Dicts and lists *)

Lemma key_eqb_eq (a b : key) : key_eqb a b = true <-> a = b.
Proof.
  destruct a as [s|x], b as [t|y]; simpl; split; intros H;
    try discriminate H; try (inversion H; subst).
  - apply String.eqb_eq in H. now subst.
  - apply String.eqb_refl.
  - apply Z.eqb_eq in H. now subst.
  - apply Z.eqb_refl.
Qed.

Section DictFacts.
Context {K V : Type} (eqb : K -> K -> bool).
Hypothesis eqb_eq : forall a b, eqb a b = true <-> a = b.

Lemma eqb_refl (k : K) : eqb k k = true.
Proof. now apply eqb_eq. Qed.

Lemma dict_get_set_same (k : K) (v : V) (d : list (K * V)) :
  dict_get eqb k (dict_set eqb k v d) = Some v.
Proof.
  induction d as [|[k' x] t IH]; simpl.
  - now rewrite eqb_refl.
  - destruct (eqb k k') eqn:E; simpl; rewrite E; [reflexivity | exact IH].
Qed.

Lemma dict_get_set_other (k k' : K) (v : V) (d : list (K * V)) :
  eqb k' k = false ->
  dict_get eqb k' (dict_set eqb k v d) = dict_get eqb k' d.
Proof.
  intros Hk. induction d as [|[k0 x] t IH]; simpl.
  - now rewrite Hk.
  - destruct (eqb k k0) eqn:E; simpl.
    + apply eqb_eq in E. subst k0. now rewrite Hk.
    + now rewrite IH.
Qed.

Lemma dict_has_set_same (k : K) (v : V) (d : list (K * V)) :
  dict_has eqb k (dict_set eqb k v d) = true.
Proof. unfold dict_has. now rewrite dict_get_set_same. Qed.

Lemma dict_set_set (k : K) (v v' : V) (d : list (K * V)) :
  dict_set eqb k v (dict_set eqb k v' d) = dict_set eqb k v d.
Proof.
  induction d as [|[k' x] t IH]; simpl.
  - now rewrite eqb_refl.
  - destruct (eqb k k') eqn:E; simpl; rewrite E; [reflexivity|].
    now rewrite IH.
Qed.

Lemma dict_set_get_id (k : K) (x : V) (d : list (K * V)) :
  dict_get eqb k d = Some x -> dict_set eqb k x d = d.
Proof.
  induction d as [|[k' y] t IH]; simpl; [discriminate|].
  destruct (eqb k k') eqn:E.
  - now intros [= ->].
  - intros H. now rewrite (IH H).
Qed.

Lemma dict_keys_set_present (k : K) (v : V) (d : list (K * V)) :
  dict_has eqb k d = true ->
  dict_keys (dict_set eqb k v d) = dict_keys d.
Proof.
  unfold dict_has, dict_keys.
  induction d as [|[k' y] t IH]; simpl; [discriminate|].
  destruct (eqb k k') eqn:E; simpl; [reflexivity|].
  intros H. now rewrite (IH H).
Qed.

Lemma dict_keys_set_absent (k : K) (v : V) (d : list (K * V)) :
  dict_has eqb k d = false ->
  dict_keys (dict_set eqb k v d) = dict_keys d ++ [k].
Proof.
  unfold dict_has, dict_keys.
  induction d as [|[k' y] t IH]; simpl; [reflexivity|].
  destruct (eqb k k') eqn:E; simpl; [discriminate|].
  intros H. now rewrite (IH H).
Qed.

Lemma dict_has_in (k : K) (d : list (K * V)) :
  dict_has eqb k d = true <-> In k (dict_keys d).
Proof.
  unfold dict_has, dict_keys.
  induction d as [|[k' y] t IH]; simpl.
  - split; [discriminate | contradiction].
  - destruct (eqb k k') eqn:E.
    + apply eqb_eq in E. subst. split; auto.
    + rewrite IH. split; [auto|]. intros [H|H]; [|exact H].
      subst. rewrite eqb_refl in E. discriminate.
Qed.

Lemma length_dict_pop (k : K) (d : list (K * V)) :
  dict_has eqb k d = true ->
  S (length (dict_pop eqb k d)) = length d.
Proof.
  unfold dict_has.
  induction d as [|[k' y] t IH]; simpl; [discriminate|].
  destruct (eqb k k') eqn:E; simpl; [reflexivity|].
  intros H. now rewrite (IH H).
Qed.
End DictFacts.

Lemma length_list_update {A : Type} (n : nat) (x : A) (l : list A) :
  length (list_update n x l) = length l.
Proof.
  revert n. induction l as [|h t IH]; intros [|n]; simpl; auto.
Qed.

Lemma nth_list_update_same {A : Type} (n : nat) (x d : A) (l : list A) :
  (n < length l)%nat -> nth n (list_update n x l) d = x.
Proof.
  revert n. induction l as [|h t IH]; intros [|n] H; simpl in *;
    try lia; auto. apply IH. lia.
Qed.

Lemma nth_list_update_other {A : Type} (n m : nat) (x d : A) (l : list A) :
  n <> m -> nth m (list_update n x l) d = nth m l d.
Proof.
  revert n m. induction l as [|h t IH]; intros [|n] [|m] H; simpl;
    try reflexivity; try contradiction. apply IH. congruence.
Qed.

Lemma list_update_nth_id {A : Type} (n : nat) (d : A) (l : list A) :
  list_update n (nth n l d) l = l.
Proof.
  revert n. induction l as [|h t IH]; intros [|n]; simpl; auto.
  now rewrite IH.
Qed.

Lemma list_update_twice {A : Type} (n : nat) (x y : A) (l : list A) :
  list_update n x (list_update n y l) = list_update n x l.
Proof.
  revert n. induction l as [|h t IH]; intros [|n]; simpl; auto.
  now rewrite IH.
Qed.

Lemma list_index_lt (len : nat) (i : Z) (n : nat) :
  list_index len i = Some n -> (n < len)%nat.
Proof.
  unfold list_index.
  destruct ((0 <=? i) && (i <? Z.of_nat len)) eqn:E1.
  - intros [= <-]. apply andb_true_iff in E1 as [H1 H2]. lia.
  - destruct ((i <? 0) && (- Z.of_nat len <=? i)) eqn:E2; [|discriminate].
    intros [= <-]. apply andb_true_iff in E2 as [H1 H2]. lia.
Qed.

Lemma pad_to_in_range (l : list value) (i : Z) :
  i < Z.of_nat (length l) -> pad_to l i = l.
Proof.
  intros H. unfold pad_to.
  replace (Z.to_nat (i + 1 - Z.of_nat (length l))) with O by lia.
  simpl. apply app_nil_r.
Qed.

Lemma length_pad_to (l : list value) (i : Z) :
  Z.of_nat (length (pad_to l i)) = Z.max (Z.of_nat (length l)) (i + 1).
Proof. unfold pad_to. rewrite length_app, repeat_length. lia. Qed.

Lemma pad_to_twice (l : list value) (i : Z) :
  pad_to (pad_to l i) i = pad_to l i.
Proof. apply pad_to_in_range. rewrite length_pad_to. lia. Qed.

Lemma nth_pad_to_new (l : list value) (i : Z) :
  Z.of_nat (length l) <= i -> nth (Z.to_nat i) (pad_to l i) VNone = VNone.
Proof.
  intros H. unfold pad_to. rewrite app_nth2 by lia.
  destruct (Nat.lt_ge_cases (Z.to_nat i - length l)
              (Z.to_nat (i + 1 - Z.of_nat (length l)))) as [Hlt|Hge].
  - apply nth_repeat_lt. exact Hlt.
  - apply nth_overflow. now rewrite repeat_length.
Qed.

Lemma list_index_nonneg (len : nat) (i : Z) :
  0 <= i < Z.of_nat len -> list_index len i = Some (Z.to_nat i).
Proof.
  intros H. unfold list_index.
  replace ((0 <=? i) && (i <? Z.of_nat len)) with true; [reflexivity|].
  symmetry. apply andb_true_iff. lia.
Qed.

(* ------------------------------------------------------------------ *)
(** ** [_set_in] *)

Module SetInFacts.

Lemma set_in_path_step (p : value) (el next : key) (rest : list key)
  (k : string) (v : value) :
  set_in_path p (el :: next :: rest) k v =
  match getitem (extend_parent p el next) el with
  | Raise e => (extend_parent p el next, Raise e)
  | OK child =>
      let (child', r) := set_in_path child (next :: rest) k v in
      (store_back (extend_parent p el next) el child', r)
  end.
Proof. reflexivity. Qed.

Lemma assign_last_concrete (p : value) (last_key : key) (k : string)
  (v : value) :
  is_concrete v = true ->
  assign_last p last_key k v =
  match p with
  | VDict d =>
      if negb (dict_has key_eqb last_key d)
         || negb (match dict_get key_eqb last_key d with
                  | Some x => _vals_equal x v
                  | None => false
                  end)
      then (VDict (dict_set key_eqb last_key v d), OK true)
      else (p, OK false)
  | VList l =>
      match last_key with
      | KInt i =>
          let l1 := pad_to l i in
          match list_index (length l1) i with
          | Some n =>
              if negb (_vals_equal (nth n l1 VNone) v)
              then (VList (list_update n v l1), OK true)
              else (VList l1, OK false)
          | None => (VList l1, Raise IndexError)
          end
      | KStr _ => (p, OK false)
      end
  | _ => (p, Raise (ValueError_CannotSetElement k))
  end.
Proof. destruct v; simpl; intros H; try discriminate H; reflexivity. Qed.

Lemma none_differs (v : value) :
  is_concrete v = true -> _vals_equal VNone v = false.
Proof. destruct v; simpl; intros H; try discriminate H; reflexivity. Qed.

Lemma extend_parent_id (p : value) (el next : key) :
  nothing_to_extend p el = true -> extend_parent p el next = p.
Proof.
  destruct p as [| |z0|s0| |l|d], el as [s|i]; simpl; intros H;
    try reflexivity; try (now rewrite H).
  apply Z.ltb_lt in H. now rewrite pad_to_in_range.
Qed.

Lemma store_back_getitem_id (p : value) (el : key) (child : value) :
  getitem p el = OK child -> store_back p el child = p.
Proof.
  destruct p as [| |z0|s0| |l|d], el as [s|i]; simpl; intros H;
    try discriminate H; try reflexivity.
  - destruct (list_index (length l) i) as [n|]; [|discriminate H].
    injection H as <-. now rewrite list_update_nth_id.
  - destruct (dict_get key_eqb (KStr s) d) as [x|] eqn:E; [|discriminate H].
    injection H as <-. now rewrite (dict_set_get_id key_eqb _ _ _ E).
  - destruct (dict_get key_eqb (KInt i) d) as [x|] eqn:E; [|discriminate H].
    injection H as <-. now rewrite (dict_set_get_id key_eqb _ _ _ E).
Qed.

(** No change reported: nothing assigned. *)
Lemma assign_last_false (p : value) (last_key : key) (k : string)
  (v p' : value) :
  assign_last p last_key k v = (p', OK false) -> p' = p.
Proof.
  destruct (is_concrete v) eqn:Hv.
  - rewrite (assign_last_concrete _ _ _ _ Hv).
    destruct p as [| |z0|s0| |l|d]; try discriminate.
    + destruct last_key as [s|i]; [now intros [= <-]|].
      cbv zeta.
      destruct (list_index (length (pad_to l i)) i) as [n|] eqn:En;
        [|discriminate].
      destruct (negb (_vals_equal (nth n (pad_to l i) VNone) v)) eqn:Et;
        [discriminate|].
      intros [= <-]. f_equal. apply negb_false_iff in Et.
      destruct (Z.lt_ge_cases i (Z.of_nat (length l))) as [Hlt|Hge].
      * now apply pad_to_in_range.
      * exfalso.
        assert (Hn : n = Z.to_nat i).
        { rewrite list_index_nonneg in En by (rewrite length_pad_to; lia).
          congruence. }
        subst n. rewrite (nth_pad_to_new l i Hge) in Et.
        rewrite (none_differs v Hv) in Et. discriminate Et.
    + destruct (negb (dict_has key_eqb last_key d) || _); [discriminate|].
      now intros [= <-].
  - destruct v; try discriminate Hv; simpl.
    + now intros [= <-].
    + destruct p as [| |z0|s0| |l|d]; try discriminate.
      * destruct last_key as [s|i]; [now intros [= <-]|].
        destruct ((0 <=? i) && (i <? Z.of_nat (length l)));
          [discriminate | now intros [= <-]].
      * destruct (dict_has key_eqb last_key d);
          [discriminate | now intros [= <-]].
Qed.

(** A second assignment of a self-equal concrete value changes nothing. *)
Lemma assign_last_again (p : value) (last_key : key) (k : string)
  (v p' : value) (b : bool) :
  is_concrete v = true -> _vals_equal v v = true ->
  assign_last p last_key k v = (p', OK b) ->
  assign_last p' last_key k v = (p', OK false).
Proof.
  intros Hv Hrefl. rewrite !(assign_last_concrete _ _ _ _ Hv).
  destruct p as [| |z0|s0| |l|d]; try discriminate.
  - destruct last_key as [s|i]; [now intros [= <- _]|].
    cbv zeta.
    destruct (list_index (length (pad_to l i)) i) as [n|] eqn:En;
      [|discriminate].
    pose proof (list_index_lt _ _ _ En) as Hn.
    destruct (negb (_vals_equal (nth n (pad_to l i) VNone) v)) eqn:Et;
      intros [= <- _].
    + assert (Hpad : pad_to (list_update n v (pad_to l i)) i
                     = list_update n v (pad_to l i)).
      { apply pad_to_in_range. rewrite length_list_update, length_pad_to.
        lia. }
      rewrite Hpad, length_list_update, En.
      rewrite (nth_list_update_same _ _ _ _ Hn), Hrefl. reflexivity.
    + rewrite pad_to_twice, En, Et. reflexivity.
  - destruct (negb (dict_has key_eqb last_key d) || _) eqn:Et;
      intros [= <- _].
    + rewrite (dict_has_set_same key_eqb key_eqb_eq).
      rewrite (dict_get_set_same key_eqb key_eqb_eq), Hrefl. reflexivity.
    + now rewrite Et.
Qed.

(** A change reported for a self-equal concrete value is a change. *)
Lemma assign_last_true (p : value) (last_key : key) (k : string)
  (v p' : value) :
  is_concrete v = true -> _vals_equal v v = true ->
  assign_last p last_key k v = (p', OK true) -> p' <> p.
Proof.
  intros Hv Hrefl. rewrite (assign_last_concrete _ _ _ _ Hv).
  destruct p as [| |z0|s0| |l|d]; try discriminate.
  - destruct last_key as [s|i]; [discriminate|].
    cbv zeta.
    destruct (list_index (length (pad_to l i)) i) as [n|] eqn:En;
      [|discriminate].
    pose proof (list_index_lt _ _ _ En) as Hn.
    destruct (negb (_vals_equal (nth n (pad_to l i) VNone) v)) eqn:Et;
      [|discriminate].
    intros [= <-] [= Heq]. apply negb_true_iff in Et.
    assert (Hlen : length (pad_to l i) = length l).
    { rewrite <- Heq at 2. now rewrite length_list_update. }
    assert (Hpad : pad_to l i = l).
    { unfold pad_to in Hlen |- *. rewrite length_app, repeat_length in Hlen.
      replace (Z.to_nat (i + 1 - Z.of_nat (length l))) with O by lia.
      apply app_nil_r. }
    rewrite Hpad in *.
    assert (Hnth : nth n l VNone = v).
    { rewrite <- Heq at 1. now apply nth_list_update_same. }
    rewrite Hnth, Hrefl in Et. discriminate Et.
  - destruct (negb (dict_has key_eqb last_key d) || _) eqn:Et;
      [|discriminate].
    intros [= <-] [= Heq].
    pose proof (dict_get_set_same key_eqb key_eqb_eq last_key v d) as Hg.
    rewrite Heq in Hg. unfold dict_has in Et. rewrite Hg, Hrefl in Et.
    discriminate Et.
Qed.

(** A string is no container: the walk through it ends in an error. *)
Lemma set_in_path_str (path : list key) :
  forall (s k : string) (v : value),
    v <> Undefined ->
    exists p' e, set_in_path (VStr s) path k v = (p', Raise e).
Proof.
  induction path as [|el rest IH]; intros s k v Hv; [simpl; eauto|].
  destruct rest as [|next rest'].
  - simpl. destruct v; try contradiction; simpl; eauto.
  - rewrite set_in_path_step.
    change (extend_parent (VStr s) el next) with (VStr s).
    destruct (getitem (VStr s) el) as [child|e] eqn:Eg; [|eauto].
    destruct el as [t|i]; [discriminate Eg|]. simpl in Eg.
    destruct (list_index (String.length s) i); [|discriminate Eg].
    injection Eg as <-.
    destruct (IH (substring n 1 s) k v Hv) as (p' & e & Hr).
    rewrite Hr. simpl. eauto.
Qed.

Lemma concrete_defined (v : value) : is_concrete v = true -> v <> Undefined.
Proof. intros H ->. discriminate H. Qed.

(** What the second walk finds where the first one stored a child. *)
Lemma walk_again (p1 : value) (el next : key) (child child' : value) :
  getitem p1 el = OK child ->
  (forall s, p1 <> VStr s) ->
  extend_parent (store_back p1 el child') el next = store_back p1 el child'
  /\ getitem (store_back p1 el child') el = OK child'
  /\ store_back (store_back p1 el child') el child'
     = store_back p1 el child'.
Proof.
  intros Hg Hstr.
  destruct p1 as [| |z0|s| |l|d]; try discriminate Hg;
    [now destruct (Hstr s) | |].
  - destruct el as [t|i]; [discriminate Hg|]. simpl in Hg |- *.
    destruct (list_index (length l) i) as [n|] eqn:En; [|discriminate Hg].
    pose proof (list_index_lt _ _ _ En) as Hn.
    simpl. rewrite length_list_update, En.
    rewrite (nth_list_update_same _ _ _ _ Hn), list_update_twice.
    repeat split. f_equal. apply pad_to_in_range.
    rewrite length_list_update.
    unfold list_index in En.
    destruct ((0 <=? i) && (i <? Z.of_nat (length l))) eqn:E1.
    + apply andb_true_iff in E1. lia.
    + destruct ((i <? 0) && (- Z.of_nat (length l) <=? i)) eqn:E2;
        [|discriminate En].
      apply andb_true_iff in E2. lia.
  - assert (Hd : store_back (VDict d) el child'
                 = VDict (dict_set key_eqb el child' d))
      by (destruct el; reflexivity).
    rewrite Hd.
    assert (He : forall d0, extend_parent (VDict d0) el next
               = if dict_has key_eqb el d0 then VDict d0
                 else VDict (dict_set key_eqb el
                               (if is_int next then VList [] else VDict [])
                               d0))
      by (destruct el; reflexivity).
    assert (Hgi : forall d0, getitem (VDict d0) el
               = match dict_get key_eqb el d0 with
                 | Some x => OK x | None => Raise KeyError end)
      by (destruct el; reflexivity).
    assert (Hs : forall d0 c, store_back (VDict d0) el c
               = VDict (dict_set key_eqb el c d0))
      by (destruct el; reflexivity).
    rewrite He, Hgi, Hs.
    rewrite (dict_has_set_same key_eqb key_eqb_eq).
    rewrite (dict_get_set_same key_eqb key_eqb_eq).
    now rewrite (dict_set_set key_eqb key_eqb_eq).
Qed.

Lemma set_in_path_again (path : list key) (k : string) (v : value) :
  is_concrete v = true -> _vals_equal v v = true ->
  forall (p p' : value) (b : bool),
    set_in_path p path k v = (p', OK b) ->
    set_in_path p' path k v = (p', OK false).
Proof.
  intros Hv Hrefl.
  induction path as [|el rest IH]; intros p p' b; [discriminate|].
  destruct rest as [|next rest'].
  - apply assign_last_again; assumption.
  - rewrite set_in_path_step.
    destruct (getitem (extend_parent p el next) el) as [child|e] eqn:Eg;
      [|discriminate].
    destruct (set_in_path child (next :: rest') k v) as [child' r] eqn:Er.
    intros [= <- ->].
    assert (Hstr : forall s, extend_parent p el next <> VStr s).
    { intros s Hs. rewrite Hs in Eg.
      destruct el as [t|i]; [discriminate Eg|]. simpl in Eg.
      destruct (list_index (String.length s) i); [|discriminate Eg].
      injection Eg as <-.
      destruct (set_in_path_str (next :: rest') (substring n 1 s) k v
                  (concrete_defined v Hv)) as (q & e & Hq).
      rewrite Hq in Er. discriminate Er. }
    destruct (walk_again _ el next child child' Eg Hstr) as (H1 & H2 & H3).
    rewrite set_in_path_step, H1, H2, (IH child child' b Er), H3.
    reflexivity.
Qed.

Lemma set_in_path_false (path : list key) (k : string) (v : value) :
  forall (p p' : value),
    final_parent p path <> None ->
    set_in_path p path k v = (p', OK false) -> p' = p.
Proof.
  induction path as [|el rest IH]; intros p p' Hf; [discriminate|].
  destruct rest as [|next rest'].
  - apply assign_last_false.
  - rewrite set_in_path_step. cbn [final_parent] in Hf.
    destruct (nothing_to_extend p el) eqn:En; [|contradiction].
    rewrite (extend_parent_id p el next En).
    destruct (getitem p el) as [child|e] eqn:Eg; [|contradiction].
    destruct (set_in_path child (next :: rest') k v) as [child' r] eqn:Er.
    intros [= <- ->].
    rewrite (IH child child' Hf Er). now apply store_back_getitem_id.
Qed.

Lemma set_in_path_true (path : list key) (k : string) (v : value) :
  is_concrete v = true -> _vals_equal v v = true ->
  forall (p p' : value),
    final_parent p path <> None ->
    set_in_path p path k v = (p', OK true) -> p' <> p.
Proof.
  intros Hv Hrefl.
  induction path as [|el rest IH]; intros p p' Hf; [discriminate|].
  destruct rest as [|next rest'].
  - now apply assign_last_true.
  - rewrite set_in_path_step. cbn [final_parent] in Hf.
    destruct (nothing_to_extend p el) eqn:En; [|contradiction].
    rewrite (extend_parent_id p el next En).
    destruct (getitem p el) as [child|e] eqn:Eg; [|contradiction].
    destruct (set_in_path child (next :: rest') k v) as [child' r] eqn:Er.
    intros [= <- ->] Heq.
    apply (IH child child' Hf Er).
    assert (Hstr : forall s, p <> VStr s).
    { intros s ->.
      destruct el as [t|i]; [discriminate Eg|]. simpl in Eg.
      destruct (list_index (String.length s) i); [|discriminate Eg].
      injection Eg as <-.
      destruct (set_in_path_str (next :: rest') (substring n 1 s) k v
                  (concrete_defined v Hv)) as (q & e & Hq).
      rewrite Hq in Er. discriminate Er. }
    destruct (walk_again p el next child child' Eg Hstr) as (_ & H2 & _).
    rewrite Heq, Eg in H2. congruence.
Qed.

(** The dict handed to [_set_in] is still a dict afterwards. *)
Lemma set_in_path_dict (path : list key) (k : string) (v : value)
  (d : props) :
  exists d', fst (set_in_path (VDict d) path k v) = VDict d'.
Proof.
  destruct path as [|el rest]; [simpl; eauto|].
  destruct rest as [|next rest'].
  - simpl. destruct v; simpl;
      repeat match goal with
             | |- context [if ?c then _ else _] => destruct c
             end; simpl; eauto.
  - rewrite set_in_path_step.
    assert (He : exists d1, extend_parent (VDict d) el next = VDict d1).
    { destruct el; simpl; destruct (dict_has key_eqb _ d); eauto. }
    destruct He as [d1 ->].
    destruct (getitem (VDict d1) el); [|simpl; eauto].
    destruct (set_in_path a (next :: rest') k v).
    destruct el; simpl; eauto.
Qed.

End SetInFacts.

(** Induction over values, through the lists and dicts inside them. *)
Section ValueInduction.
Variable P : value -> Prop.
Hypothesis H_Undefined : P Undefined.
Hypothesis H_None : P VNone.
Hypothesis H_Int : forall z, P (VInt z).
Hypothesis H_Str : forall s, P (VStr s).
Hypothesis H_NaN : P VNaN.
Hypothesis H_List : forall l, Forall P l -> P (VList l).
Hypothesis H_Dict :
  forall d, Forall (fun kv => P (snd kv)) d -> P (VDict d).

Definition value_induction : forall v : value, P v :=
  fix go (v : value) : P v :=
    match v with
    | Undefined => H_Undefined
    | VNone => H_None
    | VInt z => H_Int z
    | VStr s => H_Str s
    | VNaN => H_NaN
    | VList l =>
        H_List l
          ((fix all (l : list value) : Forall P l :=
              match l with
              | [] => Forall_nil P
              | x :: t => Forall_cons x (go x) (all t)
              end) l)
    | VDict d =>
        H_Dict d
          ((fix all (d : list (key * value))
              : Forall (fun kv => P (snd kv)) d :=
              match d with
              | [] => Forall_nil _
              | kv :: t => Forall_cons kv (go (snd kv)) (all t)
              end) d)
    end.
End ValueInduction.

Module ValsEqualFacts.

Lemma dict_get_app_absent (k : key) (pre post : props) :
  existsb (key_eqb k) (map fst pre) = false ->
  dict_get key_eqb k (pre ++ post) = dict_get key_eqb k post.
Proof.
  induction pre as [|[k' x] t IH]; simpl; [reflexivity|].
  intros H. apply orb_false_iff in H as [H1 H2]. now rewrite H1, IH.
Qed.

Lemma keys_equal_refl (d : props) : keys_equal d d = true.
Proof.
  unfold keys_equal.
  assert (H : forallb (fun k => dict_has key_eqb k d) (dict_keys d) = true).
  { apply forallb_forall. intros k Hk.
    now apply (dict_has_in key_eqb key_eqb_eq). }
  now rewrite H.
Qed.

Lemma distinct_keys_app (pre : list key) (k : key) (post : list key) :
  distinct_keys (pre ++ k :: post) = true ->
  existsb (key_eqb k) pre = false /\ distinct_keys (pre ++ post) = true.
Proof.
  induction pre as [|a t IH]; simpl; intros H.
  - apply andb_true_iff in H as [_ H]. now split.
  - apply andb_true_iff in H as [Ha H]. destruct (IH H) as [H1 H2].
    apply negb_true_iff in Ha. rewrite existsb_app in Ha.
    apply orb_false_iff in Ha as [Ha1 Ha2]. simpl in Ha2.
    apply orb_false_iff in Ha2 as [Hak Ha2].
    split.
    + rewrite H1, orb_false_r.
      destruct (key_eqb k a) eqn:E; [|reflexivity].
      apply key_eqb_eq in E. subst a.
      now rewrite (proj2 (key_eqb_eq k k) eq_refl) in Hak.
    + rewrite H2, andb_true_r. apply negb_true_iff.
      rewrite existsb_app. now rewrite Ha1, Ha2.
Qed.

(** Every value without NaN inside is equal to itself. *)
Lemma vals_equal_refl (v : value) :
  nan_free v = true -> _vals_equal v v = true.
Proof.
  induction v as [| |z|s| |l IH|d IH] using value_induction;
    simpl; intros H; try reflexivity; try discriminate H.
  - apply Z.eqb_refl.
  - apply String.eqb_refl.
  - rewrite Nat.eqb_refl. simpl.
    induction IH as [|x t Hx _ IHt]; [reflexivity|].
    simpl in H. apply andb_true_iff in H as [H1 H2].
    now rewrite (Hx H1), (IHt H2).
  - rewrite keys_equal_refl. simpl.
    apply andb_true_iff in H as [Hk Hv].
    assert (G : forall pre post : props,
               d = pre ++ post ->
               (fix all (d0 : list (key * value)) : bool :=
                  match d0 with
                  | [] => true
                  | (_, x) :: t => nan_free x && all t
                  end) post = true ->
               Forall (fun kv => nan_free (snd kv) = true ->
                                 _vals_equal (snd kv) (snd kv) = true) post ->
               (fix all_keys (d0 : list (key * value)) : bool :=
                  match d0 with
                  | [] => true
                  | (k, x) :: t =>
                      match dict_get key_eqb k d with
                      | Some y => _vals_equal x y
                      | None => false
                      end && all_keys t
                  end) post = true).
    { intros pre post. revert pre.
      induction post as [|[k x] t IHt]; intros pre Hd Hn Hf;
        [reflexivity|].
      apply andb_true_iff in Hn as [Hx Ht].
      inversion Hf as [|? ? Hfx Hft]; subst.
      rewrite map_app in Hk. simpl in Hk.
      destruct (distinct_keys_app _ _ _ Hk) as [Habs _].
      rewrite (dict_get_app_absent k pre _ Habs). simpl.
      rewrite (proj2 (key_eqb_eq k k) eq_refl).
      simpl in Hfx. rewrite (Hfx Hx). simpl.
      apply (IHt (pre ++ [(k, x)])); [|exact Ht|exact Hft].
      now rewrite <- app_assoc. }
    apply (G [] d eq_refl Hv IH).
Qed.

End ValsEqualFacts.

(** C3: [_set_in] is to return [True] exactly when it changed the dict.
    The code reports a change that did not happen: [None] written to a
    list slot that already holds [None] returns [True] and leaves the
    dict as it was.  The other branches look before they report: [None]
    for a key that a dict does not have returns [False], and so does a
    concrete value written to a slot that holds it. *)
Theorem set_in_reports_without_change :
  _set_in (VDict [(KStr "x", VList [VNone])]) "x[0]" VNone
  = (VDict [(KStr "x", VList [VNone])], OK true)
  /\ _set_in (VDict [(KStr "x", VList [VNone])]) "y" VNone
     = (VDict [(KStr "x", VList [VNone])], OK false)
  /\ _set_in (VDict [(KStr "x", VList [VInt 1])]) "x[0]" (VInt 1)
     = (VDict [(KStr "x", VList [VInt 1])], OK false).
Proof. repeat split; reflexivity. Qed.

(** A value that is not equal to itself is written, and reported, on
    every call. *)
Example set_in_nan_again :
  _set_in (VDict [(KStr "y", VNaN)]) "y" VNaN
  = (VDict [(KStr "y", VNaN)], OK true).
Proof. reflexivity. Qed.

(** What the report of [_set_in] does tell: when the walk to the last
    container extends and creates nothing, [_set_in] returning [False]
    left the dict as it was, and returning [True] for a concrete value
    that equals itself changed it; and for such a value a second
    [_set_in] with the same arguments returns [False] and leaves the dict
    as the first call left it. *)
Lemma set_in_reports_final_write
  (d : props) (key_path_str : string) (v d' : value) (b : bool) :
  _set_in (VDict d) key_path_str v = (d', OK b) ->
  (final_parent (VDict d) (_str_to_dict_path (Str key_path_str)) <> None ->
   (b = false -> d' = VDict d)
   /\ (b = true -> is_concrete v = true -> _vals_equal v v = true ->
       d' <> VDict d))
  /\ (is_concrete v = true -> _vals_equal v v = true ->
      _set_in d' key_path_str v = (d', OK false)).
Proof.
  unfold _set_in at 1. intros H. split.
  - intros Hf. split.
    + intros ->. exact (SetInFacts.set_in_path_false _ _ _ _ _ Hf H).
    + intros -> Hv Hrefl.
      exact (SetInFacts.set_in_path_true _ _ _ Hv Hrefl _ _ Hf H).
  - intros Hv Hrefl.
    destruct (SetInFacts.set_in_path_dict
                (_str_to_dict_path (Str key_path_str)) key_path_str v d)
      as [d1 Hd1].
    rewrite H in Hd1. simpl in Hd1. subst d'. unfold _set_in.
    exact (SetInFacts.set_in_path_again _ _ _ Hv Hrefl _ _ _ H).
Qed.

(** C7: [_set_prop] returns at once on [Undefined], and [_set_in] reports
    no change, but on a path whose containers are missing [_set_in] has
    created them before it looks at the value: the dict is altered. *)
Theorem set_in_undefined_creates_containers :
  _set_in (VDict []) "marker.color" Undefined
  = (VDict [(KStr "marker", VDict [])], OK false)
  /\ _set_in (VDict [(KStr "x", VList [])]) "x[1].y" Undefined
     = (VDict [(KStr "x", VList [VNone; VNone])], OK false).
Proof. split; reflexivity. Qed.

(** [Undefined] never makes [_set_in] report a change, and where nothing
    has to be created on the way it leaves the dict alone. *)
Lemma set_in_undefined_reports_nothing (d : props) (key_path_str : string)
  (d' : value) (r : res bool) :
  _set_in (VDict d) key_path_str Undefined = (d', r) ->
  r <> OK true
  /\ (final_parent (VDict d) (_str_to_dict_path (Str key_path_str)) <> None ->
      r = OK false /\ d' = VDict d).
Proof.
  unfold _set_in.
  assert (G : forall path p p' r0,
             set_in_path p path key_path_str Undefined = (p', r0) ->
             r0 <> OK true /\ (final_parent p path <> None -> r0 = OK false)).
  { induction path as [|el rest IH]; intros p p' r0.
    - simpl. intros [= <- <-]. split; [discriminate | contradiction].
    - destruct rest as [|next rest'].
      + simpl. intros [= <- <-]. split; [discriminate | reflexivity].
      + rewrite SetInFacts.set_in_path_step. cbn [final_parent].
        destruct (getitem (extend_parent p el next) el) as [child|e] eqn:Eg.
        * destruct (set_in_path child (next :: rest') key_path_str Undefined)
            as [child' r1] eqn:Er.
          intros [= <- <-]. destruct (IH _ _ _ Er) as [H1 H2].
          split; [exact H1|].
          destruct (nothing_to_extend p el) eqn:En; [|contradiction].
          rewrite (SetInFacts.extend_parent_id p el next En) in Eg.
          rewrite Eg. exact H2.
        * intros [= <- <-]. split; [discriminate|].
          destruct (nothing_to_extend p el) eqn:En; [|contradiction].
          rewrite (SetInFacts.extend_parent_id p el next En) in Eg.
          rewrite Eg. contradiction. }
  intros H. destruct (G _ _ _ _ H) as [H1 H2]. split; [exact H1|].
  intros Hf. specialize (H2 Hf). subst r. split; [reflexivity|].
  exact (SetInFacts.set_in_path_false _ _ _ _ _ Hf H).
Qed.

(* ------------------------------------------------------------------ *)
(** ** Restyle *)

Ltac munfold :=
  unfold bind, ret, get, raise, lift, modify in *.

Section RestyleFacts.
Context {V : Validators}.

(** [f'] is [f] with other trace properties, as many as before. *)
Definition only_data (f f' : Figure) : Prop :=
  f' = with_data (_data f') f /\ length (_data f') = length (_data f).

Lemma only_data_refl (f : Figure) : only_data f f.
Proof. split; [now destruct f | reflexivity]. Qed.

Lemma only_data_trans (f g h : Figure) :
  only_data f g -> only_data g h -> only_data f h.
Proof.
  intros [H1 L1] [H2 L2]. split; [|congruence].
  rewrite H2 at 1. rewrite H1. reflexivity.
Qed.

Lemma set_in_trace_only_data (t : Z) (k : string) (v : value)
  (f f' : Figure) (r : res bool) :
  set_in_trace t k v f = (f', r) -> only_data f f'.
Proof.
  unfold set_in_trace.
  destruct (list_index (length (_data f)) t) as [n|].
  - destruct (set_in_props (nth n (_data f) []) k v) as [d' r'].
    intros [= <- _]. split; [reflexivity|]. simpl.
    apply length_list_update.
  - intros [= <- _]. apply only_data_refl.
Qed.

Lemma data_getitem_state (t : Z) (f f' : Figure) (r : res nat) :
  data_getitem t f = (f', r) -> f' = f.
Proof.
  unfold data_getitem.
  destruct (list_index (length (_data_objs f)) t); now intros [= <- _].
Qed.

(** One turn of the loop over the targeted traces. *)
Lemma restyle_traces_cons (k : string) (v : value) (i : nat) (t : Z)
  (rest : list Z) (any : bool) (f : Figure) :
  restyle_traces k v i (t :: rest) any f =
  if t >=? Z.of_nat (length (_data f))
  then (f, Raise (ValueError_TraceIndexOutOfRange t))
  else
    match trace_value v i with
    | Raise e => (f, Raise e)
    | OK Undefined => restyle_traces k v (S i) rest any f
    | OK trace_v =>
        match data_getitem t f with
        | (f1, Raise e) => (f1, Raise e)
        | (f1, OK trace_obj) =>
            if negb (_is_key_path_compatible k (trace_contains trace_obj))
            then (f1, Raise (ValueError_InvalidPropertyPath k))
            else
              match set_in_trace t k trace_v f1 with
              | (f2, Raise e) => (f2, Raise e)
              | (f2, OK val_changed) =>
                  restyle_traces k v (S i) rest (any || val_changed) f2
              end
        end
    end.
Proof.
  cbn [restyle_traces]. munfold.
  destruct (t >=? Z.of_nat (length (_data f))); [reflexivity|].
  destruct (trace_value v i) as [[]|]; try reflexivity;
    destruct (data_getitem t f) as [f1 [obj|e]]; try reflexivity;
    destruct (negb _); reflexivity.
Qed.

Lemma restyle_traces_only_data (k : string) (v : value)
  (idxs : list Z) :
  forall (i : nat) (any : bool) (f f' : Figure) (r : res bool),
    restyle_traces k v i idxs any f = (f', r) -> only_data f f'.
Proof.
  induction idxs as [|t rest IH]; intros i any f f' r.
  - cbn. munfold. intros [= <- _]. apply only_data_refl.
  - rewrite restyle_traces_cons.
    destruct (t >=? Z.of_nat (length (_data f)));
      [intros [= <- _]; apply only_data_refl|].
    destruct (trace_value v i) as [tv|e];
      [|intros [= <- _]; apply only_data_refl].
    assert (G : match data_getitem t f with
                | (f1, Raise e) => (f1, Raise e)
                | (f1, OK trace_obj) =>
                    if negb (_is_key_path_compatible k
                               (trace_contains trace_obj))
                    then (f1, Raise (ValueError_InvalidPropertyPath k))
                    else
                      match set_in_trace t k tv f1 with
                      | (f2, Raise e) => (f2, Raise e)
                      | (f2, OK val_changed) =>
                          restyle_traces k v (S i) rest
                                         (any || val_changed) f2
                      end
                end = (f', r) -> only_data f f').
    { destruct (data_getitem t f) as [f1 [obj|e]] eqn:Ed;
        pose proof (data_getitem_state _ _ _ _ Ed) as ->;
        [|intros [= <- _]; apply only_data_refl].
      destruct (negb _); [intros [= <- _]; apply only_data_refl|].
      destruct (set_in_trace t k tv f) as [f2 [b|e]] eqn:Es;
        pose proof (set_in_trace_only_data _ _ _ _ _ _ Es) as Hs.
      - intros H. apply (only_data_trans _ _ _ Hs). exact (IH _ _ _ _ _ H).
      - now intros [= <- _]. }
    destruct tv; try exact G. apply IH.
Qed.

Lemma restyle_traces_app (k : string) (v : value) (pre suf : list Z) :
  forall (i : nat) (any : bool) (f : Figure),
    restyle_traces k v i (pre ++ suf) any f =
    match restyle_traces k v i pre any f with
    | (f1, OK any1) => restyle_traces k v (i + length pre) suf any1 f1
    | (f1, Raise e) => (f1, Raise e)
    end.
Proof.
  induction pre as [|t rest IH]; intros i any f.
  - cbn [app restyle_traces length]. munfold.
    now rewrite Nat.add_0_r.
  - cbn [app length]. rewrite !restyle_traces_cons.
    replace (i + S (length rest))%nat with (S i + length rest)%nat by lia.
    destruct (t >=? Z.of_nat (length (_data f))); [reflexivity|].
    destruct (trace_value v i) as [tv|e]; [|reflexivity].
    assert (G : forall tv0,
      match data_getitem t f with
      | (f1, Raise e) => (f1, Raise e)
      | (f1, OK trace_obj) =>
          if negb (_is_key_path_compatible k (trace_contains trace_obj))
          then (f1, Raise (ValueError_InvalidPropertyPath k))
          else
            match set_in_trace t k tv0 f1 with
            | (f2, Raise e) => (f2, Raise e)
            | (f2, OK val_changed) =>
                restyle_traces k v (S i) (rest ++ suf)
                               (any || val_changed) f2
            end
      end =
      match
        match data_getitem t f with
        | (f1, Raise e) => (f1, Raise e)
        | (f1, OK trace_obj) =>
            if negb (_is_key_path_compatible k (trace_contains trace_obj))
            then (f1, Raise (ValueError_InvalidPropertyPath k))
            else
              match set_in_trace t k tv0 f1 with
              | (f2, Raise e) => (f2, Raise e)
              | (f2, OK val_changed) =>
                  restyle_traces k v (S i) rest (any || val_changed) f2
              end
        end
      with
      | (f1, OK any1) =>
          restyle_traces k v (S i + length rest) suf any1 f1
      | (f1, Raise e) => (f1, Raise e)
      end).
    { intros tv0. destruct (data_getitem t f) as [f1 [obj|e]];
        [|reflexivity].
      destruct (negb _); [reflexivity|].
      destruct (set_in_trace t k tv0 f1) as [f2 [b|e]]; [|reflexivity].
      apply IH. }
    destruct tv; try apply G. apply IH.
Qed.

(** The loop over the keys, one key at a time. *)
Lemma restyle_keys_cons (k : string) (v : value) (rest : edits)
  (idxs : list Z) (changes : edits) (f : Figure) :
  restyle_keys ((k, v) :: rest) idxs changes f =
  match restyle_traces k v 0 idxs false f with
  | (f1, OK any) =>
      restyle_keys rest idxs
        (if any then dict_set String.eqb k v changes else changes) f1
  | (f1, Raise e) => (f1, Raise e)
  end.
Proof. reflexivity. Qed.

Lemma restyle_keys_only_data (rd : edits) (idxs : list Z) :
  forall (changes : edits) (f f' : Figure) (r : res edits),
    restyle_keys rd idxs changes f = (f', r) -> only_data f f'.
Proof.
  induction rd as [|[k v] rest IH]; intros changes f f' r.
  - cbn. munfold. intros [= <- _]. apply only_data_refl.
  - rewrite restyle_keys_cons.
    destruct (restyle_traces k v 0 idxs false f) as [f1 [any|e]] eqn:E;
      pose proof (restyle_traces_only_data _ _ _ _ _ _ _ _ E) as H1.
    + intros H. apply (only_data_trans _ _ _ H1). exact (IH _ _ _ _ H).
    + now intros [= <- _].
Qed.

(** An index out of range stops the loop of the key being processed. *)
Lemma restyle_traces_out_of_range (k : string) (v : value)
  (pre : list Z) (t : Z) (post : list Z) (f f1 : Figure) (b : bool) :
  restyle_traces k v 0 pre false f = (f1, OK b) ->
  Z.of_nat (length (_data f)) <= t ->
  restyle_traces k v 0 (pre ++ t :: post) false f
  = (f1, Raise (ValueError_TraceIndexOutOfRange t)).
Proof.
  intros Hpre Ht. rewrite restyle_traces_app, Hpre, restyle_traces_cons.
  destruct (restyle_traces_only_data _ _ _ _ _ _ _ _ Hpre) as [_ Hlen].
  rewrite Hlen.
  destruct (t >=? Z.of_nat (length (_data f))) eqn:E; [reflexivity|].
  rewrite Z.geb_leb in E. apply Z.leb_gt in E. lia.
Qed.

(** With an index out of range among the targeted traces, the loop of a
    key never runs to its end. *)
Lemma restyle_traces_never_completes (k : string) (v : value)
  (idxs : list Z) (t : Z) :
  In t idxs ->
  forall (i : nat) (any : bool) (f f' : Figure) (b : bool),
    Z.of_nat (length (_data f)) <= t ->
    restyle_traces k v i idxs any f <> (f', OK b).
Proof.
  intros Hin. apply in_split in Hin as (pre & post & ->).
  intros i any f f' b Ht. rewrite restyle_traces_app.
  destruct (restyle_traces k v i pre any f) as [f1 [any1|e]] eqn:E;
    [|discriminate].
  destruct (restyle_traces_only_data _ _ _ _ _ _ _ _ E) as [_ Hlen].
  rewrite restyle_traces_cons, Hlen.
  destruct (t >=? Z.of_nat (length (_data f))) eqn:E1; [discriminate|].
  rewrite Z.geb_leb in E1. apply Z.leb_gt in E1. lia.
Qed.

End RestyleFacts.

(** No key's loop over the targeted traces runs to its end when one of
    them is out of range: the error is raised while the first key is
    processed. *)
Lemma no_key_completes_before_out_of_range :
  ~ exists (V : Validators) (f f1 : Figure) (k : string) (v : value)
           (idxs : list Z) (t : Z) (b : bool),
      In t idxs /\ Z.of_nat (length (_data f)) <= t
      /\ restyle_traces k v 0 idxs false f = (f1, OK b).
Proof.
  intros (V & f & f1 & k & v & idxs & t & b & Hin & Ht & H).
  exact (restyle_traces_never_completes k v idxs t Hin 0%nat false f f1 b
           Ht H).
Qed.

(** C10: when a targeted trace index is not below the number of traces,
    [plotly_restyle] with a non-empty edit dict raises the out-of-range
    ValueError when the loop reaches that index, whatever value was meant
    for that trace, also [Undefined]; no message is sent, and the figure
    keeps the edits already made to the traces before that index. *)
Theorem restyle_index_out_of_range {V : Validators}
  (key_path_str : string) (v : value) (later : edits)
  (pre : list Z) (t : Z) (post : list Z) (source_view_id : option string)
  (f f1 : Figure) (b : bool) :
  restyle_traces key_path_str v 0 pre false f = (f1, OK b) ->
  Z.of_nat (length (_data f)) <= t ->
  plotly_restyle ((key_path_str, v) :: later) (TI_List (pre ++ t :: post))
                 source_view_id f
  = (f1, Raise (ValueError_TraceIndexOutOfRange t))
  /\ log f1 = log f.
Proof.
  intros Hpre Ht. split.
  - unfold plotly_restyle, _normalize_trace_indexes, _perform_plotly_restyle.
    munfold. rewrite restyle_keys_cons.
    now rewrite (restyle_traces_out_of_range _ _ _ _ _ _ _ _ Hpre Ht).
  - destruct (restyle_traces_only_data _ _ _ _ _ _ _ _ Hpre) as [-> _].
    reflexivity.
Qed.

(** The value meant for trace 5 is [Undefined]; the error is raised all
    the same, and trace 0 keeps its new [x]. *)
Lemma restyle_index_out_of_range_witness :
  let f := @new_figure any_schema
             [[(KStr "uid", VStr "a")]; [(KStr "uid", VStr "b")]] [] in
  let f1 := @new_figure any_schema
              [[(KStr "uid", VStr "a"); (KStr "x", VInt 1)];
               [(KStr "uid", VStr "b")]] [] in
  plotly_restyle [("x", VList [VInt 1; Undefined]); ("y", VInt 2)]
                 (TI_List [0; 5]) None f
  = (f1, Raise (ValueError_TraceIndexOutOfRange 5))
  /\ log f1 = log f.
Proof.
  cbv zeta.
  apply (@restyle_index_out_of_range any_schema "x"
           (VList [VInt 1; Undefined]) [("y", VInt 2)] [0] 5 [] None
           (@new_figure any_schema
              [[(KStr "uid", VStr "a")]; [(KStr "uid", VStr "b")]] [])
           (@new_figure any_schema
              [[(KStr "uid", VStr "a"); (KStr "x", VInt 1)];
               [(KStr "uid", VStr "b")]] [])
           true).
  - reflexivity.
  - simpl. lia.
Defined.

Section RestyleSemantics.
Context {V : Validators}.

Lemma set_in_trace_in_range (t : Z) (k : string) (v : value)
  (f : Figure) :
  0 <= t < Z.of_nat (length (_data f)) ->
  set_in_trace t k v f =
  (with_data (list_update (Z.to_nat t)
                (fst (set_in_props (nth (Z.to_nat t) (_data f) []) k v))
                (_data f)) f,
   snd (set_in_props (nth (Z.to_nat t) (_data f) []) k v)).
Proof.
  intros H. unfold set_in_trace. rewrite (list_index_nonneg _ _ H).
  now destruct (set_in_props (nth (Z.to_nat t) (_data f) []) k v).
Qed.

(** What one key does to distinct, non-negative targeted traces, from
    position [i] of the enumeration on. *)
Lemma restyle_traces_pointwise (k : string) (v : value) (idxs : list Z) :
  NoDup idxs -> Forall (fun t => 0 <= t) idxs ->
  forall (i : nat) (any : bool) (f f' : Figure) (b : bool),
    restyle_traces k v i idxs any f = (f', OK b) ->
    (forall j t, nth_error idxs j = Some t ->
       exists trace_v,
         trace_value v (i + j) = OK trace_v
         /\ nth (Z.to_nat t) (_data f') []
            = match trace_v with
              | Undefined => nth (Z.to_nat t) (_data f) []
              | _ => fst (set_in_props (nth (Z.to_nat t) (_data f) [])
                                       k trace_v)
              end)
    /\ (forall n, ~ In (Z.of_nat n) idxs ->
          nth n (_data f') [] = nth n (_data f) [])
    /\ (b = true <->
        any = true
        \/ exists j t trace_v,
             nth_error idxs j = Some t
             /\ trace_value v (i + j) = OK trace_v
             /\ trace_v <> Undefined
             /\ snd (set_in_props (nth (Z.to_nat t) (_data f) [])
                                  k trace_v) = OK true).
Proof.
  intros Hnd Hpos. induction idxs as [|t rest IH]; intros i any f f' b.
  - cbn. munfold. intros [= <- <-]. repeat split.
    + intros [|j] t H; discriminate H.
    + now left.
    + intros [H|(j & t & tv & H & _)]; [exact H|].
      destruct j; discriminate H.
  - inversion Hnd as [|? ? Hnotin Hnd']; subst.
    inversion Hpos as [|? ? Ht Hpos']; subst.
    specialize (IH Hnd' Hpos').
    rewrite restyle_traces_cons.
    destruct (t >=? Z.of_nat (length (_data f))) eqn:Erange; [discriminate|].
    rewrite Z.geb_leb in Erange. apply Z.leb_gt in Erange.
    destruct (trace_value v i) as [tv|e] eqn:Etv; [|discriminate].
    assert (Hnat : forall n, In (Z.of_nat n) rest -> n <> Z.to_nat t).
    { intros n Hin ->. apply Hnotin. now rewrite Z2Nat.id in Hin. }
    assert (Hskip :
      restyle_traces k v (S i) rest any f = (f', OK b) ->
      tv = Undefined ->
      (forall j t0, nth_error (t :: rest) j = Some t0 ->
         exists trace_v,
           trace_value v (i + j) = OK trace_v
           /\ nth (Z.to_nat t0) (_data f') []
              = match trace_v with
                | Undefined => nth (Z.to_nat t0) (_data f) []
                | _ => fst (set_in_props (nth (Z.to_nat t0) (_data f) [])
                                         k trace_v)
                end)
      /\ (forall n, ~ In (Z.of_nat n) (t :: rest) ->
            nth n (_data f') [] = nth n (_data f) [])
      /\ (b = true <->
          any = true
          \/ exists j t0 trace_v,
               nth_error (t :: rest) j = Some t0
               /\ trace_value v (i + j) = OK trace_v
               /\ trace_v <> Undefined
               /\ snd (set_in_props (nth (Z.to_nat t0) (_data f) [])
                                    k trace_v) = OK true)).
    { intros H ->. destruct (IH _ _ _ _ _ H) as (I1 & I2 & I3).
      split; [|split].
      - intros [|j] t0 Hj.
        + injection Hj as <-. exists Undefined.
          rewrite Nat.add_0_r. split; [exact Etv|].
          apply I2. rewrite Z2Nat.id by lia. exact Hnotin.
        + replace (i + S j)%nat with (S i + j)%nat by lia.
          exact (I1 j t0 Hj).
      - intros n Hn. apply I2. intros Hin. apply Hn. now right.
      - rewrite I3. split.
        + intros [Ha|(j & t0 & tv & Hj & Hv & Hu & Hs)]; [now left|].
          right. exists (S j), t0, tv.
          replace (i + S j)%nat with (S i + j)%nat by lia. auto.
        + intros [Ha|(j & t0 & tv & Hj & Hv & Hu & Hs)]; [now left|].
          destruct j as [|j].
          * injection Hj as <-. rewrite Nat.add_0_r, Etv in Hv.
            injection Hv as <-. contradiction.
          * right. exists j, t0, tv.
            replace (S i + j)%nat with (i + S j)%nat by lia. auto. }
    assert (Hset :
      tv <> Undefined ->
      match data_getitem t f with
      | (f1, Raise e) => (f1, Raise e)
      | (f1, OK trace_obj) =>
          if negb (_is_key_path_compatible k (trace_contains trace_obj))
          then (f1, Raise (ValueError_InvalidPropertyPath k))
          else
            match set_in_trace t k tv f1 with
            | (f2, Raise e) => (f2, Raise e)
            | (f2, OK val_changed) =>
                restyle_traces k v (S i) rest (any || val_changed) f2
            end
      end = (f', OK b) ->
      (forall j t0, nth_error (t :: rest) j = Some t0 ->
         exists trace_v,
           trace_value v (i + j) = OK trace_v
           /\ nth (Z.to_nat t0) (_data f') []
              = match trace_v with
                | Undefined => nth (Z.to_nat t0) (_data f) []
                | _ => fst (set_in_props (nth (Z.to_nat t0) (_data f) [])
                                         k trace_v)
                end)
      /\ (forall n, ~ In (Z.of_nat n) (t :: rest) ->
            nth n (_data f') [] = nth n (_data f) [])
      /\ (b = true <->
          any = true
          \/ exists j t0 trace_v,
               nth_error (t :: rest) j = Some t0
               /\ trace_value v (i + j) = OK trace_v
               /\ trace_v <> Undefined
               /\ snd (set_in_props (nth (Z.to_nat t0) (_data f) [])
                                    k trace_v) = OK true)).
    { intros Hdef.
      destruct (data_getitem t f) as [f1 [obj|e]] eqn:Ed;
        pose proof (data_getitem_state _ _ _ _ Ed) as ->; [|discriminate].
      destruct (negb _); [discriminate|].
      rewrite (set_in_trace_in_range t k tv f (conj Ht Erange)).
      set (d' := fst (set_in_props (nth (Z.to_nat t) (_data f) []) k tv)).
      destruct (snd (set_in_props (nth (Z.to_nat t) (_data f) []) k tv))
        as [vc|e] eqn:Es; [|discriminate].
      intros H. destruct (IH _ _ _ _ _ H) as (I1 & I2 & I3).
      cbn [_data with_data] in I1, I2, I3.
      assert (Hother : forall n, n <> Z.to_nat t ->
                nth n (list_update (Z.to_nat t) d' (_data f)) []
                = nth n (_data f) []).
      { intros n Hn. apply nth_list_update_other. congruence. }
      assert (Hin_rest : forall j t0, nth_error rest j = Some t0 ->
                Z.to_nat t0 <> Z.to_nat t).
      { intros j t0 Hj. apply Hnat. apply nth_error_In in Hj.
        rewrite Z2Nat.id; [exact Hj|].
        rewrite Forall_forall in Hpos'. now apply Hpos'. }
      split; [|split].
      - intros [|j] t0 Hj.
        + injection Hj as <-. exists tv. rewrite Nat.add_0_r.
          split; [exact Etv|].
          rewrite I2 by (rewrite Z2Nat.id by lia; exact Hnotin).
          rewrite nth_list_update_same by lia.
          destruct tv; try reflexivity. contradiction.
        + replace (i + S j)%nat with (S i + j)%nat by lia.
          destruct (I1 j t0 Hj) as (tv0 & Hv0 & Hd0).
          exists tv0. split; [exact Hv0|].
          rewrite Hd0, (Hother _ (Hin_rest j t0 Hj)). reflexivity.
      - intros n Hn. rewrite I2 by (intros Hin; apply Hn; now right).
        apply Hother. intros ->. apply Hn. left.
        now rewrite Z2Nat.id by lia.
      - rewrite I3. split.
        + intros [Ha|(j & t0 & tv0 & Hj & Hv & Hu & Hs)].
          * apply orb_true_iff in Ha as [Ha|Ha]; [now left|].
            right. exists 0%nat, t, tv. rewrite Nat.add_0_r.
            subst vc. auto.
          * right. exists (S j), t0, tv0.
            replace (i + S j)%nat with (S i + j)%nat by lia.
            rewrite (Hother _ (Hin_rest j t0 Hj)) in Hs. auto.
        + intros [Ha|(j & t0 & tv0 & Hj & Hv & Hu & Hs)].
          * left. now rewrite Ha.
          * destruct j as [|j].
            -- injection Hj as <-. rewrite Nat.add_0_r, Etv in Hv.
               injection Hv as <-. left.
               rewrite Es in Hs. injection Hs as ->. apply orb_true_r.
            -- right. exists j, t0, tv0.
               replace (S i + j)%nat with (i + S j)%nat by lia.
               rewrite (Hother _ (Hin_rest j t0 Hj)). auto. }
    destruct tv; try (apply Hset; discriminate).
    intros H. now apply Hskip.
Qed.

(** The changeset: the keys whose loop over the traces reported a
    change, in the state the keys before them had left. *)
Lemma restyle_keys_changes (idxs : list Z) (rd : edits) :
  NoDup (dict_keys rd) ->
  forall (acc : edits) (f f' : Figure) (changes : edits),
    (forall k, In k (dict_keys rd) -> dict_get String.eqb k acc = None) ->
    restyle_keys rd idxs acc f = (f', OK changes) ->
    forall k v,
      dict_get String.eqb k changes = Some v <->
      dict_get String.eqb k acc = Some v
      \/ exists pre post f0 f1 c0,
           rd = pre ++ (k, v) :: post
           /\ restyle_keys pre idxs acc f = (f0, OK c0)
           /\ restyle_traces k v 0 idxs false f0 = (f1, OK true).
Proof.
  induction rd as [|[k1 v1] rest IH]; intros Hnd acc f f' changes Hacc.
  - cbn. munfold. intros [= <- <-] k v. split; [now left|].
    intros [H|(pre & post & f0 & f1 & c0 & H & _)]; [exact H|].
    destruct pre; discriminate H.
  - cbn [dict_keys map fst] in Hnd. inversion Hnd as [|? ? Hk1 Hnd']; subst.
    rewrite restyle_keys_cons.
    destruct (restyle_traces k1 v1 0 idxs false f) as [f1 [any|e]] eqn:E1;
      [|discriminate].
    set (acc1 := if any then dict_set String.eqb k1 v1 acc else acc).
    intros H k v.
    assert (Hacc1 : forall k0, In k0 (dict_keys rest) ->
              dict_get String.eqb k0 acc1 = None).
    { intros k0 Hin. unfold acc1. destruct any.
      - rewrite (dict_get_set_other String.eqb String.eqb_eq).
        + apply Hacc. now right.
        + apply String.eqb_neq. intros ->. now apply Hk1.
      - apply Hacc. now right. }
    rewrite (IH Hnd' acc1 f1 f' changes Hacc1 H k v). split.
    + intros [Hg|(pre & post & f0 & f2 & c0 & Hrd & Hpre & Hk)].
      * destruct (String.eqb k k1) eqn:Ek.
        -- apply String.eqb_eq in Ek. subst k1. unfold acc1 in Hg.
           destruct any.
           ++ rewrite (dict_get_set_same String.eqb String.eqb_eq) in Hg.
              injection Hg as <-. right.
              exists [], rest, f, f1, acc. repeat split. exact E1.
           ++ rewrite Hacc in Hg by now left. discriminate Hg.
        -- left. unfold acc1 in Hg. destruct any; [|exact Hg].
           now rewrite (dict_get_set_other String.eqb String.eqb_eq)
             in Hg.
      * right. exists ((k1, v1) :: pre), post, f0, f2, c0.
        repeat split; [now rewrite Hrd | | exact Hk].
        rewrite restyle_keys_cons, E1. exact Hpre.
    + intros [Hg|(pre & post & f0 & f2 & c0 & Hrd & Hpre & Hk)].
      * left. unfold acc1. destruct any; [|exact Hg].
        rewrite (dict_get_set_other String.eqb String.eqb_eq); [exact Hg|].
        apply String.eqb_neq. intros ->.
        rewrite Hacc in Hg by now left. discriminate Hg.
      * destruct pre as [|[k2 v2] pre'].
        -- injection Hrd as -> -> ->. cbn in Hpre. munfold.
           injection Hpre as <- <-. rewrite E1 in Hk.
           injection Hk as <- ->. left. unfold acc1.
           apply (dict_get_set_same String.eqb String.eqb_eq).
        -- injection Hrd as -> -> ->. right.
           rewrite restyle_keys_cons, E1 in Hpre.
           exists pre', post, f0, f2, c0. auto.
Qed.

End RestyleSemantics.

(** C4: the changeset of a restyle is to hold exactly the keys for which
    the data of a targeted trace changed.  The code puts a key into the
    changeset, sends the restyle message and dispatches the callbacks
    although no trace has changed: the changeset follows what [_set_in]
    reports, and [_set_in] reports a change when it writes [None] to a
    list slot that holds [None] already. *)
Theorem restyle_changeset_without_change :
  let f := @new_figure any_schema
             [[(KStr "uid", VStr "a"); (KStr "x", VList [VNone])]] [] in
  exists f',
    plotly_restyle [("x[0]", VNone)] TI_None None f = (f', OK tt)
    /\ _data f' = _data f
    /\ map fst (log f')
       = [@Send_restyle any_schema [("x[0]", VNone)] (TI_List [0]) None;
          @Dispatch_trace_change_callbacks any_schema [("x[0]", VNone)]
            [0]].
Proof.
  cbv zeta. eexists. split; [cbv; reflexivity|]. split; reflexivity.
Qed.

(** What a restyle does: the trace indexes default to all traces in
    order; a key gives the trace at position [i] of distinct,
    non-negative indexes the edit value itself, or element [i mod len] of
    an edit value that is a list, through [_set_in] (nothing for
    [Undefined]) and touches no other trace; and the changeset holds,
    with their edit values, exactly the keys for which [_set_in] reported
    a change on a targeted trace. *)
Lemma restyle_semantics {V : Validators} :
  (forall f : Figure,
     _normalize_trace_indexes TI_None f
     = (f, OK (map Z.of_nat (seq 0 (length (_data_objs f))))))
  /\ (forall (v : value) (i : nat),
        trace_value v i =
        match v with
        | VList [] => Raise ZeroDivisionError
        | VList l => OK (nth (Nat.modulo i (length l)) l VNone)
        | _ => OK v
        end)
  /\ (forall (k : string) (v : value) (idxs : list Z)
             (f f' : Figure) (b : bool),
        NoDup idxs -> Forall (fun t => 0 <= t) idxs ->
        restyle_traces k v 0 idxs false f = (f', OK b) ->
        (forall i t, nth_error idxs i = Some t ->
           exists trace_v,
             trace_value v i = OK trace_v
             /\ nth (Z.to_nat t) (_data f') []
                = match trace_v with
                  | Undefined => nth (Z.to_nat t) (_data f) []
                  | _ => fst (set_in_props (nth (Z.to_nat t) (_data f) [])
                                           k trace_v)
                  end)
        /\ (forall n, ~ In (Z.of_nat n) idxs ->
              nth n (_data f') [] = nth n (_data f) [])
        /\ (b = true <->
            exists i t trace_v,
              nth_error idxs i = Some t
              /\ trace_value v i = OK trace_v
              /\ trace_v <> Undefined
              /\ snd (set_in_props (nth (Z.to_nat t) (_data f) [])
                                   k trace_v) = OK true))
  /\ (forall (restyle_data : edits) (idxs : list Z) (f f' : Figure)
             (restyle_changes : edits),
        NoDup (dict_keys restyle_data) ->
        _perform_plotly_restyle restyle_data idxs f
        = (f', OK restyle_changes) ->
        forall k v,
          dict_get String.eqb k restyle_changes = Some v <->
          exists pre post f0 f1 c0,
            restyle_data = pre ++ (k, v) :: post
            /\ _perform_plotly_restyle pre idxs f = (f0, OK c0)
            /\ restyle_traces k v 0 idxs false f0 = (f1, OK true)).
Proof.
  split; [|split; [|split]].
  - reflexivity.
  - intros v i. destruct v as [| | | | |[|x l]|]; reflexivity.
  - intros k v idxs f f' b Hnd Hpos H.
    destruct (restyle_traces_pointwise k v idxs Hnd Hpos 0%nat false
                f f' b H) as (H1 & H2 & H3).
    split; [exact H1|]. split; [exact H2|].
    rewrite H3. split.
    + intros [Hf|He]; [discriminate Hf | exact He].
    + intros He. now right.
  - intros rd idxs f f' changes Hnd H k v.
    unfold _perform_plotly_restyle in *.
    rewrite (restyle_keys_changes idxs rd Hnd [] f f' changes
               (fun _ _ => eq_refl) H k v).
    split.
    + intros [Hf|He]; [discriminate Hf | exact He].
    + intros He. now right.
Qed.


(* ------------------------------------------------------------------ *)
(** ** The log and the dispatch of change callbacks *)

Section LogFacts.
Context {V : Validators}.

Lemma logged_nil (f : Figure) : logged f [] = f.
Proof. unfold logged. simpl. rewrite app_nil_r. now destruct f. Qed.

Lemma logged_app (f : Figure) (a b : list event) :
  logged (logged f a) b = logged f (a ++ b).
Proof.
  unfold logged, with_log. simpl.
  now rewrite map_app, app_assoc.
Qed.

Lemma emit_logged (ev : event) (f : Figure) :
  emit ev f = (logged f [ev], OK tt).
Proof. reflexivity. Qed.

Lemma for_each_nil {A : Type} (g : A -> M Figure unit) (f : Figure) :
  for_each [] g f = (f, OK tt).
Proof. reflexivity. Qed.

Lemma for_each_cons {A : Type} (g : A -> M Figure unit) (a : A)
  (l : list A) (f : Figure) :
  for_each (a :: l) g f =
  match g a f with
  | (f1, OK _) => for_each l g f1
  | (f1, Raise e) => (f1, Raise e)
  end.
Proof. reflexivity. Qed.

(** A loop whose turns only record events only records events. *)
Lemma for_each_logged {A : Type} (g : A -> M Figure unit)
  (evs : A -> list event) (f : Figure) (l : list A) :
  (forall a done, In a l ->
     g a (logged f done) = (logged f (done ++ evs a), OK tt)) ->
  forall done,
    for_each l g (logged f done)
    = (logged f (done ++ flat_map evs l), OK tt).
Proof.
  induction l as [|a l IH]; intros Hg done.
  - rewrite for_each_nil. simpl. now rewrite app_nil_r.
  - rewrite for_each_cons, (Hg a done (or_introl eq_refl)).
    rewrite IH by (intros a0 d0 Hin; apply Hg; now right).
    simpl. now rewrite app_assoc.
Qed.

Lemma for_each_emit {A : Type} (g : A -> event) (f : Figure)
  (l : list A) :
  forall done,
    for_each l (fun a => emit (g a)) (logged f done)
    = (logged f (done ++ map g l), OK tt).
Proof.
  induction l as [|a l IH]; intros done.
  - rewrite for_each_nil. simpl. now rewrite app_nil_r.
  - rewrite for_each_cons, emit_logged, logged_app, IH.
    simpl. now rewrite <- app_assoc.
Qed.

Lemma dispatch_node_logged (self : node) (changed : list (list key))
  (f : Figure) (done : list event) :
  _dispatch_change_callbacks self changed (logged f done)
  = (logged f (done ++ node_events self changed f), OK tt).
Proof.
  unfold _dispatch_change_callbacks, node_events. munfold.
  change (_change_callbacks (logged f done)) with (_change_callbacks f).
  destruct (dict_get node_eqb self (_change_callbacks f)) as [reg|].
  - apply for_each_logged. intros [ps cbs] d0 _.
    unfold entry_events.
    destruct (intersects changed ps); [|now rewrite app_nil_r].
    change (owner_props (fst self) (logged f d0))
      with (owner_props (fst self) f).
    destruct (owner_props (fst self) f) as [p dflt].
    apply for_each_emit.
  - now rewrite app_nil_r.
Qed.

Lemma dispatch_layout_logged (relayout_data : edits) (f : Figure) :
  _dispatch_layout_change_callbacks relayout_data f
  = (logged f (Dispatch_layout_change_callbacks relayout_data
                 :: layout_events relayout_data f), OK tt).
Proof.
  unfold _dispatch_layout_change_callbacks, layout_events. munfold.
  rewrite emit_logged.
  change (Dispatch_layout_change_callbacks relayout_data :: ?x)
    with ([Dispatch_layout_change_callbacks relayout_data] ++ x).
  apply for_each_logged. intros [path_tuple changed] done _.
  apply dispatch_node_logged.
Qed.

Lemma data_getitem_logged (t : Z) (f : Figure) (done : list event) :
  data_getitem t (logged f done)
  = (logged f done,
     match list_index (length (_data_objs f)) t with
     | Some n => OK (nth n (_data_objs f) O)
     | None => Raise IndexError
     end).
Proof.
  unfold data_getitem.
  change (_data_objs (logged f done)) with (_data_objs f).
  now destruct (list_index (length (_data_objs f)) t).
Qed.

Lemma dispatch_trace_logged (restyle_data : edits) (idxs : list Z)
  (traces : list nat) (f : Figure) :
  traces_at f idxs = Some traces ->
  _dispatch_trace_change_callbacks restyle_data idxs f
  = (logged f (Dispatch_trace_change_callbacks restyle_data idxs
                 :: trace_events restyle_data traces f), OK tt).
Proof.
  intros Ht.
  unfold _dispatch_trace_change_callbacks, trace_events. munfold.
  rewrite emit_logged.
  change (Dispatch_trace_change_callbacks restyle_data idxs :: ?x)
    with ([Dispatch_trace_change_callbacks restyle_data idxs] ++ x).
  apply for_each_logged. intros [path_tuple changed] done _.
  clear restyle_data. revert traces Ht done.
  induction idxs as [|t rest IH]; intros traces Ht done.
  - injection Ht as <-. rewrite for_each_nil. simpl.
    now rewrite app_nil_r.
  - simpl in Ht.
    destruct (list_index (length (_data_objs f)) t) as [n|] eqn:En;
      [|discriminate Ht].
    destruct (traces_at f rest) as [objs|]; [|discriminate Ht].
    injection Ht as <-.
    rewrite for_each_cons. munfold.
    rewrite data_getitem_logged, En, dispatch_node_logged.
    rewrite (IH objs eq_refl). simpl. now rewrite app_assoc.
Qed.

Lemma node_events_callbacks (self : node) (changed : list (list key))
  (f : Figure) :
  forallb is_callback (node_events self changed f) = true.
Proof.
  unfold node_events.
  destruct (dict_get node_eqb self (_change_callbacks f)) as [reg|];
    [|reflexivity].
  induction reg as [|[ps cbs] reg IH]; [reflexivity|].
  simpl. rewrite forallb_app, IH, andb_true_r.
  destruct (intersects changed ps); [|reflexivity].
  destruct (owner_props (fst self) f). now induction cbs.
Qed.

Lemma dispatch_traces_of_node (path_tuple : list key)
  (changed : list (list key)) (f : Figure) (ts : list Z) :
  forall done f1 r1,
    for_each ts
      (fun trace_ind =>
         bind (data_getitem trace_ind)
              (fun trace =>
                 _dispatch_change_callbacks (Trace trace, path_tuple)
                                            changed))
      (logged f done) = (f1, r1) ->
    exists more, f1 = logged f (done ++ more)
                 /\ forallb is_callback more = true.
Proof.
  induction ts as [|t ts IH]; intros done f1 r1.
  - rewrite for_each_nil. intros [= <- _]. exists [].
    now rewrite app_nil_r.
  - rewrite for_each_cons. unfold bind at 1.
    rewrite data_getitem_logged.
    destruct (list_index (length (_data_objs f)) t) as [n|].
    + rewrite dispatch_node_logged. intros H.
      destruct (IH _ _ _ H) as (more & -> & Hm).
      exists (node_events (Trace (nth n (_data_objs f) O), path_tuple)
                          changed f ++ more).
      rewrite app_assoc, forallb_app, node_events_callbacks, Hm. auto.
    + intros [= <- _]. exists []. now rewrite app_nil_r.
Qed.

(** Whether it ends well or not, a dispatch of trace changes records
    its own entry and then only calls of callbacks. *)
Lemma dispatch_trace_callbacks (restyle_data : edits) (idxs : list Z)
  (f f' : Figure) (r : res unit) :
  _dispatch_trace_change_callbacks restyle_data idxs f = (f', r) ->
  exists cbs,
    f' = logged f (Dispatch_trace_change_callbacks restyle_data idxs
                     :: cbs)
    /\ forallb is_callback cbs = true.
Proof.
  unfold _dispatch_trace_change_callbacks. munfold. rewrite emit_logged.
  assert (G : forall pl done f1 r1,
    for_each pl
      (fun '(path_tuple, changed_paths) =>
         for_each idxs
           (fun trace_ind =>
              bind (data_getitem trace_ind)
                   (fun trace =>
                      _dispatch_change_callbacks (Trace trace, path_tuple)
                                                 changed_paths)))
      (logged f done) = (f1, r1) ->
    exists more, f1 = logged f (done ++ more)
                 /\ forallb is_callback more = true).
  { induction pl as [|[path_tuple changed] pl IH]; intros done f1 r1.
    - rewrite for_each_nil. intros [= <- _]. exists [].
      now rewrite app_nil_r.
    - rewrite for_each_cons.
      destruct (for_each idxs _ (logged f done)) as [f2 [[]|e]] eqn:E;
        destruct (dispatch_traces_of_node _ _ _ _ _ _ _ E)
          as (more & -> & Hm).
      + intros H. destruct (IH _ _ _ H) as (more2 & -> & Hm2).
        exists (more ++ more2).
        now rewrite app_assoc, forallb_app, Hm, Hm2.
      + intros [= <- _]. now exists more. }
  intros H. apply G in H as (more & -> & Hm). now exists more.
Qed.

End LogFacts.

(* ------------------------------------------------------------------ *)
(** ** The order of an operation *)

Section OperationOrder.
Context {V : Validators}.

(** [f'] is [f] with other layout properties. *)
Definition only_layout (f f' : Figure) : Prop :=
  f' = with_layout (_layout f') f.

Lemma only_layout_refl (f : Figure) : only_layout f f.
Proof. unfold only_layout. now destruct f. Qed.

Lemma only_layout_trans (f g h : Figure) :
  only_layout f g -> only_layout g h -> only_layout f h.
Proof.
  unfold only_layout. intros H1 H2. rewrite H2 at 1. rewrite H1.
  reflexivity.
Qed.

Lemma relayout_keys_cons (k : string) (v : value) (rest : edits)
  (changes : edits) (f : Figure) :
  relayout_keys ((k, v) :: rest) changes f =
  if negb (_is_key_path_compatible k layout_contains)
  then (f, Raise (ValueError_InvalidPropertyPath k))
  else
    match set_in_layout k v f with
    | (f1, OK val_changed) =>
        relayout_keys rest
          (if val_changed then dict_set String.eqb k v changes
           else changes) f1
    | (f1, Raise e) => (f1, Raise e)
    end.
Proof.
  cbn [relayout_keys]. munfold.
  destruct (negb _); reflexivity.
Qed.

Lemma relayout_keys_only_layout (rd : edits) :
  forall (changes : edits) (f f' : Figure) (r : res edits),
    relayout_keys rd changes f = (f', r) -> only_layout f f'.
Proof.
  induction rd as [|[k v] rest IH]; intros changes f f' r.
  - cbn. munfold. intros [= <- _]. apply only_layout_refl.
  - rewrite relayout_keys_cons.
    destruct (negb _); [intros [= <- _]; apply only_layout_refl|].
    unfold set_in_layout.
    destruct (set_in_props (_layout f) k v) as [d' [b|e]].
    + intros H. apply IH in H.
      apply (only_layout_trans _ (with_layout d' f)); [reflexivity|exact H].
    + now intros [= <- _].
Qed.

Lemma normalize_total (ti : trace_indexes_arg) (f : Figure) :
  exists idxs, _normalize_trace_indexes ti f = (f, OK idxs).
Proof. destruct ti; eexists; reflexivity. Qed.

Lemma perform_restyle_log (rd : edits) (idxs : list Z) (f f1 : Figure)
  (r : res edits) :
  _perform_plotly_restyle rd idxs f = (f1, r) ->
  log f1 = log f /\ batch_state f1 = batch_state f
  /\ _layout f1 = _layout f.
Proof.
  intros H. apply restyle_keys_only_data in H as [-> _]. now repeat split.
Qed.

Lemma perform_relayout_log (rd : edits) (f f1 : Figure) (r : res edits) :
  _perform_plotly_relayout rd f = (f1, r) ->
  log f1 = log f /\ batch_state f1 = batch_state f /\ _data f1 = _data f.
Proof.
  intros H. apply relayout_keys_only_layout in H. rewrite H.
  now repeat split.
Qed.

Lemma plotly_restyle_order rd ti src (f f' : Figure) :
  plotly_restyle rd ti src f = (f', OK tt) ->
  exists idxs changes f1 cbs,
    _normalize_trace_indexes ti f = (f, OK idxs)
    /\ _perform_plotly_restyle rd idxs f = (f1, OK changes)
    /\ log f1 = log f
    /\ f' = logged f1
              (if nonempty changes
               then Send_restyle changes (TI_List idxs) src
                    :: Dispatch_trace_change_callbacks changes idxs
                    :: cbs
               else [])
    /\ forallb is_callback cbs = true.
Proof.
  revert rd ti src f f'.
    intros rd ti src f f'. unfold plotly_restyle. unfold bind at 1.
    destruct (normalize_total ti f) as [idxs Hn]. rewrite Hn.
    unfold bind at 1.
    destruct (_perform_plotly_restyle rd idxs f) as [f1 [changes|e]] eqn:Ep;
      [|discriminate].
    destruct (perform_restyle_log _ _ _ _ _ Ep) as (Hlog & _ & _).
    destruct (nonempty changes) eqn:En.
    + unfold bind. rewrite emit_logged. intros H.
      destruct (_dispatch_trace_change_callbacks changes idxs
                  (logged f1 [Send_restyle changes (TI_List idxs) src]))
        as [f2 r] eqn:Ed.
      destruct (dispatch_trace_callbacks _ _ _ _ _ Ed) as (cbs & -> & Hc).
      destruct r; [|discriminate H]. injection H as <-.
      exists idxs, changes, f1, cbs. rewrite En, logged_app. auto.
    + munfold. intros [= <-]. exists idxs, changes, f1, [].
      rewrite En, logged_nil. auto.
Qed.

Lemma plotly_relayout_order rd src (f f' : Figure) :
  plotly_relayout rd src f = (f', OK tt) ->
  exists changes f1,
    _perform_plotly_relayout rd f = (f1, OK changes)
    /\ log f1 = log f
    /\ f' = logged f1
              (if nonempty changes
               then Send_relayout changes src
                    :: Dispatch_layout_change_callbacks changes
                    :: layout_events changes f1
               else []).
Proof.
  revert rd src f f'.
    intros rd src f f'. unfold plotly_relayout. unfold bind at 1.
    destruct (_perform_plotly_relayout rd f) as [f1 [changes|e]] eqn:Ep;
      [|discriminate].
    destruct (perform_relayout_log _ _ _ _ Ep) as (Hlog & _ & _).
    intros H.
    exists changes, f1. split; [reflexivity|]. split; [exact Hlog|].
    destruct (nonempty changes).
    + unfold bind in H. rewrite emit_logged, dispatch_layout_logged in H.
      injection H as <-. now rewrite logged_app.
    + munfold. injection H as <-. now rewrite logged_nil.
Qed.

Lemma plotly_update_order rs rl ti src (f f' : Figure) :
  plotly_update rs rl ti src f = (f', OK tt) ->
  (truthy rs = false /\ truthy rl = false /\ f' = f)
  \/ exists idxs rc lc f1 f2 cbs,
       _normalize_trace_indexes ti f = (f, OK idxs)
       /\ _perform_plotly_relayout (or_empty rl) f = (f1, OK lc)
       /\ _perform_plotly_restyle (or_empty rs) idxs f1 = (f2, OK rc)
       /\ log f2 = log f
       /\ batch_state f2 = batch_state f
       /\ f' = logged f2
                 ((if nonempty rc || nonempty lc
                   then [Send_update rc lc idxs src] else [])
                  ++ (if nonempty rc
                      then Dispatch_trace_change_callbacks rc idxs
                           :: cbs
                      else [])
                  ++ (if nonempty lc
                      then Dispatch_layout_change_callbacks lc
                           :: layout_events lc f2
                      else []))
       /\ forallb is_callback cbs = true.
Proof.
  revert rs rl ti src f f'.
    intros rs rl ti src f f'. unfold plotly_update, _perform_plotly_update.
    destruct (negb (truthy rs) && negb (truthy rl)) eqn:Et.
    + munfold. intros [= <-]. left.
      apply andb_true_iff in Et as [H1 H2].
      apply negb_true_iff in H1, H2. auto.
    + unfold bind at 1. unfold bind at 1.
      destruct (normalize_total ti f) as [idxs Hn]. rewrite Hn.
      unfold bind at 1.
      destruct (_perform_plotly_relayout (or_empty rl) f)
        as [f1 [lc|e]] eqn:El; [|discriminate].
      unfold bind at 1.
      destruct (_perform_plotly_restyle (or_empty rs) idxs f1)
        as [f2 [rc|e]] eqn:Er; [|discriminate].
      unfold ret at 1.
      destruct (perform_relayout_log _ _ _ _ El) as (Hl1 & Hb1 & _).
      destruct (perform_restyle_log _ _ _ _ _ Er) as (Hl2 & Hb2 & _).
      intros H. right.
      set (sent := if nonempty rc || nonempty lc
                   then [Send_update rc lc idxs src] else []).
      assert (Hs : (if nonempty rc || nonempty lc
                    then emit (Send_update rc lc idxs src) else ret tt) f2
                   = (logged f2 sent, OK tt)).
      { unfold sent. destruct (nonempty rc || nonempty lc).
        - apply emit_logged.
        - munfold. now rewrite logged_nil. }
      unfold bind at 1 in H. rewrite Hs in H. unfold bind at 1 in H.
      destruct ((if nonempty rc
                 then _dispatch_trace_change_callbacks rc idxs
                 else ret tt) (logged f2 sent)) as [f3 r3] eqn:Ed.
      assert (Hd : exists cbs,
                 f3 = logged f2 (sent ++ (if nonempty rc
                                          then Dispatch_trace_change_callbacks
                                                 rc idxs :: cbs
                                          else []))
                 /\ forallb is_callback cbs = true).
      { destruct (nonempty rc).
        - destruct (dispatch_trace_callbacks _ _ _ _ _ Ed)
            as (cbs & -> & Hc).
          exists cbs. now rewrite logged_app.
        - munfold. injection Ed as <- _. exists [].
          now rewrite app_nil_r. }
      destruct Hd as (cbs & -> & Hc).
      destruct r3; [|discriminate H].
      exists idxs, rc, lc, f1, f2, cbs.
      repeat split; try assumption; [congruence|congruence|].
      destruct (nonempty lc).
      * rewrite dispatch_layout_logged in H. injection H as <-.
        rewrite logged_app, <- app_assoc. reflexivity.
      * munfold. injection H as <-. now rewrite !app_nil_r.
Qed.

End OperationOrder.

(** C1, as the claim states it, fails: the message is sent before the
    change observers are notified.  Here a callback watches [x] of the
    one trace; the restyle message is in the log before the call. *)
Lemma restyle_sends_before_it_notifies :
  let f := on_change (Trace 0, []) 7 [Str "x"] false
             (@new_figure any_schema [[(KStr "uid", VStr "a")]] []) in
  exists f',
    plotly_restyle [("x", VInt 1)] TI_None None f = (f', OK tt)
    /\ map fst (log f')
       = [@Send_restyle any_schema [("x", VInt 1)] (TI_List [0]) None;
          @Dispatch_trace_change_callbacks any_schema [("x", VInt 1)] [0];
          @Callback any_schema 7 (Trace 0, []) [OK (VInt 1)]].
Proof. cbv zeta. eexists. split; [cbv; reflexivity | reflexivity]. Qed.

(** C1 (amended): each of [plotly_restyle], [plotly_relayout] and
    [plotly_update] that returns has first computed the changeset while
    applying it to the figure's data, nothing being sent or called
    meanwhile, has then sent its message, and has then dispatched the
    change callbacks; with an empty changeset it has sent nothing and
    called nobody. *)
Theorem operations_send_then_dispatch {V : Validators} :
  (forall rd ti src (f f' : Figure),
     plotly_restyle rd ti src f = (f', OK tt) ->
     exists idxs changes f1 cbs,
       _normalize_trace_indexes ti f = (f, OK idxs)
       /\ _perform_plotly_restyle rd idxs f = (f1, OK changes)
       /\ log f1 = log f
       /\ f' = logged f1
                 (if nonempty changes
                  then Send_restyle changes (TI_List idxs) src
                       :: Dispatch_trace_change_callbacks changes idxs
                       :: cbs
                  else [])
       /\ forallb is_callback cbs = true)
  /\ (forall rd src (f f' : Figure),
        plotly_relayout rd src f = (f', OK tt) ->
        exists changes f1,
          _perform_plotly_relayout rd f = (f1, OK changes)
          /\ log f1 = log f
          /\ f' = logged f1
                    (if nonempty changes
                     then Send_relayout changes src
                          :: Dispatch_layout_change_callbacks changes
                          :: layout_events changes f1
                     else []))
  /\ (forall rs rl ti src (f f' : Figure),
        plotly_update rs rl ti src f = (f', OK tt) ->
        (truthy rs = false /\ truthy rl = false /\ f' = f)
        \/ exists idxs rc lc f1 f2 cbs,
             _normalize_trace_indexes ti f = (f, OK idxs)
             /\ _perform_plotly_relayout (or_empty rl) f = (f1, OK lc)
             /\ _perform_plotly_restyle (or_empty rs) idxs f1 = (f2, OK rc)
             /\ log f2 = log f
             /\ f' = logged f2
                       ((if nonempty rc || nonempty lc
                         then [Send_update rc lc idxs src] else [])
                        ++ (if nonempty rc
                            then Dispatch_trace_change_callbacks rc idxs
                                 :: cbs
                            else [])
                        ++ (if nonempty lc
                            then Dispatch_layout_change_callbacks lc
                                 :: layout_events lc f2
                            else []))
             /\ forallb is_callback cbs = true).
Proof.
  split; [|split].
  - intros rd ti src f f'. apply plotly_restyle_order.
  - intros rd src f f'. apply plotly_relayout_order.
  - intros rs rl ti src f f' H.
    destruct (plotly_update_order _ _ _ _ _ _ H)
      as [Hn|(idxs & rc & lc & f1 & f2 & cbs & H1 & H2 & H3 & H4 & _ & H5)];
      [now left|].
    right. exists idxs, rc, lc, f1, f2, cbs. auto.
Qed.

Lemma operations_send_then_dispatch_witness :
  let f := @new_figure any_schema [[(KStr "uid", VStr "a")]] [] in
  exists f',
    plotly_relayout [("title", VStr "t")] None f = (f', OK tt)
    /\ map fst (log f')
       = [@Send_relayout any_schema [("title", VStr "t")] None;
          @Dispatch_layout_change_callbacks any_schema
            [("title", VStr "t")]].
Proof.
  cbv zeta. eexists. split; [cbv; reflexivity|].
  destruct (@operations_send_then_dispatch any_schema) as (_ & H & _).
  destruct (H [("title", VStr "t")] None
              (@new_figure any_schema [[(KStr "uid", VStr "a")]] [])
              _ eq_refl) as (changes & f1 & Hp & _ & Hf).
  reflexivity.
Defined.

(* ------------------------------------------------------------------ *)
(** ** Batching *)

Section BatchFacts.
Context {V : Validators}.

(** Induction over statements, through the bodies of nested blocks. *)
Definition stmt_induction (P : stmt -> Prop)
  (H_Assign : forall self prop val, P (Assign self prop val))
  (H_With : forall body, Forall P body -> P (With_batch_update body))
  (H_Raise : forall e, P (Raise_exception e))
  : forall s : stmt, P s :=
  fix go (s : stmt) : P s :=
    match s with
    | Assign self prop val => H_Assign self prop val
    | With_batch_update body =>
        H_With body
          ((fix all (l : list stmt) : Forall P l :=
              match l with
              | [] => Forall_nil P
              | x :: t => Forall_cons x (go x) (all t)
              end) body)
    | Raise_exception e => H_Raise e
    end.

(** [f1] is [f] with other pending edits. *)
Definition batching (f f1 : Figure) : Prop :=
  f1 = with_batch_trace_edits (_batch_trace_edits f1)
         (with_batch_layout_edits (_batch_layout_edits f1) f).

Lemma batching_refl (f : Figure) : batching f f.
Proof. unfold batching. now destruct f. Qed.

Lemma batching_trans (f g h : Figure) :
  batching f g -> batching g h -> batching f h.
Proof.
  unfold batching. intros H1 H2. rewrite H2 at 1. rewrite H1.
  reflexivity.
Qed.

Lemma batching_mode (f f1 : Figure) :
  batching f f1 -> _in_batch_mode f1 = _in_batch_mode f.
Proof. intros ->. reflexivity. Qed.

Lemma restyle_child_batching (child : nat) (k : string) (v : value)
  (f f1 : Figure) (r : res unit) :
  _in_batch_mode f = true ->
  _restyle_child child k v f = (f1, r) -> batching f f1.
Proof.
  intros Hb. unfold _restyle_child. munfold.
  destruct (_index_is (_data_objs f) child) as [i|];
    [|intros [= <- _]; apply batching_refl].
  rewrite Hb. change (negb true) with false. cbv beta iota.
  intros [= <- _].
  destruct (dict_get Z.eqb (Z.of_nat i) _);
    [reflexivity | apply batching_refl].
Qed.

Lemma relayout_child_batching (k : string) (v : value)
  (f f1 : Figure) (r : res unit) :
  _in_batch_mode f = true ->
  _relayout_child k v f = (f1, r) -> batching f f1.
Proof.
  intros Hb. unfold _relayout_child. munfold.
  rewrite Hb. change (negb true) with false. cbv beta iota.
  intros [= <- _]. reflexivity.
Qed.

Lemma send_prop_set_batching (self : owner) (k : string) (v : value)
  (f f1 : Figure) (r : res unit) :
  _in_batch_mode f = true ->
  _send_prop_set self k v f = (f1, r) -> batching f f1.
Proof.
  destruct self; [apply relayout_child_batching
                 | apply restyle_child_batching].
Qed.

Lemma props_state (self : owner) (f f1 : Figure) (r : res props) :
  _props self f = (f1, r) -> f1 = f.
Proof.
  unfold _props. destruct self as [|obj]; [now intros [= <- _]|].
  destruct (_index_is (_data_objs f) obj) as [i|]; [|now intros [= <- _]].
  destruct (nth_error (_data f) i); now intros [= <- _].
Qed.

(** [Undefined] makes [_set_prop] return at once. *)
Lemma set_prop_undefined (self : owner) (prop : string) (f : Figure) :
  _set_prop self prop Undefined f = (f, OK VNone).
Proof. reflexivity. Qed.

Lemma set_prop_batching (self : owner) (prop : string) (val : value)
  (f f1 : Figure) (r : res value) :
  _in_batch_mode f = true ->
  _set_prop self prop val f = (f1, r) -> batching f f1.
Proof.
  intros Hb.
  assert (G : forall val' (upd : props -> props) (cond : props -> bool)
                     f1 r,
    bind (_props self)
      (fun p =>
         bind (if cond p
               then bind get
                      (fun f0 =>
                         bind (if negb (_in_batch_mode f0)
                               then update_props self upd
                               else ret tt)
                              (fun _ => _send_prop_set self prop val'))
               else ret tt)
              (fun _ => ret val')) f = (f1, r) ->
    batching f f1).
  { intros val' upd cond f2 r2. unfold bind at 1.
    destruct (_props self f) as [f0 [p|e]] eqn:Ep;
      apply props_state in Ep; subst f0;
      [|intros [= <- _]; apply batching_refl].
    unfold bind at 1. destruct (cond p).
    - unfold bind at 1. unfold get. unfold bind at 1.
      rewrite Hb. change (negb true) with false. cbv beta iota.
      unfold ret at 1.
      destruct (_send_prop_set self prop val' f) as [f3 [u|e]] eqn:Es;
        apply (send_prop_set_batching _ _ _ _ _ _ Hb) in Es.
      + unfold ret. now intros [= <- _].
      + now intros [= <- _].
    - munfold. intros [= <- _]. apply batching_refl. }
  unfold _set_prop.
  destruct val; [intros [= <- _]; apply batching_refl | ..];
    (unfold bind at 1; unfold lift;
     destruct (validate_coerce self prop _) as [val'|e];
     [|intros [= <- _]; apply batching_refl];
     destruct val'; eapply G).
Qed.

Lemma for_each_batching (body : list stmt) :
  Forall (fun s => forall f f1 r,
            _in_batch_mode f = true -> exec s f = (f1, r) ->
            batching f f1) body ->
  forall f f1 r,
    _in_batch_mode f = true ->
    for_each body exec f = (f1, r) -> batching f f1.
Proof.
  induction 1 as [|s body Hs _ IH]; intros f f1 r Hb.
  - rewrite for_each_nil. intros [= <- _]. apply batching_refl.
  - rewrite for_each_cons.
    destruct (exec s f) as [f2 [u|e]] eqn:Es;
      pose proof (Hs _ _ _ Hb Es) as H2.
    + intros H. apply (batching_trans _ _ _ H2).
      apply (IH _ _ _ (eq_trans (batching_mode _ _ H2) Hb) H).
    + now intros [= <- _].
Qed.

(** Inside a batch the statements only fill the pending edits. *)
Lemma exec_batching (s : stmt) :
  forall f f1 r,
    _in_batch_mode f = true -> exec s f = (f1, r) -> batching f f1.
Proof.
  induction s as [self prop val|body IH|e]
    using stmt_induction; intros f f1 r Hb.
  - cbn [exec]. unfold bind.
    destruct (_set_prop self prop val f) as [f2 [u|e]] eqn:Es;
      apply (set_prop_batching _ _ _ _ _ _ Hb) in Es.
    + unfold ret. now intros [= <- _].
    + now intros [= <- _].
  - cbn [exec]. unfold batch_update. rewrite Hb.
    apply (for_each_batching body IH f f1 r Hb).
  - cbn [exec]. unfold raise. intros [= <- _]. apply batching_refl.
Qed.

Lemma exec_block_batching (body : list stmt) (f f1 : Figure)
  (r : res unit) :
  _in_batch_mode f = true ->
  exec_block body f = (f1, r) -> batching f f1.
Proof.
  apply for_each_batching. apply Forall_forall. intros s _.
  apply exec_batching.
Qed.

Lemma layout_events_callbacks (changes : edits) (f : Figure) :
  forallb is_callback (layout_events changes f) = true.
Proof.
  unfold layout_events.
  induction (_build_dispatch_plan (dict_keys changes)) as [|[p c] pl IH];
    [reflexivity|].
  simpl. now rewrite forallb_app, node_events_callbacks, IH.
Qed.


(** Leaving the outermost batch: the flag is cleared, the pending
    edits are handed to [plotly_update], and then they are cleared;
    what the body raised is raised again. *)
Lemma batch_update_exit (body : M Figure unit) (f f1 f3 : Figure)
  (r : res unit) (rs rl : edits) (idxs : list Z) :
  _in_batch_mode f = false ->
  body (with_in_batch_mode true f) = (f1, r) ->
  _build_update_params_from_batch f1 = (rs, rl, idxs) ->
  plotly_update (Some rs) (Some rl) (TI_List idxs) None
                (with_in_batch_mode false f1) = (f3, OK tt) ->
  batch_update body f
  = (with_batch_trace_edits [] (with_batch_layout_edits [] f3), r).
Proof.
  intros Hb Hbody Hp Hu. unfold batch_update. rewrite Hb, Hbody.
  change (_build_update_params_from_batch (with_in_batch_mode false f1))
    with (_build_update_params_from_batch f1).
  now rewrite Hp, Hu.
Qed.

(** What the commit of a batch does: the relayout, then the restyle,
    then at most one message and one dispatch for each changeset. *)
Lemma commit_events (rs rl : edits) (idxs : list Z) (g f3 : Figure) :
  plotly_update (Some rs) (Some rl) (TI_List idxs) None g = (f3, OK tt) ->
  exists rc lc f1 f2 cbs1 cbs2,
    _perform_plotly_relayout rl g = (f1, OK lc)
    /\ _perform_plotly_restyle rs idxs f1 = (f2, OK rc)
    /\ log f2 = log g
    /\ batch_state f2 = batch_state g
    /\ f3 = logged f2
              ((if nonempty rc || nonempty lc
                then [Send_update rc lc idxs None] else [])
               ++ (if nonempty rc
                   then Dispatch_trace_change_callbacks rc idxs :: cbs1
                   else [])
               ++ (if nonempty lc
                   then Dispatch_layout_change_callbacks lc :: cbs2
                   else []))
    /\ forallb is_callback cbs1 = true
    /\ forallb is_callback cbs2 = true.
Proof.
  intros H.
  destruct (plotly_update_order _ _ _ _ _ _ H)
    as [(H1 & H2 & ->)
       |(idxs' & rc & lc & f1 & f2 & cbs & Hn & Hl & Hr & Hlog & Hbs
         & -> & Hc)].
  - destruct rs; [|discriminate H1]. destruct rl; [|discriminate H2].
    exists [], [], g, g, [], []. simpl. rewrite logged_nil.
    repeat split; reflexivity.
  - injection Hn as <-.
    exists rc, lc, f1, f2, cbs, (layout_events lc f2).
    repeat split; auto. apply layout_events_callbacks.
Qed.

End BatchFacts.




(** C9, as the claim states it, fails in one point: the batch flag is not
    cleared after the commit but before it.  The body writes [x] and
    raises; the update message of the commit is sent with
    [_in_batch_mode] already [False] and the pending edit still there. *)
Lemma batch_flag_is_cleared_before_the_commit :
  let f := @new_figure any_schema [[(KStr "uid", VStr "a")]] [] in
  let during := {| seen_in_batch_mode := false;
                   seen_batch_trace_edits := [(0, [("x", VInt 1)])];
                   seen_batch_layout_edits := [] |} in
  exists f',
    batch_update (exec_block [Assign (Trace 0) "x" (VInt 1);
                              Raise_exception (UserException 3)]) f
    = (f', Raise (UserException 3))
    /\ _data f' = [[(KStr "uid", VStr "a"); (KStr "x", VInt 1)]]
    /\ log f'
       = [(@Send_update any_schema [("x", VList [VInt 1])] [] [0] None,
           during);
          (@Dispatch_trace_change_callbacks any_schema
             [("x", VList [VInt 1])] [0], during)]
    /\ _batch_trace_edits f' = [].
Proof. cbv zeta. eexists. split; [cbv; reflexivity|]. repeat split. Qed.

(** C9 (amended): when the body of the outermost [batch_update] block
    raises, the cleanup clears the batch flag first, then hands the edits
    accumulated so far to [plotly_update], which changes the figure,
    sends the update message and dispatches the callbacks while the flag
    is clear and the edits are still pending; when that call returns, the
    pending edits are cleared and the exception of the body is raised
    again. *)
Theorem batch_update_commits_on_exception {V : Validators}
  (body : M Figure unit) (f f1 f3 : Figure) (e : exn)
  (rs rl : edits) (idxs : list Z) :
  _in_batch_mode f = false ->
  body (with_in_batch_mode true f) = (f1, Raise e) ->
  _build_update_params_from_batch f1 = (rs, rl, idxs) ->
  plotly_update (Some rs) (Some rl) (TI_List idxs) None
                (with_in_batch_mode false f1) = (f3, OK tt) ->
  batch_update body f
  = (with_batch_trace_edits [] (with_batch_layout_edits [] f3), Raise e)
  /\ exists rc lc g1 g2 cbs1 cbs2,
       _perform_plotly_relayout rl (with_in_batch_mode false f1)
       = (g1, OK lc)
       /\ _perform_plotly_restyle rs idxs g1 = (g2, OK rc)
       /\ _data f3 = _data g2 /\ _layout f3 = _layout g2
       /\ log f3
          = log f1
            ++ map (fun ev =>
                      (ev, {| seen_in_batch_mode := false;
                              seen_batch_trace_edits := _batch_trace_edits f1;
                              seen_batch_layout_edits :=
                                _batch_layout_edits f1 |}))
                   ((if nonempty rc || nonempty lc
                     then [Send_update rc lc idxs None] else [])
                    ++ (if nonempty rc
                        then Dispatch_trace_change_callbacks rc idxs :: cbs1
                        else [])
                    ++ (if nonempty lc
                        then Dispatch_layout_change_callbacks lc :: cbs2
                        else []))
       /\ forallb is_callback cbs1 = true
       /\ forallb is_callback cbs2 = true.
Proof.
  intros Hb Hbody Hp Hu. split.
  - exact (batch_update_exit body f f1 f3 (Raise e) rs rl idxs Hb Hbody
             Hp Hu).
  - destruct (commit_events _ _ _ _ _ Hu)
      as (rc & lc & g1 & g2 & cbs1 & cbs2 & Hl & Hr & Hlog & Hbs & -> & H1
          & H2).
    exists rc, lc, g1, g2, cbs1, cbs2. repeat split; auto.
    unfold logged. cbn [log with_log]. rewrite Hlog, Hbs. reflexivity.
Qed.

Lemma batch_update_commits_on_exception_witness :
  let f := @new_figure any_schema [[(KStr "uid", VStr "a")]] [] in
  exists f',
    batch_update (exec_block [Assign Layout "title" (VStr "t");
                              Raise_exception (UserException 3)]) f
    = (f', Raise (UserException 3))
    /\ _layout f' = [(KStr "title", VStr "t")].
Proof.
  cbv zeta. eexists.
  pose proof (@batch_update_commits_on_exception any_schema
           (exec_block [Assign Layout "title" (VStr "t");
                        Raise_exception (UserException 3)])
           (@new_figure any_schema [[(KStr "uid", VStr "a")]] [])
           _ _ (UserException 3) _ _ _
           eq_refl eq_refl eq_refl eq_refl) as [H _].
  split; [exact H | reflexivity].
Defined.

(* ------------------------------------------------------------------ *)
(** ** The [data] setter *)

Section DataSetter.
Context {V : Validators}.

Lemma uid_eqb_eq (a b : value) : uid_eqb a b = true -> a = b.
Proof.
  destruct a, b; simpl; intros H; try discriminate H; try reflexivity.
  - apply Z.eqb_eq in H. now subst.
  - apply String.eqb_eq in H. now subst.
Qed.

Lemma uid_eqb_refl (a : value) : hashable a = true -> uid_eqb a a = true.
Proof.
  destruct a; simpl; intros H; try discriminate H; try reflexivity.
  - apply Z.eqb_refl.
  - apply String.eqb_refl.
Qed.

Lemma mem_uid_in (u : value) (l : list value) :
  hashable u = true -> (mem_uid u l = true <-> In u l).
Proof.
  intros Hu. unfold mem_uid. rewrite existsb_exists. split.
  - intros (x & Hx & He). apply uid_eqb_eq in He. now subst.
  - intros H. exists u. split; [exact H | now apply uid_eqb_refl].
Qed.

(** The uids that [Counter] keeps: each uid of the list, once. *)
Lemma counter_keys_in (l : list value) :
  forallb hashable l = true ->
  forall (acc : list value) (u : value),
    In u (fold_left (fun acc u => if mem_uid u acc then acc
                                  else acc ++ [u]) l acc)
    <-> In u acc \/ In u l.
Proof.
  induction l as [|x l IH]; intros Hl acc u; simpl.
  - tauto.
  - simpl in Hl. apply andb_true_iff in Hl as [Hx Hl].
    rewrite (IH Hl). destruct (mem_uid x acc) eqn:E.
    + apply (mem_uid_in x acc Hx) in E. split; [tauto|].
      intros [H|[H|H]]; subst; tauto.
    + rewrite in_app_iff. simpl. tauto.
Qed.

Lemma duplicates_none (l : list value) :
  forallb hashable l = true ->
  (nonempty (duplicates l) = false
   <-> forallb (fun u => Nat.leb (count_uid u l) 1) l = true).
Proof.
  intros Hl. unfold duplicates.
  set (ks := fold_left _ l []).
  assert (Hks : forall u, In u ks <-> In u l).
  { intros u. unfold ks. rewrite (counter_keys_in l Hl []). simpl. tauto. }
  split.
  - intros H. apply forallb_forall. intros u Hu.
    destruct (Nat.leb (count_uid u l) 1) eqn:E; [reflexivity|].
    apply Nat.leb_gt in E.
    assert (Hin : In u (filter (fun u => Nat.ltb 1 (count_uid u l)) ks)).
    { apply filter_In. split; [now apply Hks | now apply Nat.ltb_lt]. }
    destruct (filter _ ks); [contradiction | discriminate H].
  - intros H. rewrite forallb_forall in H.
    destruct (filter (fun u => Nat.ltb 1 (count_uid u l)) ks) as [|u t]
      eqn:E; [reflexivity|].
    assert (Hin : In u (filter (fun u => Nat.ltb 1 (count_uid u l)) ks))
      by (rewrite E; now left).
    apply filter_In in Hin as [Hin Hc]. apply Hks in Hin.
    apply H in Hin. apply Nat.leb_le in Hin. apply Nat.ltb_lt in Hc. lia.
Qed.

(** What the validation lets through is a permutation of a subset. *)
Lemma validate_new_data_accepts (f : Figure) (new_data : data_arg)
  (elems : list data_elem) (orig_uids new_uids : list value) :
  validate_new_data f new_data = OK (elems, orig_uids, new_uids) ->
  uids_of (_data f) = OK orig_uids
  /\ new_data = Sequence elems
  /\ new_uids = map elem_uid elems
  /\ permutation_of_subset orig_uids new_data = true.
Proof.
  unfold validate_new_data, permutation_of_subset.
  destruct new_data as [nd|]; [|discriminate].
  destruct (forallb is_trace nd) eqn:Et; simpl negb; cbv iota;
    [|discriminate].
  destruct (uids_of (_data f)) as [orig|e]; [|discriminate].
  destruct (forallb hashable (map elem_uid nd)) eqn:Hn; simpl negb;
    [|discriminate].
  destruct (forallb hashable orig) eqn:Ho; simpl negb; [|discriminate].
  simpl orb. cbv iota.
  destruct (existsb (fun u => negb (mem_uid u orig)) (map elem_uid nd))
    eqn:Ei; [discriminate|].
  destruct (nonempty (duplicates (map elem_uid nd))) eqn:Ed;
    [discriminate|].
  intros [= <- <- <-]. repeat split.
  apply (duplicates_none _ Hn) in Ed. rewrite Ed, andb_true_r. simpl.
  apply forallb_forall. intros u Hu.
  destruct (mem_uid u orig) eqn:Em; [reflexivity|].
  assert (Hex : existsb (fun u => negb (mem_uid u orig)) (map elem_uid nd)
                = true).
  { apply existsb_exists. exists u. now rewrite Em. }
  rewrite Hex in Ei. discriminate Ei.
Qed.

(** What is not a permutation of a subset is turned down with a
    ValueError. *)
Lemma validate_new_data_rejects (f : Figure) (new_data : data_arg)
  (orig_uids : list value) :
  uids_of (_data f) = OK orig_uids ->
  forallb hashable orig_uids = true ->
  (forall elems, new_data = Sequence elems ->
                 forallb hashable (map elem_uid elems) = true) ->
  permutation_of_subset orig_uids new_data = false ->
  exists e, validate_new_data f new_data = Raise e
            /\ is_ValueError e = true.
Proof.
  intros Ho Hh Hn. unfold validate_new_data, permutation_of_subset.
  destruct new_data as [nd|]; [|eexists; split; reflexivity].
  specialize (Hn nd eq_refl).
  destruct (forallb is_trace nd); simpl negb; cbv iota;
    [|eexists; split; reflexivity].
  rewrite Ho, Hh, Hn. simpl.
  destruct (existsb (fun u => negb (mem_uid u orig_uids))
                    (map elem_uid nd)) eqn:Ei;
    [eexists; split; reflexivity|].
  assert (Hall : forallb (fun u => mem_uid u orig_uids) (map elem_uid nd)
                 = true).
  { apply forallb_forall. intros u Hu.
    destruct (mem_uid u orig_uids) eqn:Em; [reflexivity|].
    assert (Hex : existsb (fun u => negb (mem_uid u orig_uids))
                          (map elem_uid nd) = true).
    { apply existsb_exists. exists u. now rewrite Em. }
    rewrite Hex in Ei. discriminate Ei. }
  rewrite Hall. simpl. intros Hd.
  destruct (nonempty (duplicates (map elem_uid nd))) eqn:Ed;
    [eexists; split; reflexivity|].
  apply (duplicates_none _ Hn) in Ed. rewrite Ed in Hd. discriminate Hd.
Qed.

Lemma set_data_accepted (f f' : Figure) (new_data : data_arg) :
  set_data new_data f = (f', OK tt) ->
  exists elems orig_uids new_uids,
    validate_new_data f new_data = OK (elems, orig_uids, new_uids).
Proof.
  unfold set_data.
  destruct (validate_new_data f new_data) as [[[elems orig] new]|e];
    [eauto | discriminate].
Qed.

End DataSetter.

(** C6: when every current trace has a uid, and the uids at hand are
    hashable as the strings they are, the [data] setter raises a
    ValueError and leaves the figure as it was whenever the assigned value
    is not a list or tuple, has an element that is not a trace, has a uid
    that no current trace has, or has a uid twice; and whatever it accepts
    is a permutation of a subset of the current traces, matched by uid. *)
Theorem data_setter_validates {V : Validators}
  (f : Figure) (new_data : data_arg) (orig_uids : list value) :
  uids_of (_data f) = OK orig_uids ->
  forallb hashable orig_uids = true ->
  (forall elems, new_data = Sequence elems ->
                 forallb hashable (map elem_uid elems) = true) ->
  (permutation_of_subset orig_uids new_data = false ->
   exists e, set_data new_data f = (f, Raise e) /\ is_ValueError e = true)
  /\ (forall f', set_data new_data f = (f', OK tt) ->
                 permutation_of_subset orig_uids new_data = true).
Proof.
  intros Ho Hh Hn. split.
  - intros Hp.
    destruct (validate_new_data_rejects f new_data orig_uids Ho Hh Hn Hp)
      as (e & He & Hv).
    exists e. unfold set_data. now rewrite He.
  - intros f' H.
    destruct (set_data_accepted _ _ _ H) as (elems & orig & new & Hv).
    destruct (validate_new_data_accepts _ _ _ _ _ Hv) as (Ho' & _ & _ & Hp).
    rewrite Ho in Ho'. injection Ho' as <-. exact Hp.
Qed.

Lemma data_setter_validates_witness :
  let f := @new_figure any_schema
             [[(KStr "uid", VStr "a")]; [(KStr "uid", VStr "b")]] [] in
  exists e,
    set_data (Sequence [A_trace 1 (VStr "b"); A_trace 1 (VStr "b")]) f
    = (f, Raise e)
    /\ is_ValueError e = true.
Proof.
  cbv zeta.
  destruct (@data_setter_validates any_schema
              (@new_figure any_schema
                 [[(KStr "uid", VStr "a")]; [(KStr "uid", VStr "b")]] [])
              (Sequence [A_trace 1 (VStr "b"); A_trace 1 (VStr "b")])
              [VStr "a"; VStr "b"] eq_refl eq_refl) as [H _].
  - intros elems [= <-]. reflexivity.
  - apply H. reflexivity.
Defined.

(** The setter at work: the traces are swapped, then the second is
    dropped. *)
Example data_setter_swaps_and_drops :
  let f := @new_figure any_schema
             [[(KStr "uid", VStr "a")]; [(KStr "uid", VStr "b")]] [] in
  exists f1 f2,
    set_data (Sequence [A_trace 1 (VStr "b"); A_trace 0 (VStr "a")]) f
    = (f1, OK tt)
    /\ _data f1 = [[(KStr "uid", VStr "b")]; [(KStr "uid", VStr "a")]]
    /\ map fst (log f1) = [@Send_moveTraces any_schema [0; 1] [1; 0]]%nat
    /\ set_data (Sequence [A_trace 1 (VStr "b")]) f1 = (f2, OK tt)
    /\ _data f2 = [[(KStr "uid", VStr "b")]]
    /\ detached f2 = [(0%nat, [(KStr "uid", VStr "a")])]
    /\ map fst (log f2)
       = [@Send_moveTraces any_schema [0; 1] [1; 0];
          @Send_deleteTraces any_schema [1]]%nat.
Proof.
  cbv zeta. eexists. eexists.
  split; [cbv; reflexivity|]. split; [reflexivity|]. split; [reflexivity|].
  split; [cbv; reflexivity|]. repeat split.
Qed.

(* ------------------------------------------------------------------ *)
(** ** Change callbacks *)

Lemma path_eqb_eq (p q : list key) : path_eqb p q = true <-> p = q.
Proof.
  revert q. induction p as [|a p IH]; intros [|b q]; simpl;
    try (split; [discriminate | discriminate]); [tauto|].
  rewrite andb_true_iff, key_eqb_eq, IH.
  split; [intros [-> ->]; reflexivity | intros [= -> ->]; auto].
Qed.

Lemma node_eqb_eq (a b : node) : node_eqb a b = true <-> a = b.
Proof.
  destruct a as [oa pa], b as [ob pb]. unfold node_eqb. simpl.
  rewrite andb_true_iff, path_eqb_eq.
  assert (Ho : owner_eqb oa ob = true <-> oa = ob).
  { destruct oa, ob; simpl; split; intros H; try discriminate H;
      try reflexivity.
    - apply Nat.eqb_eq in H. now subst.
    - injection H as ->. apply Nat.eqb_refl. }
  rewrite Ho. split; [intros [-> ->]; reflexivity | intros [= -> ->]; auto].
Qed.

Section PlanFacts.

(** The plan knows that [q], below the node at [p], has changed. *)
Definition plan_has (pl : plan) (p q : list key) : Prop :=
  exists s, dict_get path_eqb p pl = Some s
            /\ existsb (path_eqb q) s = true.

Lemma set_add_keeps (q x : list key) (s : list (list key)) :
  existsb (path_eqb q) s = true ->
  existsb (path_eqb q) (set_add x s) = true.
Proof.
  intros H. unfold set_add. destruct (existsb (path_eqb x) s); [exact H|].
  rewrite existsb_app, H. reflexivity.
Qed.

Lemma set_add_has (x : list key) (s : list (list key)) :
  existsb (path_eqb x) (set_add x s) = true.
Proof.
  unfold set_add. destruct (existsb (path_eqb x) s) eqn:E; [exact E|].
  rewrite existsb_app. simpl.
  rewrite (proj2 (path_eqb_eq x x) eq_refl). apply orb_true_r.
Qed.

Lemma set_update_keeps (q : list key) (xs : list (list key)) :
  forall s, existsb (path_eqb q) s = true ->
            existsb (path_eqb q) (set_update s xs) = true.
Proof.
  unfold set_update. induction xs as [|x xs IH]; intros s H; simpl.
  - exact H.
  - apply IH, set_add_keeps, H.
Qed.

Lemma set_update_has (q : list key) (xs : list (list key)) :
  In q xs ->
  forall s, existsb (path_eqb q) (set_update s xs) = true.
Proof.
  unfold set_update. induction xs as [|x xs IH]; intros Hin s;
    [contradiction|].
  simpl. destruct Hin as [->|Hin].
  - apply (set_update_keeps q xs), set_add_has.
  - now apply IH.
Qed.

Lemma plan_update_get (pl : plan) (p : list key)
  (xs : list (list key)) :
  exists s,
    dict_get path_eqb p (plan_update pl p xs) = Some (set_update s xs)
    /\ (forall s0, dict_get path_eqb p pl = Some s0 -> s = s0).
Proof.
  unfold plan_update, dict_has.
  destruct (dict_get path_eqb p pl) as [s0|] eqn:E.
  - rewrite E. exists s0.
    rewrite (dict_get_set_same path_eqb path_eqb_eq).
    split; [reflexivity | now intros ? [= ->]].
  - rewrite (dict_get_set_same path_eqb path_eqb_eq). exists [].
    rewrite (dict_set_set path_eqb path_eqb_eq).
    rewrite (dict_get_set_same path_eqb path_eqb_eq).
    split; [reflexivity | discriminate].
Qed.

Lemma plan_update_other (pl : plan) (p p' : list key)
  (xs : list (list key)) :
  path_eqb p' p = false ->
  dict_get path_eqb p' (plan_update pl p xs) = dict_get path_eqb p' pl.
Proof.
  intros Hne. unfold plan_update, dict_has.
  destruct (dict_get path_eqb p pl) as [s0|] eqn:E.
  - rewrite E. now apply (dict_get_set_other path_eqb path_eqb_eq).
  - rewrite (dict_get_set_same path_eqb path_eqb_eq).
    rewrite (dict_set_set path_eqb path_eqb_eq).
    now apply (dict_get_set_other path_eqb path_eqb_eq).
Qed.

Lemma plan_update_keeps (pl : plan) (p : list key)
  (xs : list (list key)) (p' q : list key) :
  plan_has pl p' q -> plan_has (plan_update pl p xs) p' q.
Proof.
  intros (s & Hs & Hq). unfold plan_has.
  destruct (path_eqb p' p) eqn:E.
  - apply path_eqb_eq in E. subst p'.
    destruct (plan_update_get pl p xs) as (s1 & H1 & H2).
    rewrite (H2 s Hs) in H1. exists (set_update s xs).
    split; [exact H1 | now apply set_update_keeps].
  - exists s. now rewrite (plan_update_other pl p p' xs E).
Qed.

Lemma plan_update_adds (pl : plan) (p : list key)
  (xs : list (list key)) (q : list key) :
  In q xs -> plan_has (plan_update pl p xs) p q.
Proof.
  intros Hin. destruct (plan_update_get pl p xs) as (s1 & H1 & _).
  exists (set_update s1 xs). split; [exact H1 | now apply set_update_has].
Qed.

Lemma plan_walk_keeps (keys_left : list key) :
  forall (pl : plan) (so_far p' q : list key),
    plan_has pl p' q -> plan_has (plan_walk pl so_far keys_left) p' q.
Proof.
  induction keys_left as [|k rest IH]; intros pl so_far p' q H;
    [exact H|].
  simpl. apply IH, plan_update_keeps, H.
Qed.

Lemma to_add_prefix (q rest : list key) :
  q <> [] -> In q (to_add (q ++ rest)).
Proof.
  revert rest. induction q as [|k q IH]; intros rest Hq; [contradiction|].
  simpl. destruct q as [|k' q'].
  - now left.
  - right. apply in_map. apply IH. discriminate.
Qed.

(** Walking down a path records, at each node on the way, everything
    that lies between the node and the end of the path. *)
Lemma plan_walk_has (a : list key) :
  forall (pl : plan) (so_far q rest : list key),
    q <> [] ->
    plan_has (plan_walk pl so_far (a ++ q ++ rest)) (so_far ++ a) q.
Proof.
  induction a as [|k a IH]; intros pl so_far q rest Hq.
  - rewrite app_nil_r. simpl app.
    destruct q as [|k q']; [contradiction|].
    cbn [app plan_walk]. apply plan_walk_keeps.
    apply plan_update_adds.
    apply (to_add_prefix (k :: q') rest). discriminate.
  - cbn [app plan_walk].
    replace (so_far ++ k :: a) with ((so_far ++ [k]) ++ a)
      by (now rewrite <- app_assoc).
    apply IH, Hq.
Qed.

Lemma build_plan_keeps (strs : list string) :
  forall (pl : plan) (p q : list key),
    plan_has pl p q ->
    plan_has (fold_left
                (fun dispatch_plan key_path_str =>
                   plan_walk dispatch_plan []
                             (_str_to_dict_path (Str key_path_str)))
                strs pl) p q.
Proof.
  induction strs as [|s strs IH]; intros pl p q H; [exact H|].
  simpl. apply IH, plan_walk_keeps, H.
Qed.

(** A change at any depth below [q], or of [q] itself, is known at
    every node above [q]. *)
Lemma build_plan_has (strs : list string) (s : string)
  (p q rest : list key) :
  In s strs ->
  _str_to_dict_path (Str s) = p ++ q ++ rest ->
  q <> [] ->
  plan_has (_build_dispatch_plan strs) p q.
Proof.
  unfold _build_dispatch_plan. generalize (@nil (list key * list (list key))).
  induction strs as [|s0 strs IH]; intros pl Hin Hs Hq; [contradiction|].
  cbn [fold_left]. destruct Hin as [->|Hin].
  - apply build_plan_keeps. rewrite Hs.
    apply (plan_walk_has p pl [] q rest Hq).
  - now apply IH.
Qed.

(** The nodes of a plan are pairwise distinct. *)
Lemma dict_set_nodup {A : Type} (k : list key) (v : A)
  (d : list (list key * A)) :
  NoDup (dict_keys d) -> NoDup (dict_keys (dict_set path_eqb k v d)).
Proof.
  intros H. destruct (dict_has path_eqb k d) eqn:E.
  - now rewrite (dict_keys_set_present path_eqb k v d E).
  - rewrite (dict_keys_set_absent path_eqb k v d E).
    apply NoDup_app; [exact H | repeat constructor; intros [] |].
    intros x Hx [<-|[]].
    apply (dict_has_in path_eqb path_eqb_eq) in Hx. congruence.
Qed.

Lemma plan_update_nodup (pl : plan) (p : list key)
  (xs : list (list key)) :
  NoDup (dict_keys pl) -> NoDup (dict_keys (plan_update pl p xs)).
Proof.
  intros H. unfold plan_update.
  destruct (dict_has path_eqb p pl).
  - destruct (dict_get path_eqb p pl); [now apply dict_set_nodup | exact H].
  - destruct (dict_get path_eqb p (dict_set path_eqb p [] pl));
      now repeat apply dict_set_nodup.
Qed.

Lemma plan_walk_nodup (keys_left : list key) :
  forall (pl : plan) (so_far : list key),
    NoDup (dict_keys pl) ->
    NoDup (dict_keys (plan_walk pl so_far keys_left)).
Proof.
  induction keys_left as [|k rest IH]; intros pl so_far H; [exact H|].
  simpl. apply IH, plan_update_nodup, H.
Qed.

Lemma build_plan_nodup (strs : list string) :
  NoDup (dict_keys (_build_dispatch_plan strs)).
Proof.
  unfold _build_dispatch_plan.
  assert (G : forall pl : plan, NoDup (dict_keys pl) ->
    NoDup (dict_keys
             (fold_left
                (fun dispatch_plan key_path_str =>
                   plan_walk dispatch_plan []
                             (_str_to_dict_path (Str key_path_str)))
                strs pl))).
  { induction strs as [|s strs IH]; intros pl H; [exact H|].
    simpl. apply IH, plan_walk_nodup, H. }
  apply G. constructor.
Qed.

End PlanFacts.

Section CallbackFacts.
Context {V : Validators}.

Lemma fired_app (cb : nat) (a b : list event) :
  (fired cb (a ++ b) = fired cb a + fired cb b)%nat.
Proof. unfold fired. now rewrite filter_app, length_app. Qed.

Lemma fired_flat_map {A : Type} (cb : nat) (g : A -> list event)
  (l : list A) :
  fired cb (flat_map g l) = list_sum (map (fun x => fired cb (g x)) l).
Proof.
  induction l as [|x l IH]; [reflexivity|].
  simpl. now rewrite fired_app, IH.
Qed.

Lemma fired_callbacks (cb : nat) (self : node) (args : list arg)
  (cbs : list nat) :
  fired cb (map (fun c => Callback c self args) cbs)
  = length (filter (fun c => Nat.eqb c cb) cbs).
Proof.
  unfold fired. induction cbs as [|c cbs IH]; [reflexivity|].
  simpl. destruct (Nat.eqb c cb); simpl; now rewrite IH.
Qed.

Lemma filter_registrations (cb : nat) (n : node) (ps : list (list key))
  (q : node * list (list key) * nat -> bool) (cbs : list nat) :
  length (filter (fun t => has_callback cb t && q t)
                 (map (fun c => (n, ps, c)) cbs))
  = if q (n, ps, cb) then length (filter (fun c => Nat.eqb c cb) cbs)
    else 0%nat.
Proof.
  induction cbs as [|c cbs IH]; simpl; [now destruct (q (n, ps, cb))|].
  unfold has_callback at 1. simpl.
  destruct (Nat.eqb c cb) eqn:E; simpl.
  - apply Nat.eqb_eq in E. subst c.
    destruct (q (n, ps, cb)) eqn:Eq; simpl; rewrite IH, ?Eq; reflexivity.
  - exact IH.
Qed.

(** The calls of [cb] a node makes, counted on its registrations. *)
Lemma fired_entries (cb : nat) (n : node) (changed : list (list key))
  (f : Figure) (reg : list (list (list key) * list nat)) :
  fired cb (flat_map (entry_events n changed f) reg)
  = length (filter (fun t => has_callback cb t
                             && intersects changed (snd (fst t)))
                   (registrations_of n reg)).
Proof.
  unfold registrations_of.
  induction reg as [|[ps cbs] reg IH]; [reflexivity|].
  simpl. rewrite fired_app, filter_app, length_app, IH. f_equal.
  rewrite (filter_registrations cb n ps
             (fun t => intersects changed (snd (fst t)))).
  simpl. destruct (intersects changed ps); [|reflexivity].
  destruct (owner_props (fst n) f). apply fired_callbacks.
Qed.

Lemma filter_and {A : Type} (a b : A -> bool) (l : list A) :
  filter (fun x => a x && b x) l = filter b (filter a l).
Proof.
  induction l as [|x l IH]; [reflexivity|].
  simpl. destruct (a x); simpl; [destruct (b x)|]; now rewrite IH.
Qed.

(** A callback registered once is called by its node alone, once if
    the changed paths meet its paths. *)
Lemma fired_node (f : Figure) (cb : nat) (self : node)
  (ps : list (list key)) (n : node) (changed : list (list key)) :
  registered_once f cb self ps ->
  fired cb (node_events n changed f)
  = if node_eqb n self && intersects changed ps then 1%nat else 0%nat.
Proof.
  intros [[reg0 Hself] Hreg]. unfold node_events.
  destruct (dict_get node_eqb n (_change_callbacks f)) as [reg|] eqn:E.
  - rewrite fired_entries, filter_and, (Hreg n reg E).
    destruct (node_eqb n self); [|reflexivity].
    simpl. now destruct (intersects changed ps).
  - destruct (node_eqb n self) eqn:En; [|reflexivity].
    apply node_eqb_eq in En. subst n. congruence.
Qed.

(** The call of a callback registered once comes from its node, with
    the values of its paths read in the figure as it is. *)
Lemma callback_args (f : Figure) (cb : nat) (self : node)
  (ps : list (list key)) (n self' : node) (changed : list (list key))
  (args : list arg) :
  registered_once f cb self ps ->
  In (Callback cb self' args) (node_events n changed f) ->
  n = self /\ self' = self
  /\ args = map (node_getitem self (fst (owner_props (fst self) f))
                              (snd (owner_props (fst self) f))) ps.
Proof.
  intros [_ Hreg]. unfold node_events.
  destruct (dict_get node_eqb n (_change_callbacks f)) as [reg|] eqn:E;
    [|contradiction].
  specialize (Hreg n reg E). intros Hin.
  apply in_flat_map in Hin as ([ps' cbs'] & Hentry & Hin).
  unfold entry_events in Hin.
  destruct (intersects changed ps'); [|contradiction].
  destruct (owner_props (fst n) f) as [p dflt] eqn:Eo.
  apply in_map_iff in Hin as (c & Hc & Hcin).
  injection Hc as -> <- <-.
  assert (Ht : In (n, ps', cb)
                  (filter (has_callback cb) (registrations_of n reg))).
  { apply filter_In. split.
    - unfold registrations_of. apply in_flat_map.
      exists (ps', cbs'). split; [exact Hentry|].
      apply in_map_iff. now exists cb.
    - unfold has_callback. simpl. apply Nat.eqb_refl. }
  rewrite Hreg in Ht. destruct (node_eqb n self); [|contradiction].
  destruct Ht as [Ht|[]]. injection Ht as <- <-.
  rewrite Eo. auto.
Qed.

Lemma plan_sum (pl : plan) (p : list key) (g : list (list key) -> bool) :
  NoDup (dict_keys pl) ->
  list_sum (map (fun '(p', c) =>
                   if path_eqb p p' && g c then 1%nat else 0%nat) pl)
  = match dict_get path_eqb p pl with
    | Some c => if g c then 1%nat else 0%nat
    | None => 0%nat
    end.
Proof.
  induction pl as [|[p' c] pl IH]; intros Hnd; [reflexivity|].
  cbn [dict_keys map fst] in Hnd. inversion Hnd as [|? ? Hnotin Hnd'].
  subst. simpl. destruct (path_eqb p p') eqn:E.
  - apply path_eqb_eq in E. subst p'. simpl.
    assert (Hz : list_sum
                   (map (fun '(p', c0) =>
                           if path_eqb p p' && g c0 then 1%nat else 0%nat)
                        pl) = 0%nat).
    { rewrite (IH Hnd').
      destruct (dict_get path_eqb p pl) eqn:Eg; [|reflexivity].
      exfalso. apply Hnotin.
      apply (dict_has_in path_eqb path_eqb_eq). unfold dict_has.
      now rewrite Eg. }
    rewrite Hz. lia.
  - simpl. now apply IH.
Qed.

Lemma path_eqb_sym (p q : list key) : path_eqb p q = path_eqb q p.
Proof.
  destruct (path_eqb p q) eqn:E1, (path_eqb q p) eqn:E2; try reflexivity.
  - apply path_eqb_eq in E1. subst.
    now rewrite (proj2 (path_eqb_eq q q) eq_refl) in E2.
  - apply path_eqb_eq in E2. subst.
    now rewrite (proj2 (path_eqb_eq p p) eq_refl) in E1.
Qed.

(** One dispatch of layout changes: a callback registered once on a
    layout node is called once if the changes at its node meet its
    paths, and not at all otherwise. *)
Lemma fired_layout (f : Figure) (cb : nat) (p : list key)
  (ps : list (list key)) (changes : edits) :
  registered_once f cb (Layout, p) ps ->
  fired cb (layout_events changes f) = fires changes p ps.
Proof.
  intros Hreg. unfold layout_events, fires.
  rewrite fired_flat_map.
  rewrite <- (plan_sum _ p (fun c => intersects c ps)
                (build_plan_nodup (dict_keys changes))).
  f_equal. apply map_ext. intros [p' c].
  rewrite (fired_node f cb (Layout, p) ps (Layout, p') c Hreg).
  unfold node_eqb. simpl. now rewrite (path_eqb_sym p' p).
Qed.

Lemma fired_traces_at_node (f : Figure) (cb : nat) (o : nat)
  (p : list key) (ps : list (list key)) (p' : list key)
  (c : list (list key)) (traces : list nat) :
  registered_once f cb (Trace o, p) ps ->
  fired cb (flat_map (fun trace => node_events (Trace trace, p') c f)
                     traces)
  = (count_occ Nat.eq_dec traces o
     * (if path_eqb p p' && intersects c ps then 1 else 0))%nat.
Proof.
  intros Hreg. induction traces as [|t traces IH]; [reflexivity|].
  cbn [flat_map]. rewrite fired_app, IH.
  rewrite (fired_node f cb (Trace o, p) ps (Trace t, p') c Hreg).
  unfold node_eqb. cbn [fst snd owner_eqb].
  rewrite (path_eqb_sym p' p). simpl count_occ.
  destruct (Nat.eq_dec t o) as [->|Hne].
  - rewrite Nat.eqb_refl. simpl. lia.
  - apply Nat.eqb_neq in Hne. rewrite Hne. simpl. lia.
Qed.

(** One dispatch of trace changes: a callback registered once on a node
    of a trace is called as often as the trace is targeted, if the
    changes at its node meet its paths, and not at all otherwise. *)
Lemma fired_traces (f : Figure) (cb : nat) (o : nat) (p : list key)
  (ps : list (list key)) (changes : edits) (traces : list nat) :
  registered_once f cb (Trace o, p) ps ->
  fired cb (trace_events changes traces f)
  = (count_occ Nat.eq_dec traces o * fires changes p ps)%nat.
Proof.
  intros Hreg. unfold trace_events, fires.
  rewrite fired_flat_map.
  rewrite <- (plan_sum _ p (fun c => intersects c ps)
                (build_plan_nodup (dict_keys changes))).
  induction (_build_dispatch_plan (dict_keys changes)) as [|[p' c] pl IH];
    [simpl; lia|].
  assert (Hc : forall a l, list_sum (a :: l) = (a + list_sum l)%nat)
    by reflexivity.
  rewrite !map_cons, !Hc, IH.
  rewrite (fired_traces_at_node f cb o p ps p' c traces Hreg). ring.
Qed.

Lemma intersects_has (changed ps : list (list key)) (q : list key) :
  existsb (path_eqb q) changed = true -> In q ps ->
  intersects changed ps = true.
Proof.
  intros Hc Hp. unfold intersects.
  apply existsb_exists in Hc as (x & Hx & He).
  apply path_eqb_eq in He. subst x.
  apply existsb_exists. exists q. split; [exact Hx|].
  apply existsb_exists. exists q. split; [exact Hp|].
  now apply path_eqb_eq.
Qed.

(** A change of a registered path, or below it at any depth, makes the
    registration fire. *)
Lemma fires_below (changes : edits) (k : string) (p q rest : list key)
  (ps : list (list key)) :
  In k (dict_keys changes) ->
  _str_to_dict_path (Str k) = p ++ q ++ rest ->
  q <> [] -> In q ps ->
  fires changes p ps = 1%nat.
Proof.
  intros Hk Hpath Hq Hin. unfold fires.
  destruct (build_plan_has (dict_keys changes) k p q rest Hk Hpath Hq)
    as (s & Hs & Hqs).
  rewrite Hs. now rewrite (intersects_has s ps q Hqs Hin).
Qed.

End CallbackFacts.

(** C5: a callback registered with [on_change] is to be called at most
    once in one restyle, relayout or update.  The code calls it twice in
    one restyle when the trace indexes name its trace twice: the dispatch
    loops over the trace indexes as they are given.  Here the callback
    watches [x] on the trace itself, and the restyle sets [x]. *)
Theorem callback_fires_twice :
  let f := on_change (Trace 0, []) 7 [Str "x"] false
             (@new_figure any_schema [[(KStr "uid", VStr "a")]] []) in
  exists f',
    plotly_restyle [("x", VInt 1)] (TI_List [0; 0]) None f = (f', OK tt)
    /\ map fst (log f')
       = [@Send_restyle any_schema [("x", VInt 1)] (TI_List [0; 0]) None;
          @Dispatch_trace_change_callbacks any_schema [("x", VInt 1)] [0; 0];
          @Callback any_schema 7 (Trace 0, []) [OK (VInt 1)];
          @Callback any_schema 7 (Trace 0, []) [OK (VInt 1)]]
    /\ fired 7 (map fst (log f')) = 2%nat.
Proof.
  cbv zeta. eexists. split; [cbv; reflexivity|]. split; reflexivity.
Qed.

(** What does hold of the dispatch: one dispatch at a node calls every
    callback of every registration whose paths meet the changed paths,
    once, with the node and the values of the registered paths read in
    the figure as it then is.  In one dispatch of layout changes a
    callback registered once is called once if the changes at its node
    meet its paths and not at all otherwise.  A change of a registered
    path, or below it at any depth, makes the registration fire. *)
Lemma layout_callbacks_fire_once {V : Validators} :
  (forall (self : node) (changed : list (list key)) (f : Figure),
     _dispatch_change_callbacks self changed f
     = (logged f (node_events self changed f), OK tt))
  /\ (forall (changes : edits) (f : Figure) (cb : nat) (p : list key)
             (ps : list (list key)),
        registered_once f cb (Layout, p) ps ->
        _dispatch_layout_change_callbacks changes f
        = (logged f (Dispatch_layout_change_callbacks changes
                       :: layout_events changes f), OK tt)
        /\ fired cb (layout_events changes f) = fires changes p ps
        /\ (fires changes p ps <= 1)%nat)
  /\ (forall (f : Figure) (cb : nat) (self n self' : node)
             (ps : list (list key)) (changed : list (list key))
             (args : list arg),
        registered_once f cb self ps ->
        In (Callback cb self' args) (node_events n changed f) ->
        n = self /\ self' = self
        /\ args = map (node_getitem self (fst (owner_props (fst self) f))
                                    (snd (owner_props (fst self) f))) ps)
  /\ (forall (changes : edits) (k : string) (p q rest : list key)
             (ps : list (list key)),
        In k (dict_keys changes) ->
        _str_to_dict_path (Str k) = p ++ q ++ rest ->
        q <> [] -> In q ps ->
        fires changes p ps = 1%nat).
Proof.
  assert (Hle : forall changes p ps, (fires changes p ps <= 1)%nat).
  { intros changes p ps. unfold fires.
    destruct (dict_get path_eqb p _) as [c|]; [|lia].
    destruct (intersects c ps); lia. }
  split; [|split; [|split]].
  - intros self changed f.
    rewrite <- (logged_nil f) at 1.
    now rewrite dispatch_node_logged.
  - intros changes f cb p ps Hreg. split; [apply dispatch_layout_logged|].
    split; [now apply fired_layout | apply Hle].
  - intros f cb self n self' ps changed args. apply callback_args.
  - intros changes k p q rest ps. apply fires_below.
Qed.

(** A callback that watches [xaxis.range] on the layout is called once
    when both ends of the range change in one relayout. *)
Example xaxis_range_fires_once :
  let f := on_change (Layout, []) 7 [Str "xaxis.range"] false
             (@new_figure any_schema [] []) in
  let changes := [("xaxis.range[0]", VInt 0); ("xaxis.range[1]", VInt 5)] in
  registered_once f 7 (Layout, []) [[KStr "xaxis"; KStr "range"]]
  /\ fired 7 (layout_events changes f) = 1%nat.
Proof.
  cbv zeta.
  assert (Hreg : registered_once
                   (on_change (Layout, []) 7 [Str "xaxis.range"] false
                      (@new_figure any_schema [] []))
                   7 (Layout, []) [[KStr "xaxis"; KStr "range"]]).
  { split.
    - eexists. reflexivity.
    - intros n registered. cbn.
      destruct (node_eqb n (Layout, [])) eqn:E; [|discriminate].
      apply node_eqb_eq in E. subst n.
      intros [= <-]. reflexivity. }
  split; [exact Hreg|].
  destruct (@layout_callbacks_fire_once any_schema) as (_ & H & _).
  destruct (H [("xaxis.range[0]", VInt 0); ("xaxis.range[1]", VInt 5)]
              _ 7%nat [] [[KStr "xaxis"; KStr "range"]] Hreg)
    as (_ & Hf & _).
  rewrite Hf. reflexivity.
Defined.

(* ------------------------------------------------------------------ *)
(** ** More on key paths *)

Module PathShape.

Lemma split_dot_nonempty (s : string) : PyStr.split_dot s <> [].
Proof.
induction s as [|c s IH]; simpl; [discriminate|].
destruct (Ascii.eqb c "."); [discriminate|].
destruct (PyStr.split_dot s); discriminate.
Qed.

Lemma split_dot_no_dot (s : string) :
Forall (fun piece => has_char "." piece = false) (PyStr.split_dot s).
Proof.
induction s as [|c s IH]; simpl.
- constructor; [reflexivity | constructor].
- destruct (Ascii.eqb c ".") eqn:E.
  + constructor; [reflexivity | exact IH].
  + destruct (PyStr.split_dot s) as [|h t]; constructor.
    * unfold has_char. simpl. now rewrite E.
    * constructor.
    * inversion IH; subst. unfold has_char in *. simpl. now rewrite E.
    * now inversion IH.
Qed.

(** [str.split] undoes a join on the separator. *)
Lemma split_dot_join (a b : string) :
PyStr.split_dot (a ++ "." ++ b)
= PyStr.split_dot a ++ PyStr.split_dot b.
Proof.
induction a as [|c a IH]; [reflexivity|].
change (String c a ++ "." ++ b)%string with (String c (a ++ "." ++ b)).
cbn [PyStr.split_dot]. rewrite IH.
destruct (Ascii.eqb c "."); [reflexivity|].
pose proof (split_dot_nonempty a) as Hne.
destruct (PyStr.split_dot a) as [|h t]; [contradiction|]. reflexivity.
Qed.

Lemma split_brackets_app (l1 l2 : list string) :
split_brackets (l1 ++ l2) = split_brackets l1 ++ split_brackets l2.
Proof.
induction l1 as [|k l1 IH]; [reflexivity|].
cbn [app split_brackets]. rewrite IH.
now destruct (PyStr.bracket_fullmatch k) as [[name idx]|].
Qed.

Lemma split_brackets_nonempty (l : list string) :
l <> [] -> split_brackets l <> [].
Proof.
destruct l as [|k l]; [contradiction|]. intros _. cbn [split_brackets].
destruct (PyStr.bracket_fullmatch k) as [[name idx]|]; discriminate.
Qed.

Lemma span_app (p : ascii -> bool) (cs a b : list ascii) :
PyStr.span p cs = (a, b) -> cs = a ++ b.
Proof.
revert a b. induction cs as [|c cs IH]; intros a b; simpl.
- now intros [= <- <-].
- destruct (p c).
  + destruct (PyStr.span p cs) as [a' b'] eqn:E. intros [= <- <-].
    simpl. f_equal. now apply IH.
  + now intros [= <- <-].
Qed.

Lemma span_all (p : ascii -> bool) (cs a b : list ascii) :
PyStr.span p cs = (a, b) -> forallb p a = true.
Proof.
revert a b. induction cs as [|c cs IH]; intros a b; simpl.
- now intros [= <- <-].
- destruct (p c) eqn:Ec.
  + destruct (PyStr.span p cs) as [a' b'] eqn:E. intros [= <- <-].
    simpl. rewrite Ec. now apply (IH a' b').
  + now intros [= <- <-].
Qed.

(** What the bracket pattern matches: the key is group 1, an opening
  bracket, the digits of group 2 and a closing bracket. *)
Lemma bracket_fullmatch_shape (key name idx : string) :
PyStr.bracket_fullmatch key = Some (name, idx) ->
key = (name ++ "[" ++ idx ++ "]")%string
/\ idx <> ""%string
/\ forallb PyStr.is_digit (list_ascii_of_string idx) = true.
Proof.
unfold PyStr.bracket_fullmatch.
destruct (rev (list_ascii_of_string key)) as [|c r] eqn:Er;
  [discriminate|].
destruct (Ascii.eqb c "]") eqn:Ec; [|discriminate].
apply Ascii.eqb_eq in Ec. subst c.
destruct (PyStr.span PyStr.is_digit r) as [[|d ds] [|o p]] eqn:Es;
  try discriminate.
destruct (Ascii.eqb o "[") eqn:Eo; [|discriminate].
apply Ascii.eqb_eq in Eo. subst o.
destruct (negb (existsb PyStr.is_newline p)); [|discriminate].
cbn [andb]. intros [= <- <-].
pose proof (span_app _ _ _ _ Es) as Hr.
pose proof (span_all _ _ _ _ Es) as Hd.
assert (Hk : list_ascii_of_string key
             = rev p ++ "["%char :: rev (d :: ds) ++ ["]"%char]).
{ rewrite <- (rev_involutive (list_ascii_of_string key)), Er, Hr.
  cbn [rev]. rewrite rev_app_distr. cbn [rev].
  repeat rewrite <- app_assoc. reflexivity. }
split; [|split].
- rewrite <- (string_of_list_ascii_of_string key), Hk.
  rewrite <- (list_ascii_of_string_of_list_ascii (rev p)) at 1.
  rewrite <- (list_ascii_of_string_of_list_ascii (rev (d :: ds))) at 1.
  change ("["%char :: ?x) with (list_ascii_of_string "[" ++ x).
  change ["]"%char] with (list_ascii_of_string "]").
  rewrite <- !PathFacts.chars_app.
  now rewrite string_of_list_ascii_of_string.
- intros H. apply (f_equal list_ascii_of_string) in H.
  rewrite list_ascii_of_string_of_list_ascii in H. cbn [rev] in H.
  destruct (rev ds); discriminate.
- rewrite list_ascii_of_string_of_list_ascii.
  rewrite forallb_forall in *. intros x Hx. apply Hd.
  now apply in_rev.
Qed.

Lemma split_brackets_no_dot (l : list string) :
Forall (fun piece => has_char "." piece = false) l ->
Forall (fun piece => has_char "." piece = false) (split_brackets l).
Proof.
induction 1 as [|k l Hk Hl IH]; [constructor|].
cbn [split_brackets].
destruct (PyStr.bracket_fullmatch k) as [[name idx]|] eqn:E.
- destruct (bracket_fullmatch_shape _ _ _ E) as (-> & _ & _).
  rewrite !PathFacts.has_char_app in Hk.
  apply orb_false_iff in Hk. destruct Hk as [Hn Hk].
  apply orb_false_iff in Hk. destruct Hk as [_ Hk].
  apply orb_false_iff in Hk. destruct Hk as [Hi _].
  repeat constructor; assumption.
- now constructor.
Qed.

Lemma parse_join (a b : string) :
_str_to_dict_path (Str (a ++ "." ++ b))
= _str_to_dict_path (Str a) ++ _str_to_dict_path (Str b).
Proof.
unfold _str_to_dict_path.
now rewrite split_dot_join, split_brackets_app, map_app.
Qed.

Lemma split_dot_single (s x : string) :
PyStr.split_dot s = [x] -> x = s.
Proof.
revert x. induction s as [|c s IH]; intros x; cbn [PyStr.split_dot].
- now intros [= <-].
- destruct (Ascii.eqb c ".").
  + pose proof (split_dot_nonempty s).
    destruct (PyStr.split_dot s); [contradiction | discriminate].
  + destruct (PyStr.split_dot s) as [|h t] eqn:E.
    * exfalso. exact (split_dot_nonempty s E).
    * intros [= <- ->]. now rewrite (IH h eq_refl).
Qed.

(** The key path of a string that is one name is that string. *)
Lemma parse_single_name (s q : string) :
_str_to_dict_path (Str s) = [KStr q] ->
q = s /\ PyStr.split_dot s = [s] /\ PyStr.bracket_fullmatch s = None
/\ PyStr.int s = None.
Proof.
unfold _str_to_dict_path.
destruct (PyStr.split_dot s) as [|x [|y l]] eqn:E; cbn [split_brackets].
- discriminate.
- pose proof (split_dot_single _ _ E) as ->.
  destruct (PyStr.bracket_fullmatch s) as [[name idx]|]; [discriminate|].
  cbn [map]. unfold to_key.
  destruct (PyStr.int s); [discriminate|]. now intros [= <-].
- destruct (PyStr.bracket_fullmatch x) as [[name idx]|];
    destruct (PyStr.bracket_fullmatch y) as [[name' idx']|];
    discriminate.
Qed.

End PathShape.

(** X1: the key path of a string is never empty, and no property name in
    it contains a dot. *)
Theorem str_to_dict_path_of_string (key_path_str : string) :
  _str_to_dict_path (Str key_path_str) <> []
  /\ Forall (fun k => match k with
                      | KStr name => has_char "." name = false
                      | KInt _ => True
                      end)
            (_str_to_dict_path (Str key_path_str)).
Proof.
  unfold _str_to_dict_path. split.
  - intros H. apply map_eq_nil in H.
    exact (PathShape.split_brackets_nonempty _
             (PathShape.split_dot_nonempty key_path_str) H).
  - pose proof (PathShape.split_brackets_no_dot _
                  (PathShape.split_dot_no_dot key_path_str)) as H.
    induction H as [|k l Hk Hl IH]; [constructor|].
    cbn [map]. constructor; [|exact IH].
    unfold to_key. now destruct (PyStr.int k).
Qed.

(** X2: the key path of two key path strings joined by a dot is the key
    path of the first followed by the key path of the second. *)
Theorem str_to_dict_path_join (a b : string) :
  _str_to_dict_path (Str (a ++ "." ++ b))
  = _str_to_dict_path (Str a) ++ _str_to_dict_path (Str b).
Proof. exact (PathShape.parse_join a b). Qed.

(* ------------------------------------------------------------------ *)
(** ** [_index_is] and [_is_key_path_compatible] *)

Lemma index_is_spec (iterable : list nat) (val : nat) :
  match _index_is iterable val with
  | Some i =>
      nth_error iterable i = Some val
      /\ forall j, (j < i)%nat -> nth_error iterable j <> Some val
  | None => ~ In val iterable
  end.
Proof.
  induction iterable as [|x t IH]; cbn [_index_is]; [intros []|].
  destruct (Nat.eqb x val) eqn:E.
  - apply Nat.eqb_eq in E. subst x. split; [reflexivity|].
    intros j Hj. lia.
  - apply Nat.eqb_neq in E.
    destruct (_index_is t val) as [i|]; cbn [option_map].
    + destruct IH as [Hi Hfirst]. split; [exact Hi|].
      intros [|j] Hj; cbn [nth_error].
      * intros [= H]. contradiction.
      * apply Hfirst. lia.
    + intros [H|H]; [contradiction | now apply IH].
Qed.

Lemma index_is_nth (iterable : list nat) (val : nat) (i : nat) :
  _index_is iterable val = Some i ->
  nth_error iterable i = Some val /\ (i < length iterable)%nat.
Proof.
  intros H. pose proof (index_is_spec iterable val) as S.
  rewrite H in S. destruct S as [S _]. split; [exact S|].
  apply nth_error_Some. congruence.
Qed.

(** X3: [_index_is] returns the first position that holds the object
    itself, and raises (here [None]) exactly when no position does. *)
Theorem index_is_first (iterable : list nat) (val : nat) :
  match _index_is iterable val with
  | Some i =>
      nth_error iterable i = Some val
      /\ forall j, (j < i)%nat -> nth_error iterable j <> Some val
  | None => ~ In val iterable
  end.
Proof. exact (index_is_spec iterable val). Qed.

(** X4: a trailing index does not count for compatibility: for a path of
    plain names and indexes that ends in an index, the path string is
    compatible exactly when the path without that last index is in the
    object; a path that ends in a name is looked up whole. *)
Theorem key_path_compatible_ignores_last_index
  (contains : list key -> bool) (p : list key) (i : Z) :
  plain_path (p ++ [KInt i]) = true ->
  _is_key_path_compatible (serialize (p ++ [KInt i])) contains = contains p.
Proof.
  intros Hp. unfold _is_key_path_compatible, _str_to_dict_path, serialize.
  assert (Hne : p ++ [KInt i] <> []) by (now destruct p).
  unfold plain_path in Hp.
  destruct (p ++ [KInt i]) as [|k q] eqn:E; [contradiction|].
  rewrite (PathFacts.parse_serialize_plain (length (k :: q)) (k :: q)
             (le_n _) Hne Hp).
  rewrite <- E. rewrite last_last, removelast_last. reflexivity.
Qed.

Lemma key_path_compatible_ignores_last_index_witness :
  plain_path ([KStr "xaxis"; KStr "range"] ++ [KInt 1]) = true
  /\ _is_key_path_compatible "xaxis.range[1]"
       (path_eqb [KStr "xaxis"; KStr "range"])
     = true.
Proof.
  split; [reflexivity|].
  exact (key_path_compatible_ignores_last_index
           (path_eqb [KStr "xaxis"; KStr "range"])
           [KStr "xaxis"; KStr "range"] 1 eq_refl).
Defined.

(* ------------------------------------------------------------------ *)
(** ** What a dispatch plan holds *)

Section PlanSound.

Lemma set_add_inv (q x : list key) (s : list (list key)) :
existsb (path_eqb q) (set_add x s) = true ->
q = x \/ existsb (path_eqb q) s = true.
Proof.
unfold set_add. destruct (existsb (path_eqb x) s); [now right|].
rewrite existsb_app. cbn [existsb]. rewrite orb_false_r.
intros H. apply orb_true_iff in H. destruct H as [H|H]; [now right|].
left. now apply path_eqb_eq.
Qed.

Lemma set_update_inv (q : list key) (xs : list (list key)) :
forall s, existsb (path_eqb q) (set_update s xs) = true ->
          In q xs \/ existsb (path_eqb q) s = true.
Proof.
unfold set_update. induction xs as [|x xs IH]; intros s H; cbn in H.
- now right.
- destruct (IH _ H) as [Hin|Hs]; [left; now right|].
  destruct (set_add_inv _ _ _ Hs) as [->|Hs']; [left; now left|now right].
Qed.

Lemma plan_update_get_set (pl : plan) (p : list key)
(xs : list (list key)) :
dict_get path_eqb p (plan_update pl p xs)
= Some (set_update match dict_get path_eqb p pl with
                   | Some s0 => s0
                   | None => []
                   end xs).
Proof.
unfold plan_update, dict_has.
destruct (dict_get path_eqb p pl) as [s0|] eqn:E.
- rewrite E. now rewrite (dict_get_set_same path_eqb path_eqb_eq).
- rewrite (dict_get_set_same path_eqb path_eqb_eq).
  rewrite (dict_set_set path_eqb path_eqb_eq).
  now rewrite (dict_get_set_same path_eqb path_eqb_eq).
Qed.

Lemma plan_update_inv (pl : plan) (p : list key) (xs : list (list key))
(p' q : list key) :
plan_has (plan_update pl p xs) p' q ->
plan_has pl p' q \/ (p' = p /\ In q xs).
Proof.
intros (s & Hs & Hq). destruct (path_eqb p' p) eqn:E.
- apply path_eqb_eq in E. subst p'.
  rewrite plan_update_get_set in Hs. injection Hs as <-.
  destruct (set_update_inv _ _ _ Hq) as [Hin|Hs1]; [now right|].
  destruct (dict_get path_eqb p pl) as [s0|] eqn:E0; [|discriminate].
  left. exists s0. now split.
- left. exists s. now rewrite <- (plan_update_other pl p p' xs E).
Qed.

Lemma to_add_inv (q keys_left : list key) :
In q (to_add keys_left) ->
q <> [] /\ exists rest, keys_left = q ++ rest.
Proof.
revert q. induction keys_left as [|k l IH]; intros q; [intros []|].
cbn [to_add]. intros [<-|Hin].
- split; [discriminate | now exists l].
- apply in_map_iff in Hin. destruct Hin as (q' & <- & Hq').
  destruct (IH _ Hq') as (_ & rest & ->).
  split; [discriminate | now exists rest].
Qed.

Lemma plan_walk_inv (keys_left : list key) :
forall (pl : plan) (so_far p' q : list key),
  plan_has (plan_walk pl so_far keys_left) p' q ->
  plan_has pl p' q
  \/ exists a rest,
       keys_left = a ++ q ++ rest /\ p' = so_far ++ a /\ q <> [].
Proof.
induction keys_left as [|k l IH]; intros pl so_far p' q H;
  [now left|].
cbn [plan_walk] in H.
destruct (IH _ _ _ _ H) as [H1|(a & rest & Hl & Hp & Hq)].
- destruct (plan_update_inv _ _ _ _ _ H1) as [H2|[-> Hin]];
    [now left|].
  right. destruct (to_add_inv _ _ Hin) as (Hq & rest & Hl).
  exists [], rest. now rewrite app_nil_r.
- right. exists (k :: a), rest. subst.
  now rewrite <- app_assoc.
Qed.

Lemma build_plan_inv (strs : list string) :
forall (pl : plan) (p q : list key),
  plan_has (fold_left
              (fun dispatch_plan key_path_str =>
                 plan_walk dispatch_plan []
                           (_str_to_dict_path (Str key_path_str)))
              strs pl) p q ->
  plan_has pl p q
  \/ exists s rest,
       In s strs /\ _str_to_dict_path (Str s) = p ++ q ++ rest
       /\ q <> [].
Proof.
induction strs as [|s strs IH]; intros pl p q H; [now left|].
cbn [fold_left] in H.
destruct (IH _ _ _ H) as [H1|(s' & rest & Hin & Hs & Hq)].
- destruct (plan_walk_inv _ _ _ _ _ H1) as [H2|(a & rest & Hl & -> & Hq)];
    [now left|].
  right. exists s, rest. split; [now left | now split].
- right. exists s', rest. split; [now right | now split].
Qed.

End PlanSound.

(** X5: the dispatch plan records, for a node at path [p], that the path
    [q] below it has changed exactly when [q] is not empty and some
    changed key path passes through [p] and then [q]; and it lists each
    node once. *)
Theorem dispatch_plan_characterized (key_path_strs : list string)
  (p q : list key) :
  (plan_has (_build_dispatch_plan key_path_strs) p q
   <-> exists s rest,
         In s key_path_strs
         /\ _str_to_dict_path (Str s) = p ++ q ++ rest /\ q <> [])
  /\ NoDup (dict_keys (_build_dispatch_plan key_path_strs)).
Proof.
  split; [split|apply build_plan_nodup].
  - intros H. destruct (build_plan_inv _ _ _ _ H) as [(s & Hs & _)|H'];
      [discriminate | exact H'].
  - intros (s & rest & Hin & Hs & Hq).
    exact (build_plan_has key_path_strs s p q rest Hin Hs Hq).
Qed.

(* ------------------------------------------------------------------ *)
(** ** The parameters built from a batch *)

Section SortedFacts.
Context {A : Type} (leb eqb : A -> A -> bool).
Hypothesis eqb_eq : forall a b, eqb a b = true <-> a = b.

Lemma insert_sorted_in (x y : A) (l : list A) :
In x (insert_sorted leb eqb y l) <-> x = y \/ In x l.
Proof.
induction l as [|z l IH]; cbn [insert_sorted].
- cbn. intuition.
- destruct (eqb y z) eqn:E.
  + apply eqb_eq in E. subst z. cbn. intuition.
  + destruct (leb y z); cbn; [intuition|].
    rewrite IH. intuition.
Qed.

Lemma sorted_set_in (x : A) (l : list A) :
In x (sorted_set leb eqb l) <-> In x l.
Proof.
unfold sorted_set. induction l as [|y l IH]; cbn [fold_right];
  [reflexivity|].
rewrite insert_sorted_in, IH. cbn. intuition.
Qed.

Lemma index_of_in (x : A) (l : list A) :
In x l -> exists i, index_of eqb x l = Some i /\ nth_error l i = Some x.
Proof.
induction l as [|y l IH]; [intros []|]. cbn [index_of].
destruct (eqb x y) eqn:E.
- apply eqb_eq in E. subst y. intros _. now exists O.
- intros [->|Hin].
  + rewrite (proj2 (eqb_eq x x) eq_refl) in E. discriminate.
  + destruct (IH Hin) as (i & -> & Hn). now exists (S i).
Qed.

Lemma index_of_nth (x : A) (l : list A) (i : nat) :
index_of eqb x l = Some i -> nth_error l i = Some x.
Proof.
revert i. induction l as [|y l IH]; intros i; [discriminate|].
cbn [index_of]. destruct (eqb x y) eqn:E.
- apply eqb_eq in E. subst y. now intros [= <-].
- destruct (index_of eqb x l) as [j|]; [|discriminate].
  intros [= <-]. now apply IH.
Qed.

End SortedFacts.

Lemma insert_sorted_increasing (y : Z) (l : list Z) :
  StronglySorted Z.lt l ->
  StronglySorted Z.lt (insert_sorted Z.leb Z.eqb y l).
Proof.
  induction 1 as [|z l Hl IH Hz]; cbn [insert_sorted].
  - repeat constructor.
  - destruct (Z.eqb_spec y z) as [->|Hne]; [now constructor|].
    destruct (Z.leb_spec y z) as [Hle|Hgt].
    + constructor; [now constructor|].
      constructor; [lia|].
      rewrite Forall_forall in *. intros x Hx. specialize (Hz x Hx). lia.
    + constructor; [exact IH|].
      rewrite Forall_forall in *. intros x Hx.
      apply (insert_sorted_in Z.leb Z.eqb Z.eqb_eq) in Hx.
      destruct Hx as [->|Hx]; [lia | now apply Hz].
Qed.

Lemma sorted_set_increasing (l : list Z) :
  StronglySorted Z.lt (sorted_set Z.leb Z.eqb l).
Proof.
  unfold sorted_set. induction l as [|y l IH]; cbn [fold_right].
  - constructor.
  - now apply insert_sorted_increasing.
Qed.

Lemma nth_error_list_update_same {A : Type} (n : nat) (x : A)
  (l : list A) :
  (n < length l)%nat -> nth_error (list_update n x l) n = Some x.
Proof.
  revert n. induction l as [|y l IH]; intros [|n] H; cbn in *;
    try lia; [reflexivity|]. apply IH. lia.
Qed.

Lemma nth_error_list_update_other {A : Type} (n m : nat) (x : A)
  (l : list A) :
  n <> m -> nth_error (list_update n x l) m = nth_error l m.
Proof.
  revert n m. induction l as [|y l IH]; intros [|n] [|m] H; cbn;
    try reflexivity; try lia. apply IH. lia.
Qed.

Section FillFacts.
Context {V : Validators}.

(** The value that [restyle_data] holds for the property [p] and the
  position [i] of the trace indexes. *)
Definition cell (restyle_data : edits) (p : string) (i : nat)
: option value :=
match dict_get String.eqb p restyle_data with
| Some (VList l) => nth_error l i
| _ => None
end.

(** Every value of [restyle_data] is a list of length [n]. *)
Definition lists_of_length (n : nat) (restyle_data : edits) : Prop :=
Forall (fun x => exists l, x = VList l /\ length l = n)
       (map snd restyle_data).

Lemma dict_get_in (p : string) (x : value) (d : edits) :
dict_get String.eqb p d = Some x -> In x (map snd d).
Proof.
induction d as [|[k y] d IH]; [discriminate|]. cbn.
destruct (String.eqb p k); [intros [= ->]; now left | right; auto].
Qed.

Lemma dict_set_values (Q : value -> Prop) (p : string) (x : value)
(d : edits) :
Forall Q (map snd d) -> Q x ->
Forall Q (map snd (dict_set String.eqb p x d)).
Proof.
intros Hd Hx. induction d as [|[k y] d IH]; cbn.
- now repeat constructor.
- cbn in Hd. inversion Hd; subst.
  destruct (String.eqb p k); cbn; constructor; auto.
Qed.

Lemma fill_in_keys (rd : edits) (p : string) (i : nat) (v : value) :
dict_keys (fill_in rd p i v) = dict_keys rd.
Proof.
unfold fill_in. destruct (dict_get String.eqb p rd) as [x|] eqn:E;
  [|reflexivity].
destruct x; try reflexivity.
apply (dict_keys_set_present String.eqb). unfold dict_has. now rewrite E.
Qed.

Lemma fill_in_lists (n : nat) (rd : edits) (p : string) (i : nat)
(v : value) :
lists_of_length n rd -> lists_of_length n (fill_in rd p i v).
Proof.
intros H. unfold fill_in.
destruct (dict_get String.eqb p rd) as [x|] eqn:E; [|exact H].
destruct x; try exact H.
apply dict_set_values; [exact H|].
apply dict_get_in in E. unfold lists_of_length in H.
rewrite Forall_forall in H. destruct (H _ E) as (l0 & [= <-] & Hlen).
eexists. split; [reflexivity|]. now rewrite length_list_update.
Qed.

Lemma cell_fill_same (rd : edits) (p : string) (i : nat) (v x : value) :
cell rd p i = Some x -> cell (fill_in rd p i v) p i = Some v.
Proof.
unfold cell, fill_in.
destruct (dict_get String.eqb p rd) as [[| | | | |l|]|] eqn:E;
  try discriminate.
intros H. rewrite (dict_get_set_same String.eqb String.eqb_eq).
apply nth_error_list_update_same. apply nth_error_Some. congruence.
Qed.

Lemma cell_fill_other (rd : edits) (p p' : string) (i i' : nat)
(v : value) :
p' <> p \/ i' <> i ->
cell (fill_in rd p i v) p' i' = cell rd p' i'.
Proof.
intros H. unfold cell, fill_in.
destruct (dict_get String.eqb p rd) as [[| | | | |l|]|] eqn:E;
  try reflexivity.
destruct (String.eqb p' p) eqn:Ep.
- apply String.eqb_eq in Ep. subst p'.
  rewrite (dict_get_set_same String.eqb String.eqb_eq), E.
  destruct H as [H|H]; [contradiction|].
  apply nth_error_list_update_other. congruence.
- now rewrite (dict_get_set_other String.eqb String.eqb_eq).
Qed.

(** The loop over the edits of one trace. *)
Definition fill_style (trace_indexes : list Z) (trace_ind : Z)
(trace_style : edits) (restyle_data : edits) : edits :=
fold_left
  (fun restyle_data '(trace_prop, trace_val) =>
     match index_of Z.eqb trace_ind trace_indexes with
     | Some restyle_trace_index =>
         fill_in restyle_data trace_prop restyle_trace_index trace_val
     | None => restyle_data
     end)
  trace_style restyle_data.

(** The loop over the traces of the batch. *)
Definition fill_batch (trace_indexes : list Z)
(batch_style_commands : list (Z * edits)) (restyle_data : edits)
: edits :=
fold_left
  (fun restyle_data '(trace_ind, trace_style) =>
     fill_style trace_indexes trace_ind trace_style restyle_data)
  batch_style_commands restyle_data.

Lemma fill_style_keys (idxs : list Z) (t : Z) (style : edits) :
forall rd, dict_keys (fill_style idxs t style rd) = dict_keys rd.
Proof.
unfold fill_style. induction style as [|[p v] style IH]; intros rd;
  [reflexivity|].
cbn [fold_left]. rewrite IH.
destruct (index_of Z.eqb t idxs); [apply fill_in_keys | reflexivity].
Qed.

Lemma fill_style_lists (n : nat) (idxs : list Z) (t : Z) (style : edits) :
forall rd, lists_of_length n rd ->
           lists_of_length n (fill_style idxs t style rd).
Proof.
unfold fill_style. induction style as [|[p v] style IH]; intros rd H;
  [exact H|].
cbn [fold_left]. apply IH.
destruct (index_of Z.eqb t idxs); [now apply fill_in_lists | exact H].
Qed.

Lemma fill_batch_keys (idxs : list Z) (batch : list (Z * edits)) :
forall rd, dict_keys (fill_batch idxs batch rd) = dict_keys rd.
Proof.
unfold fill_batch. induction batch as [|[t style] batch IH]; intros rd;
  [reflexivity|].
cbn [fold_left]. rewrite IH. apply fill_style_keys.
Qed.

Lemma fill_batch_lists (n : nat) (idxs : list Z)
(batch : list (Z * edits)) :
forall rd, lists_of_length n rd ->
           lists_of_length n (fill_batch idxs batch rd).
Proof.
unfold fill_batch. induction batch as [|[t style] batch IH]; intros rd H;
  [exact H|].
cbn [fold_left]. apply IH. now apply fill_style_lists.
Qed.

(** A cell that the trace does not write stays as it is. *)
Lemma fill_style_miss (idxs : list Z) (t : Z) (style : edits)
(p : string) (i : nat) :
dict_get String.eqb p style = None
\/ index_of Z.eqb t idxs <> Some i ->
forall rd, cell (fill_style idxs t style rd) p i = cell rd p i.
Proof.
unfold fill_style. induction style as [|[p0 v0] style IH]; intros H rd;
  [reflexivity|].
cbn [fold_left]. rewrite IH.
- destruct (index_of Z.eqb t idxs) as [j|] eqn:Ej; [|reflexivity].
  apply cell_fill_other. destruct H as [H|H].
  + left. cbn in H. destruct (String.eqb p p0) eqn:E; [discriminate|].
    intros ->. now rewrite String.eqb_refl in E.
  + right. congruence.
- destruct H as [H|H]; [left|now right].
  cbn in H. now destruct (String.eqb p p0).
Qed.

(** A cell that the trace writes holds the value written. *)
Lemma fill_style_hit (idxs : list Z) (t : Z) (style : edits)
(p : string) (i : nat) (v : value) :
NoDup (dict_keys style) ->
index_of Z.eqb t idxs = Some i ->
dict_get String.eqb p style = Some v ->
forall rd x, cell rd p i = Some x ->
             cell (fill_style idxs t style rd) p i = Some v.
Proof.
intros Hnd Hi. induction style as [|[p0 v0] style IH]; [discriminate|].
intros Hg rd x Hx. inversion Hnd as [|? ? Hnotin Hnd']; subst.
change (fill_style idxs t ((p0, v0) :: style) rd)
  with (fill_style idxs t style
          match index_of Z.eqb t idxs with
          | Some j => fill_in rd p0 j v0
          | None => rd
          end).
rewrite Hi. cbn in Hg. destruct (String.eqb p p0) eqn:E.
- apply String.eqb_eq in E. subst p0. injection Hg as ->.
  rewrite fill_style_miss.
  + now apply (cell_fill_same rd p i v x).
  + left. destruct (dict_get String.eqb p style) eqn:Eg; [|reflexivity].
    exfalso. apply Hnotin.
    apply (dict_has_in String.eqb String.eqb_eq). unfold dict_has.
    now rewrite Eg.
- apply (IH Hnd' Hg _ x). rewrite cell_fill_other; [exact Hx|].
  left. intros ->. now rewrite String.eqb_refl in E.
Qed.

Lemma fill_batch_miss (idxs : list Z) (batch : list (Z * edits))
(p : string) (i : nat) :
(forall t style, In (t, style) batch ->
                 index_of Z.eqb t idxs <> Some i) ->
forall rd, cell (fill_batch idxs batch rd) p i = cell rd p i.
Proof.
unfold fill_batch. induction batch as [|[t style] batch IH]; intros H rd;
  [reflexivity|].
cbn [fold_left]. rewrite IH.
- apply fill_style_miss. right. apply (H t style). now left.
- intros t' style' Hin. apply (H t' style'). now right.
Qed.

Lemma fill_batch_cell (idxs : list Z) (batch : list (Z * edits))
(t : Z) (style : edits) (p : string) (i : nat) :
NoDup (dict_keys batch) ->
(forall t' style', In (t', style') batch -> NoDup (dict_keys style')) ->
In (t, style) batch ->
index_of Z.eqb t idxs = Some i ->
forall rd x,
  cell rd p i = Some x ->
  cell (fill_batch idxs batch rd) p i
  = Some match dict_get String.eqb p style with
         | Some v => v
         | None => x
         end.
Proof.
intros Hnd Hst Hin Hi.
induction batch as [|[t0 s0] batch IH]; [destruct Hin|].
intros rd x Hx. inversion Hnd as [|? ? Hnotin Hnd']; subst.
change (fill_batch idxs ((t0, s0) :: batch) rd)
  with (fill_batch idxs batch (fill_style idxs t0 s0 rd)).
destruct Hin as [[= -> ->]|Hin].
- rewrite fill_batch_miss.
  + destruct (dict_get String.eqb p style) as [v|] eqn:Eg.
    * apply (fill_style_hit idxs t style p i v) with (x := x); auto.
      apply (Hst t style). now left.
    * rewrite fill_style_miss; [exact Hx | now left].
  + intros t' style' Hin' Hi'.
    apply (index_of_nth Z.eqb Z.eqb_eq) in Hi, Hi'.
    assert (t' = t) by congruence. subst t'.
    apply Hnotin. change (In (fst (t, style')) (map fst batch)).
    now apply in_map.
- apply IH; auto.
  + intros t' style' Hin'. apply (Hst t' style'). now right.
  + rewrite fill_style_miss; [exact Hx|]. right. intros Hi0.
    apply (index_of_nth Z.eqb Z.eqb_eq) in Hi, Hi0.
    assert (t0 = t) by congruence. subst t0.
    apply Hnotin. change (In (fst (t, style)) (map fst batch)).
    now apply in_map.
Qed.

Lemma initial_cell (all_props : list string) (n : nat) (p : string)
(i : nat) :
In p all_props -> (i < n)%nat ->
cell (map (fun prop => (prop, VList (repeat Undefined n))) all_props) p i
= Some Undefined.
Proof.
intros Hin Hi. unfold cell.
induction all_props as [|q l IH]; [destruct Hin|]. cbn.
destruct (String.eqb p q) eqn:E.
- apply nth_error_repeat. exact Hi.
- apply IH. destruct Hin as [->|Hin]; [|exact Hin].
  now rewrite String.eqb_refl in E.
Qed.

Lemma initial_lists (all_props : list string) (n : nat) :
lists_of_length n
  (map (fun prop => (prop, VList (repeat Undefined n))) all_props).
Proof.
unfold lists_of_length. rewrite map_map. cbn.
apply Forall_forall. intros x Hx. apply in_map_iff in Hx.
destruct Hx as (q & <- & _). eexists. split; [reflexivity|].
apply repeat_length.
Qed.

Lemma build_update_params_unfold (f : Figure) :
_build_update_params_from_batch f
= let trace_indexes :=
    sorted_set Z.leb Z.eqb (dict_keys (_batch_trace_edits f)) in
  let all_props :=
    sorted_set String.leb String.eqb
      (flat_map (fun '(_, trace_style) => dict_keys trace_style)
                (_batch_trace_edits f)) in
  (fill_batch trace_indexes (_batch_trace_edits f)
     (map (fun prop =>
             (prop, VList (repeat Undefined (length trace_indexes))))
          all_props),
   _batch_layout_edits f, trace_indexes).
Proof. reflexivity. Qed.

End FillFacts.

(** X6: the parameters built from a batch: the relayout data are the
    pending layout edits; the trace indexes are the traces edited in the
    batch, in increasing order and each once; the restyle data have one
    entry for every property edited on some trace, and every entry is a
    list with one element for each trace index. *)
Theorem update_params_shape {V : Validators} (f : Figure)
  (restyle_data relayout_data : edits) (trace_indexes : list Z) :
  _build_update_params_from_batch f
  = (restyle_data, relayout_data, trace_indexes) ->
  relayout_data = _batch_layout_edits f
  /\ StronglySorted Z.lt trace_indexes
  /\ (forall t, In t trace_indexes
                <-> In t (dict_keys (_batch_trace_edits f)))
  /\ (forall p, In p (dict_keys restyle_data)
                <-> exists t style,
                      In (t, style) (_batch_trace_edits f)
                      /\ In p (dict_keys style))
  /\ (forall p x, dict_get String.eqb p restyle_data = Some x ->
                  exists l, x = VList l
                            /\ length l = length trace_indexes).
Proof.
  rewrite build_update_params_unfold. cbv zeta. intros [= <- <- <-].
  split; [reflexivity|]. split; [apply sorted_set_increasing|].
  split; [intros t; apply (sorted_set_in Z.leb Z.eqb Z.eqb_eq)|].
  split.
  - intros p. rewrite fill_batch_keys. unfold dict_keys at 1.
    rewrite map_map. cbn [fst]. rewrite map_id.
    rewrite (sorted_set_in String.leb String.eqb String.eqb_eq).
    rewrite in_flat_map. split.
    + intros ([t style] & Hin & Hp). now exists t, style.
    + intros (t & style & Hin & Hp). now exists (t, style).
  - intros p x Hg. apply dict_get_in in Hg.
    pose proof (fill_batch_lists _
                  (sorted_set Z.leb Z.eqb (dict_keys (_batch_trace_edits f)))
                  (_batch_trace_edits f) _
                  (initial_lists
                     (sorted_set String.leb String.eqb
                        (flat_map
                           (fun '(_, trace_style) => dict_keys trace_style)
                           (_batch_trace_edits f)))
                     (length (sorted_set Z.leb Z.eqb
                                (dict_keys (_batch_trace_edits f))))))
      as H.
    unfold lists_of_length in H. rewrite Forall_forall in H.
    exact (H x Hg).
Qed.

Lemma update_params_shape_witness :
  let f := with_batch_trace_edits
             [(2, [("y", VInt 5)]); (0, [("x", VInt 1)])]
             (@new_figure any_schema [[]; []; []] []) in
  _build_update_params_from_batch f
  = ([("x", VList [VInt 1; Undefined]); ("y", VList [Undefined; VInt 5])],
     [], [0; 2])
  /\ StronglySorted Z.lt [0; 2].
Proof.
  cbv zeta. split; [reflexivity|].
  exact (proj1 (proj2
    (@update_params_shape any_schema
       (with_batch_trace_edits
          [(2, [("y", VInt 5)]); (0, [("x", VInt 1)])]
          (@new_figure any_schema [[]; []; []] []))
       _ _ _ eq_refl))).
Defined.

(** X7: in the restyle data built from a batch, the list of a property
    holds, at the position of a trace among the trace indexes, the value
    that the batch assigns to that property on that trace, and
    [Undefined] if the batch does not assign it there. *)
Theorem update_params_content {V : Validators} (f : Figure)
  (restyle_data relayout_data : edits) (trace_indexes : list Z)
  (t : Z) (style : edits) (p : string) :
  NoDup (dict_keys (_batch_trace_edits f)) ->
  (forall t' style', In (t', style') (_batch_trace_edits f) ->
                     NoDup (dict_keys style')) ->
  _build_update_params_from_batch f
  = (restyle_data, relayout_data, trace_indexes) ->
  In (t, style) (_batch_trace_edits f) ->
  In p (dict_keys restyle_data) ->
  exists i l,
    nth_error trace_indexes i = Some t
    /\ dict_get String.eqb p restyle_data = Some (VList l)
    /\ nth_error l i = Some match dict_get String.eqb p style with
                            | Some v => v
                            | None => Undefined
                            end.
Proof.
  intros Hnd Hst. rewrite build_update_params_unfold. cbv zeta.
  intros [= <- <- <-] Hin Hp.
  set (idxs := sorted_set Z.leb Z.eqb (dict_keys (_batch_trace_edits f)))
    in *.
  set (all_props := sorted_set String.leb String.eqb _) in *.
  assert (Ht : In t idxs).
  { apply (sorted_set_in Z.leb Z.eqb Z.eqb_eq).
    change (In (fst (t, style)) (map fst (_batch_trace_edits f))).
    now apply in_map. }
  destruct (index_of_in Z.eqb Z.eqb_eq t idxs Ht) as (i & Hi & Hn).
  assert (Hlt : (i < length idxs)%nat)
    by (apply nth_error_Some; congruence).
  rewrite fill_batch_keys in Hp. unfold dict_keys in Hp.
  rewrite map_map in Hp. cbn [fst] in Hp. rewrite map_id in Hp.
  pose proof (fill_batch_cell idxs (_batch_trace_edits f) t style p i
                Hnd Hst Hin Hi _ Undefined
                (initial_cell all_props (length idxs) p i Hp Hlt)) as Hc.
  unfold cell in Hc.
  destruct (dict_get String.eqb p (fill_batch idxs _ _))
    as [[| | | | |l|]|] eqn:Eg; try discriminate.
  exists i, l. split; [exact Hn|]. split; [reflexivity|].
  rewrite Hc. now destruct (dict_get String.eqb p style).
Qed.

Lemma update_params_content_witness :
  let f := with_batch_trace_edits
             [(2, [("y", VInt 5)]); (0, [("x", VInt 1)])]
             (@new_figure any_schema [[]; []; []] []) in
  exists i l,
    nth_error [0; 2] i = Some 2
    /\ dict_get String.eqb "x"
         [("x", VList [VInt 1; Undefined]);
          ("y", VList [Undefined; VInt 5])]
       = Some (VList l)
    /\ nth_error l i = Some Undefined.
Proof.
  cbv zeta.
  apply (@update_params_content any_schema
           (with_batch_trace_edits
              [(2, [("y", VInt 5)]); (0, [("x", VInt 1)])]
              (@new_figure any_schema [[]; []; []] []))
           _ [] [0; 2] 2 [("y", VInt 5)] "x").
  - repeat constructor; cbn; intuition discriminate.
  - intros t' style' [[= <- <-]|[[= <- <-]|[]]];
      repeat constructor; cbn; intuition.
  - reflexivity.
  - now left.
  - now left.
Defined.

(* ------------------------------------------------------------------ *)
(** ** What the operations leave alone *)

Section OperationFrame.
Context {V : Validators}.













Lemma restyle_traces_undefined (k : string) (v : value) (idxs : list Z) :
(forall i, trace_value v i = OK Undefined) ->
forall (i : nat) (any : bool) (f : Figure),
  (forall t, In t idxs -> t < Z.of_nat (length (_data f))) ->
  restyle_traces k v i idxs any f = (f, OK any).
Proof.
intros Hv. induction idxs as [|t rest IH]; intros i any f Hr;
  [reflexivity|].
rewrite restyle_traces_cons.
destruct (t >=? Z.of_nat (length (_data f))) eqn:E.
- rewrite Z.geb_leb in E. apply Z.leb_le in E.
  specialize (Hr t (or_introl eq_refl)). lia.
- rewrite Hv. apply IH. intros t' Ht'. apply Hr. now right.
Qed.

Lemma set_in_props_again (d d' : props) (k : string) (v : value)
(b : bool) :
is_concrete v = true -> _vals_equal v v = true ->
set_in_props d k v = (d', OK b) ->
set_in_props d' k v = (d', OK false).
Proof.
intros Hc He. unfold set_in_props, _set_in.
destruct (set_in_path (VDict d) (_str_to_dict_path (Str k)) k v)
  as [x r] eqn:E.
destruct (SetInFacts.set_in_path_dict (_str_to_dict_path (Str k)) k v d)
  as [d1 Hd1].
rewrite E in Hd1. cbn [fst] in Hd1. subst x.
intros [= <- ->].
now rewrite (SetInFacts.set_in_path_again _ k v Hc He _ _ _ E).
Qed.

End OperationFrame.





(** X10: a restyle whose values are all [Undefined] for every targeted
    trace, the trace indexes being below the number of traces, changes
    nothing in the figure: [_set_in] is not called, no container is
    created, nothing is sent and nothing dispatched. *)
Theorem restyle_with_undefined_changes_nothing {V : Validators}
  (restyle_data : edits) (trace_indexes : list Z) (src : option string)
  (f : Figure) :
  (forall k v i, In (k, v) restyle_data ->
                 trace_value v i = OK Undefined) ->
  (forall t, In t trace_indexes -> t < Z.of_nat (length (_data f))) ->
  plotly_restyle restyle_data (TI_List trace_indexes) src f = (f, OK tt).
Proof.
  intros Hv Hr.
  assert (G : forall changes,
             restyle_keys restyle_data trace_indexes changes f
             = (f, OK changes)).
  { induction restyle_data as [|[k v] rest IH]; intros changes;
      [reflexivity|].
    rewrite restyle_keys_cons.
    rewrite (restyle_traces_undefined k v trace_indexes
               (fun i => Hv k v i (or_introl eq_refl)) 0 false f Hr).
    apply IH. intros k' v' i Hin. apply (Hv k' v' i). now right. }
  unfold plotly_restyle, _perform_plotly_restyle. unfold bind at 1.
  change (_normalize_trace_indexes (TI_List trace_indexes) f)
    with (f, OK trace_indexes).
  unfold bind at 1. now rewrite G.
Qed.

Lemma restyle_with_undefined_changes_nothing_witness :
  let f := @new_figure any_schema [[(KStr "uid", VStr "a")]; []] [] in
  plotly_restyle [("marker.color", Undefined);
                  ("x", VList [Undefined; Undefined])]
                 (TI_List [1; 0; -1]) None f
  = (f, OK tt).
Proof.
  cbv zeta.
  apply (@restyle_with_undefined_changes_nothing any_schema).
  - intros k v i [[= <- <-]|[[= <- <-]|[]]]; [reflexivity|].
    cbn [trace_value length].
    pose proof (Nat.mod_upper_bound i 2%nat ltac:(lia)) as Hi.
    destruct (Nat.modulo i 2) as [|[|n]]; [reflexivity | reflexivity | lia].
  - intros t [<-|[<-|[<-|[]]]]; cbn; lia.
Defined.

(** X11: a relayout of one key to a concrete value that equals itself,
    done a second time, finds nothing to change: it leaves the figure as
    it is and sends nothing. *)
Theorem relayout_again_is_silent {V : Validators} (k : string) (v : value)
  (src src' : option string) (f f' : Figure) :
  is_concrete v = true -> _vals_equal v v = true ->
  plotly_relayout [(k, v)] src f = (f', OK tt) ->
  plotly_relayout [(k, v)] src' f' = (f', OK tt).
Proof.
  intros Hc He H.
  destruct (plotly_relayout_order _ _ _ _ H) as (changes & f1 & Hp & _ & ->).
  unfold _perform_plotly_relayout in Hp. rewrite relayout_keys_cons in Hp.
  destruct (negb (_is_key_path_compatible k layout_contains)) eqn:Ek;
    [discriminate|].
  unfold set_in_layout in Hp.
  destruct (set_in_props (_layout f) k v) as [d' [b|e]] eqn:Es;
    [|discriminate].
  cbn in Hp. munfold. injection Hp as <- <-.
  pose proof (set_in_props_again _ _ _ _ _ Hc He Es) as Hagain.
  unfold plotly_relayout, _perform_plotly_relayout. unfold bind at 1.
  rewrite relayout_keys_cons, Ek. unfold set_in_layout.
  cbn [_layout logged with_log with_layout]. rewrite Hagain.
  cbn. munfold. reflexivity.
Qed.

Lemma relayout_again_is_silent_witness :
  let f := @new_figure any_schema [] [] in
  exists f',
    plotly_relayout [("xaxis.range[1]", VInt 5)] None f = (f', OK tt)
    /\ _layout f'
       = [(KStr "xaxis", VDict [(KStr "range", VList [VNone; VInt 5])])]
    /\ plotly_relayout [("xaxis.range[1]", VInt 5)] None f' = (f', OK tt).
Proof.
  cbv zeta.
  assert (E : plotly_relayout [("xaxis.range[1]", VInt 5)] None
                (@new_figure any_schema [] [])
              = (fst (plotly_relayout [("xaxis.range[1]", VInt 5)] None
                        (@new_figure any_schema [] [])), OK tt))
    by (vm_compute; reflexivity).
  eexists. split; [exact E|]. split; [vm_compute; reflexivity|].
  exact (@relayout_again_is_silent any_schema "xaxis.range[1]" (VInt 5)
           None None _ _ eq_refl eq_refl E).
Defined.

(* ------------------------------------------------------------------ *)
(** ** Property assignment *)

Section SetPropFacts.
Context {V : Validators}.

(** What [_set_prop] does with a value that its validator coerces to
  something other than [None]. *)
Lemma set_prop_value (self : owner) (prop : string) (val v : value)
(f : Figure) (p : props) :
val <> Undefined ->
validate_coerce self prop val = OK v -> v <> VNone ->
_props self f = (f, OK p) ->
_set_prop self prop val f =
if negb (dict_has key_eqb (KStr prop) p)
   || negb (match dict_get key_eqb (KStr prop) p with
            | Some x => _vals_equal x v
            | None => false
            end)
then
  match (if negb (_in_batch_mode f)
         then update_props self (dict_set key_eqb (KStr prop) v)
         else ret tt) f with
  | (f1, OK _) =>
      match _send_prop_set self prop v f1 with
      | (f2, OK _) => (f2, OK v)
      | (f2, Raise e) => (f2, Raise e)
      end
  | (f1, Raise e) => (f1, Raise e)
  end
else (f, OK v).
Proof.
intros Hval Hvc Hv Hp.
assert (G : _set_prop self prop val f
            = bind (lift (validate_coerce self prop val))
                (fun val =>
                   match val with
                   | VNone =>
                       bind (_props self)
                         (fun p =>
                            bind (if nonempty p
                                     && dict_has key_eqb (KStr prop) p
                                  then
                                    bind get
                                      (fun f =>
                                         bind
                                           (if negb (_in_batch_mode f)
                                            then update_props self
                                                   (dict_pop key_eqb
                                                      (KStr prop))
                                            else ret tt)
                                           (fun _ =>
                                              _send_prop_set self prop
                                                             val))
                                  else ret tt)
                                 (fun _ => ret val))
                   | _ =>
                       bind (_props self)
                         (fun p =>
                            bind (if negb (dict_has key_eqb (KStr prop) p)
                                     || negb
                                          (match
                                              dict_get key_eqb (KStr prop)
                                                       p
                                            with
                                            | Some x => _vals_equal x val
                                            | None => false
                                            end)
                                  then
                                    bind get
                                      (fun f =>
                                         bind
                                           (if negb (_in_batch_mode f)
                                            then update_props self
                                                   (dict_set key_eqb
                                                      (KStr prop) val)
                                            else ret tt)
                                           (fun _ =>
                                              _send_prop_set self prop
                                                             val))
                                  else ret tt)
                                 (fun _ => ret val))
                   end) f).
{ destruct val; try reflexivity. contradiction. }
rewrite G. clear G. unfold bind at 1, lift. rewrite Hvc.
assert (G2 : forall body : M Figure value,
           match v with VNone => body | _ =>
             bind (_props self)
               (fun p =>
                  bind (if negb (dict_has key_eqb (KStr prop) p)
                           || negb
                                (match dict_get key_eqb (KStr prop) p with
                                 | Some x => _vals_equal x v
                                 | None => false
                                 end)
                        then
                          bind get
                            (fun f =>
                               bind
                                 (if negb (_in_batch_mode f)
                                  then update_props self
                                         (dict_set key_eqb (KStr prop) v)
                                  else ret tt)
                                 (fun _ => _send_prop_set self prop v))
                        else ret tt)
                       (fun _ => ret v))
           end
           = bind (_props self)
               (fun p =>
                  bind (if negb (dict_has key_eqb (KStr prop) p)
                           || negb
                                (match dict_get key_eqb (KStr prop) p with
                                 | Some x => _vals_equal x v
                                 | None => false
                                 end)
                        then
                          bind get
                            (fun f =>
                               bind
                                 (if negb (_in_batch_mode f)
                                  then update_props self
                                         (dict_set key_eqb (KStr prop) v)
                                  else ret tt)
                                 (fun _ => _send_prop_set self prop v))
                        else ret tt)
                       (fun _ => ret v))).
{ intros body. destruct v; try reflexivity. contradiction. }
match goal with
| |- match v with VNone => ?b | _ => _ end f = _ =>
    rewrite (G2 b)
end.
clear G2. unfold bind at 1. rewrite Hp. unfold bind at 1.
destruct (negb (dict_has key_eqb (KStr prop) p) || _); [|reflexivity].
unfold bind at 1, get. unfold bind at 1.
destruct ((if negb (_in_batch_mode f)
           then update_props self (dict_set key_eqb (KStr prop) v)
           else ret tt) f) as [f1 [[]|e]]; [|reflexivity].
destruct (_send_prop_set self prop v f1) as [f2 [[]|e]]; reflexivity.
Qed.

End SetPropFacts.

Section SetPropOutside.
Context {V : Validators}.

Lemma props_logged (self : owner) (g : Figure) (evs : list event) :
_props self (logged g evs)
= (logged g evs, snd (_props self g)).
Proof.
unfold _props. destruct self as [|obj]; [reflexivity|].
cbn [_data_objs _data logged with_log].
destruct (_index_is (_data_objs g) obj) as [i|]; [|reflexivity].
now destruct (nth_error (_data g) i).
Qed.

(** Outside a batch, telling the parent of a change only adds to the
  log. *)
Lemma send_prop_set_logs (self : owner) (prop : string) (v : value)
(g g' : Figure) (r : res unit) :
_in_batch_mode g = false ->
_send_prop_set self prop v g = (g', r) ->
exists evs, g' = logged g evs.
Proof.
intros Hb. destruct self as [|obj]; cbn [_send_prop_set].
- unfold _relayout_child. unfold bind at 1, get. rewrite Hb.
  cbn [negb]. unfold bind. rewrite emit_logged.
  rewrite dispatch_layout_logged. intros [= <- _].
  rewrite logged_app. now eexists.
- unfold _restyle_child. unfold bind at 1, get.
  destruct (_index_is (_data_objs g) obj) as [i|].
  + rewrite Hb. cbn [negb]. unfold bind. rewrite emit_logged.
    intros H.
    destruct (_dispatch_trace_change_callbacks _ _ _) as [g2 r2] eqn:E.
    destruct (dispatch_trace_callbacks _ _ _ _ _ E) as (cbs & -> & _).
    rewrite logged_app in H. destruct r2; injection H as <- _;
      now eexists.
  + unfold raise. intros [= <- _]. exists []. now rewrite logged_nil.
Qed.

Lemma props_after_update (self : owner) (upd : props -> props)
(f : Figure) (p : props) :
_props self f = (f, OK p) ->
exists f1, update_props self upd f = (f1, OK tt)
           /\ _props self f1 = (f1, OK (upd p))
           /\ _in_batch_mode f1 = _in_batch_mode f.
Proof.
unfold _props, update_props, modify. destruct self as [|obj].
- intros [= <-]. eexists. repeat split.
- destruct (_index_is (_data_objs f) obj) as [i|] eqn:Ei;
    [|discriminate].
  destruct (nth_error (_data f) i) as [d|] eqn:Ed; [|discriminate].
  intros [= <-]. eexists. split; [reflexivity|].
  cbn [_data_objs _data with_data _in_batch_mode]. rewrite Ei.
  split; [|reflexivity].
  assert (Hlt : (i < length (_data f))%nat)
    by (apply nth_error_Some; congruence).
  rewrite (nth_error_list_update_same i _ (_data f) Hlt).
  now rewrite (nth_error_nth (_data f) i [] Ed).
Qed.

Lemma props_total (self : owner) (f f0 : Figure) (r : res props) :
_props self f = (f0, r) -> f0 = f.
Proof.
unfold _props. destruct self as [|obj]; [now intros [= <- _]|].
destruct (_index_is (_data_objs f) obj) as [i|]; [|now intros [= <- _]].
destruct (nth_error (_data f) i); now intros [= <- _].
Qed.

Lemma value_eq_none (v : value) : v = VNone \/ v <> VNone.
Proof. destruct v; (now left) || (right; discriminate). Qed.

End SetPropOutside.

(** X12: outside a batch, assigning a value that the validator accepts
    and that differs from the one stored writes it into the properties,
    sends one message with that single edit, a relayout for the layout
    and a restyle of the one trace with the value in a list for a trace,
    then dispatches the change callbacks, and returns the coerced
    value. *)
Theorem set_prop_assigns_and_notifies {V : Validators} (prop : string)
  (val v : value) (f : Figure) :
  _in_batch_mode f = false ->
  val <> Undefined -> v <> VNone ->
  (validate_coerce Layout prop val = OK v ->
   match dict_get key_eqb (KStr prop) (_layout f) with
   | Some x => _vals_equal x v
   | None => false
   end = false ->
   let g := with_layout (dict_set key_eqb (KStr prop) v (_layout f)) f in
   _set_prop Layout prop val f
   = (logged g (Send_relayout [(prop, v)] None
                  :: Dispatch_layout_change_callbacks [(prop, v)]
                  :: layout_events [(prop, v)] g),
      OK v))
  /\ (forall (obj i : nat) (d : props),
        validate_coerce (Trace obj) prop val = OK v ->
        _index_is (_data_objs f) obj = Some i ->
        nth_error (_data f) i = Some d ->
        match dict_get key_eqb (KStr prop) d with
        | Some x => _vals_equal x v
        | None => false
        end = false ->
        let g := with_data
                   (list_update i (dict_set key_eqb (KStr prop) v d)
                                (_data f)) f in
        let restyle := [(prop, VList [v])] in
        _set_prop (Trace obj) prop val f
        = (logged g (Send_restyle restyle (TI_Int (Z.of_nat i)) None
                       :: Dispatch_trace_change_callbacks restyle
                            [Z.of_nat i]
                       :: trace_events restyle [obj] g),
           OK v)).
Proof.
  intros Hb Hval Hv. split.
  - intros Hvc Hne g.
    rewrite (set_prop_value Layout prop val v f (_layout f) Hval Hvc Hv
               eq_refl).
    assert (Hc : negb (dict_has key_eqb (KStr prop) (_layout f))
                 || negb match dict_get key_eqb (KStr prop) (_layout f) with
                         | Some x => _vals_equal x v
                         | None => false
                         end = true)
      by (rewrite Hne; apply orb_true_r).
    rewrite Hc, Hb. cbn [negb update_props modify _send_prop_set].
    fold g. unfold _relayout_child. unfold bind at 1, get.
    change (_in_batch_mode g) with (_in_batch_mode f). rewrite Hb.
    cbn [negb]. unfold bind. rewrite emit_logged, dispatch_layout_logged.
    now rewrite logged_app.
  - intros obj i d Hvc Hi Hd Hne g restyle.
    assert (Hp : _props (Trace obj) f = (f, OK d)).
    { unfold _props. now rewrite Hi, Hd. }
    rewrite (set_prop_value (Trace obj) prop val v f d Hval Hvc Hv Hp).
    assert (Hc : negb (dict_has key_eqb (KStr prop) d)
                 || negb match dict_get key_eqb (KStr prop) d with
                         | Some x => _vals_equal x v
                         | None => false
                         end = true)
      by (rewrite Hne; apply orb_true_r).
    rewrite Hc, Hb. cbn [negb update_props modify _send_prop_set].
    rewrite Hi. rewrite (nth_error_nth (_data f) i [] Hd).
    unfold _restyle_child. unfold bind at 1, get.
    cbn [_data_objs _in_batch_mode with_data]. rewrite Hi, Hb.
    cbn [negb]. unfold bind. rewrite emit_logged. fold g restyle.
    destruct (index_is_nth _ _ _ Hi) as [Hn Hlt].
    assert (Ht : traces_at (logged g [Send_restyle restyle
                                        (TI_Int (Z.of_nat i)) None])
                   [Z.of_nat i] = Some [obj]).
    { unfold g. cbn [traces_at _data_objs logged with_log with_data].
      rewrite (list_index_nonneg _ (Z.of_nat i)) by lia.
      rewrite Nat2Z.id. now rewrite (nth_error_nth (_data_objs f) i O Hn). }
    unfold g, props in Ht |- *.
    rewrite (dispatch_trace_logged restyle [Z.of_nat i] [obj] _ Ht).
    now rewrite logged_app.
Qed.

Lemma set_prop_assigns_and_notifies_witness :
  let f := @new_figure any_schema [[(KStr "uid", VStr "a")]] [] in
  exists f',
    _set_prop (Trace 0) "name" (VStr "n") f = (f', OK (VStr "n"))
    /\ _data f' = [[(KStr "uid", VStr "a"); (KStr "name", VStr "n")]]
    /\ map fst (log f')
       = [@Send_restyle any_schema [("name", VList [VStr "n"])]
            (TI_Int 0) None;
          @Dispatch_trace_change_callbacks any_schema
            [("name", VList [VStr "n"])] [0]].
Proof.
  cbv zeta. eexists. split; [|split].
  - apply (proj2 (@set_prop_assigns_and_notifies any_schema "name"
                    (VStr "n") (VStr "n")
                    (@new_figure any_schema [[(KStr "uid", VStr "a")]] [])
                    eq_refl ltac:(discriminate) ltac:(discriminate))
             O O [(KStr "uid", VStr "a")] eq_refl eq_refl eq_refl
             eq_refl).
  - reflexivity.
  - reflexivity.
Defined.

(** X13: outside a batch, an assignment that returned a value which
    equals itself can be repeated with no effect: the second assignment
    finds the value stored, changes nothing and sends nothing. *)
Theorem set_prop_again_does_nothing {V : Validators} (self : owner)
  (prop : string) (val v : value) (f f' : Figure) :
  _in_batch_mode f = false ->
  v <> VNone -> _vals_equal v v = true ->
  _set_prop self prop val f = (f', OK v) ->
  _set_prop self prop val f' = (f', OK v).
Proof.
  intros Hb Hv He H.
  assert (Hval : val <> Undefined).
  { intros ->. cbn in H. unfold ret in H. congruence. }
  destruct (validate_coerce self prop val) as [v0|e] eqn:Hvc.
  2:{ destruct val; try contradiction;
        cbn in H; unfold bind, lift in H; rewrite Hvc in H;
        discriminate. }
  destruct (_props self f) as [f0 [p|e]] eqn:Hp;
    pose proof (props_total _ _ _ _ Hp) as ->.
  2:{ destruct val; try contradiction;
        cbn in H; unfold bind, lift in H; rewrite Hvc in H;
        destruct v0; unfold bind in H; rewrite Hp in H; discriminate. }
  destruct (value_eq_none v0) as [->|Hv0].
  { exfalso. destruct val; try contradiction;
      cbn in H; unfold bind, lift in H; rewrite Hvc in H;
      unfold bind in H; rewrite Hp in H;
      destruct (nonempty p && dict_has key_eqb (KStr prop) p);
      unfold bind, get, ret in H;
      repeat match type of H with
             | context [match ?x with _ => _ end] => destruct x
             end; congruence. }
  rewrite (set_prop_value self prop val v0 f p Hval Hvc Hv0 Hp) in H.
  destruct (negb (dict_has key_eqb (KStr prop) p) || _) eqn:Hc.
  - rewrite Hb in H. cbn [negb] in H.
    destruct (props_after_update self (dict_set key_eqb (KStr prop) v0)
                f p Hp) as (f1 & Hu & Hp1 & Hb1).
    rewrite Hu in H.
    destruct (_send_prop_set self prop v0 f1) as [f2 [[]|e]] eqn:Es;
      [|discriminate].
    injection H as <- <-. rewrite Hb in Hb1.
    destruct (send_prop_set_logs _ _ _ _ _ _ Hb1 Es) as [evs ->].
    assert (Hp2 : _props self (logged f1 evs)
                  = (logged f1 evs,
                     OK (dict_set key_eqb (KStr prop) v0 p))).
    { rewrite props_logged, Hp1. reflexivity. }
    rewrite (set_prop_value self prop val v0 _ _ Hval Hvc Hv0 Hp2).
    unfold dict_has.
    rewrite (dict_get_set_same key_eqb key_eqb_eq), He. reflexivity.
  - injection H as <- <-.
    rewrite (set_prop_value self prop val v0 f p Hval Hvc Hv0 Hp).
    now rewrite Hc.
Qed.

Lemma set_prop_again_does_nothing_witness :
  let f := @new_figure any_schema [] [(KStr "title", VStr "old")] in
  exists f',
    _set_prop Layout "title" (VStr "t") f = (f', OK (VStr "t"))
    /\ _layout f' = [(KStr "title", VStr "t")]
    /\ _set_prop Layout "title" (VStr "t") f' = (f', OK (VStr "t")).
Proof.
  cbv zeta.
  assert (E : _set_prop Layout "title" (VStr "t")
                (@new_figure any_schema [] [(KStr "title", VStr "old")])
              = (fst (_set_prop Layout "title" (VStr "t")
                        (@new_figure any_schema []
                           [(KStr "title", VStr "old")])),
                 OK (VStr "t")))
    by (vm_compute; reflexivity).
  eexists. split; [exact E|]. split; [vm_compute; reflexivity|].
  exact (@set_prop_again_does_nothing any_schema Layout "title"
           (VStr "t") (VStr "t")
           (@new_figure any_schema [] [(KStr "title", VStr "old")])
           (fst (_set_prop Layout "title" (VStr "t")
                   (@new_figure any_schema []
                      [(KStr "title", VStr "old")])))
           eq_refl ltac:(discriminate) eq_refl E).
Defined.

Section BatchedAssignment.
Context {V : Validators}.

(** Whether the value differs from the one stored under the property. *)
Definition differs (p : props) (prop : string) (v : value) : bool :=
negb (dict_has key_eqb (KStr prop) p)
|| negb match dict_get key_eqb (KStr prop) p with
        | Some x => _vals_equal x v
        | None => false
        end.

Lemma set_prop_layout_outside (prop : string) (val v : value)
(f : Figure) :
_in_batch_mode f = false ->
val <> Undefined -> validate_coerce Layout prop val = OK v ->
v <> VNone ->
_set_prop Layout prop val f
= if differs (_layout f) prop v
  then
    let g := with_layout (dict_set key_eqb (KStr prop) v (_layout f)) f in
    (logged g (Send_relayout [(prop, v)] None
                 :: Dispatch_layout_change_callbacks [(prop, v)]
                 :: layout_events [(prop, v)] g),
     OK v)
  else (f, OK v).
Proof.
intros Hb Hval Hvc Hv.
rewrite (set_prop_value Layout prop val v f (_layout f) Hval Hvc Hv
           eq_refl).
fold (differs (_layout f) prop v).
destruct (differs (_layout f) prop v); [|reflexivity].
rewrite Hb. cbn [negb update_props modify _send_prop_set].
unfold _relayout_child. unfold bind at 1, get.
cbn [_in_batch_mode with_layout]. rewrite Hb.
cbn [negb]. unfold bind. rewrite emit_logged, dispatch_layout_logged.
now rewrite logged_app.
Qed.

Lemma set_prop_layout_inside (prop : string) (val v : value)
(f : Figure) :
_in_batch_mode f = true ->
val <> Undefined -> validate_coerce Layout prop val = OK v ->
v <> VNone ->
_set_prop Layout prop val f
= if differs (_layout f) prop v
  then (with_batch_layout_edits
          (dict_set String.eqb prop v (_batch_layout_edits f)) f,
        OK v)
  else (f, OK v).
Proof.
intros Hb Hval Hvc Hv.
rewrite (set_prop_value Layout prop val v f (_layout f) Hval Hvc Hv
           eq_refl).
fold (differs (_layout f) prop v).
destruct (differs (_layout f) prop v); [|reflexivity].
rewrite Hb. cbn [negb ret _send_prop_set].
unfold _relayout_child. unfold bind at 1, get. rewrite Hb.
reflexivity.
Qed.

Lemma set_in_props_plain (d : props) (prop : string) (v : value) :
_str_to_dict_path (Str prop) = [KStr prop] ->
is_concrete v = true ->
set_in_props d prop v
= if differs d prop v
  then (dict_set key_eqb (KStr prop) v d, OK true)
  else (d, OK false).
Proof.
intros Hp Hc. unfold set_in_props, _set_in. rewrite Hp.
cbn [set_in_path].
rewrite (SetInFacts.assign_last_concrete _ _ _ _ Hc).
fold (differs d prop v). now destruct (differs d prop v).
Qed.

End BatchedAssignment.

(** X14: one assignment to a plain property of the layout, put in a
    [batch_update] block of its own, leaves the same layout and the same
    trace properties behind as the assignment alone, with no edits
    pending, and calls the same callbacks; what differs is the message:
    an update message with the one layout edit and no trace edit in
    place of the relayout message. *)
Theorem batched_assignment_matches_direct {V : Validators} (prop : string)
  (val v : value) (f : Figure) :
  _in_batch_mode f = false ->
  _batch_trace_edits f = [] -> _batch_layout_edits f = [] ->
  _str_to_dict_path (Str prop) = [KStr prop] ->
  layout_contains [KStr prop] = true ->
  val <> Undefined ->
  validate_coerce Layout prop val = OK v -> is_concrete v = true ->
  exists f1 f2 cbs,
    _set_prop Layout prop val f = (f1, OK v)
    /\ batch_update (exec_block [Assign Layout prop val]) f = (f2, OK tt)
    /\ _layout f2 = _layout f1 /\ _data f2 = _data f1
    /\ batch_state f2 = batch_state f1
    /\ map fst (log f1)
       = map fst (log f)
         ++ (if differs (_layout f) prop v
             then Send_relayout [(prop, v)] None
                  :: Dispatch_layout_change_callbacks [(prop, v)] :: cbs
             else [])
    /\ map fst (log f2)
       = map fst (log f)
         ++ (if differs (_layout f) prop v
             then Send_update [] [(prop, v)] [] None
                  :: Dispatch_layout_change_callbacks [(prop, v)] :: cbs
             else []).
Proof.
  intros Hb Hte Hle Hp Hlc Hval Hvc Hc.
  assert (Hv : v <> VNone) by (intros ->; discriminate).
  rewrite (set_prop_layout_outside prop val v f Hb Hval Hvc Hv).
  unfold batch_update, exec_block. rewrite Hb.
  rewrite for_each_cons. cbn [exec]. unfold bind at 1.
  rewrite (set_prop_layout_inside prop val v (with_in_batch_mode true f)
             eq_refl Hval Hvc Hv).
  cbn [_layout with_in_batch_mode _batch_layout_edits].
  rewrite Hle.
  destruct (differs (_layout f) prop v) eqn:Hd.
  - unfold ret at 1. rewrite for_each_nil.
    rewrite build_update_params_unfold.
    cbn [_batch_trace_edits _batch_layout_edits with_in_batch_mode
         with_batch_layout_edits dict_set].
    rewrite Hte. cbn [dict_keys map sorted_set fold_right flat_map length
                      fill_batch fold_left].
    unfold plotly_update, _perform_plotly_update.
    cbn [truthy negb andb or_empty]. unfold bind at 1. unfold bind at 1.
    change (_normalize_trace_indexes (TI_List []) ?g) with (g, OK (@nil Z)).
    cbv beta iota. unfold bind at 1.
    unfold _perform_plotly_relayout. rewrite relayout_keys_cons.
    unfold _is_key_path_compatible. rewrite Hp. cbn [last is_int].
    rewrite Hlc. cbn [negb]. unfold set_in_layout.
    cbn [_layout with_in_batch_mode with_batch_layout_edits].
    rewrite (set_in_props_plain _ prop v Hp Hc), Hd.
    cbn [relayout_keys]. unfold ret at 1. cbv beta iota.
    unfold bind at 1. unfold _perform_plotly_restyle.
    change (restyle_keys [] [] []) with (@ret Figure edits []).
    cbn [dict_set]. unfold ret at 1. cbv beta iota.
    unfold ret at 1. cbv beta iota.
    cbn [nonempty orb]. unfold bind at 1. rewrite emit_logged.
    unfold bind at 1. unfold ret at 1. cbv beta iota.
    rewrite dispatch_layout_logged.
    eexists _, _, (layout_events [(prop, v)]
                     (with_layout
                        (dict_set key_eqb (KStr prop) v (_layout f)) f)).
    split; [reflexivity|]. split; [reflexivity|].
    split; [reflexivity|]. split; [reflexivity|].
    split; [|split].
    + unfold batch_state.
      cbn [logged with_log with_layout with_batch_trace_edits
           with_batch_layout_edits with_in_batch_mode _in_batch_mode
           _batch_trace_edits _batch_layout_edits].
      now rewrite Hb, Hte, Hle.
    + cbn [log logged with_log]. rewrite map_app, map_map. cbn [fst].
      now rewrite map_id.
    + cbn [log logged with_log with_batch_trace_edits
           with_batch_layout_edits].
      rewrite !map_app, !map_map. cbn [fst map app]. rewrite !map_id.
      rewrite <- app_assoc. reflexivity.
  - unfold ret at 1. rewrite for_each_nil.
    rewrite build_update_params_unfold.
    cbn [_batch_trace_edits _batch_layout_edits with_in_batch_mode].
    rewrite Hte, Hle.
    cbn [dict_keys map sorted_set fold_right flat_map length
         fill_batch fold_left].
    unfold plotly_update, _perform_plotly_update.
    cbn [truthy negb andb]. unfold bind at 1, ret.
    exists f, (with_batch_trace_edits []
                 (with_batch_layout_edits []
                    (with_in_batch_mode false
                       (with_in_batch_mode true f)))), [].
    split; [reflexivity|]. split; [reflexivity|].
    split; [reflexivity|]. split; [reflexivity|].
    split; [|split].
    + unfold batch_state.
      cbn [with_batch_trace_edits with_batch_layout_edits
           with_in_batch_mode _in_batch_mode _batch_trace_edits
           _batch_layout_edits].
      now rewrite Hb, Hte, Hle.
    + now rewrite app_nil_r.
    + cbn [log with_batch_trace_edits with_batch_layout_edits
           with_in_batch_mode]. now rewrite app_nil_r.
Qed.

Lemma batched_assignment_matches_direct_witness :
  let f := @new_figure any_schema [] [] in
  exists f1 f2 cbs,
    _set_prop Layout "title" (VStr "t") f = (f1, OK (VStr "t"))
    /\ batch_update (exec_block [Assign Layout "title" (VStr "t")]) f
       = (f2, OK tt)
    /\ _layout f2 = _layout f1 /\ _data f2 = _data f1
    /\ batch_state f2 = batch_state f1
    /\ map fst (log f1)
       = @Send_relayout any_schema [("title", VStr "t")] None
         :: Dispatch_layout_change_callbacks [("title", VStr "t")] :: cbs
    /\ map fst (log f2)
       = @Send_update any_schema [] [("title", VStr "t")] [] None
         :: Dispatch_layout_change_callbacks [("title", VStr "t")] :: cbs.
Proof.
  cbv zeta.
  exact (@batched_assignment_matches_direct any_schema "title"
           (VStr "t") (VStr "t") (@new_figure any_schema [] [])
           eq_refl eq_refl eq_refl eq_refl eq_refl
           ltac:(discriminate) eq_refl eq_refl).
Defined.

(* ------------------------------------------------------------------ *)
(** ** [_vals_equal] as a relation *)

Module ValsEqualRel.

Lemma vals_equal_list (l1 l2 : list value) :
_vals_equal (VList l1) (VList l2)
= Nat.eqb (length l1) (length l2)
  && forallb (fun ab => _vals_equal (fst ab) (snd ab)) (combine l1 l2).
Proof.
cbn [_vals_equal]. f_equal. revert l2.
induction l1 as [|a l1 IH]; intros [|b l2]; try reflexivity.
cbn [combine forallb fst snd]. now rewrite IH.
Qed.

Lemma vals_equal_dict (d1 d2 : props) :
_vals_equal (VDict d1) (VDict d2)
= keys_equal d1 d2
  && forallb (fun kx => match dict_get key_eqb (fst kx) d2 with
                        | Some y => _vals_equal (snd kx) y
                        | None => false
                        end) d1.
Proof.
cbn [_vals_equal]. f_equal.
induction d1 as [|[k x] d1 IH]; [reflexivity|].
cbn [forallb fst snd]. now rewrite IH.
Qed.

Lemma keys_distinct_list (l : list value) :
keys_distinct (VList l) = true ->
forall x, In x l -> keys_distinct x = true.
Proof.
cbn [keys_distinct]. intros H x Hx.
rewrite forallb_forall in H. now apply H.
Qed.

Lemma keys_distinct_dict (d : props) :
keys_distinct (VDict d) = true ->
distinct_keys (map fst d) = true
/\ forall k x, In (k, x) d -> keys_distinct x = true.
Proof.
cbn [keys_distinct]. intros H. apply andb_true_iff in H as [Hk Hv].
split; [exact Hk|]. clear Hk.
induction d as [|[k0 x0] d IH]; [intros ? ? []|].
apply andb_true_iff in Hv as [H0 Hv].
intros k x [[= <- <-]|Hin]; [exact H0 | now apply (IH Hv k x)].
Qed.

Lemma dict_get_in_pair (k : key) (x : value) (d : props) :
dict_get key_eqb k d = Some x -> In (k, x) d.
Proof.
induction d as [|[k0 x0] d IH]; [discriminate|]. cbn [dict_get].
destruct (key_eqb k k0) eqn:E.
- apply key_eqb_eq in E. subst k0. intros [= ->]. now left.
- intros H. right. now apply IH.
Qed.

Lemma dict_get_of_in (k : key) (x : value) (d : props) :
distinct_keys (map fst d) = true -> In (k, x) d ->
dict_get key_eqb k d = Some x.
Proof.
induction d as [|[k0 x0] d IH]; [intros _ []|].
cbn [map fst distinct_keys dict_get]. intros H.
apply andb_true_iff in H as [H0 Hd]. apply negb_true_iff in H0.
intros [[= -> ->]|Hin].
- now rewrite (proj2 (key_eqb_eq k k) eq_refl).
- destruct (key_eqb k k0) eqn:E; [|now apply IH].
  apply key_eqb_eq in E. subst k0. exfalso.
  assert (Hex : existsb (key_eqb k) (map fst d) = true).
  { apply existsb_exists. exists k. split.
    - change k with (fst (k, x)). now apply in_map.
    - now apply key_eqb_eq. }
  congruence.
Qed.

Lemma keys_equal_sym (d1 d2 : props) :
keys_equal d1 d2 = keys_equal d2 d1.
Proof. unfold keys_equal. apply andb_comm. Qed.

Lemma py_eq_sym (v1 v2 : value) : py_eq v1 v2 = py_eq v2 v1.
Proof.
destruct v1, v2; cbn; try reflexivity;
  [apply Z.eqb_sym | apply String.eqb_sym].
Qed.

(** One direction of the symmetry. *)
Lemma vals_equal_flip (v1 : value) :
forall v2,
  keys_distinct v1 = true -> keys_distinct v2 = true ->
  _vals_equal v1 v2 = true -> _vals_equal v2 v1 = true.
Proof.
induction v1 as [| |z|s| |l1 IH|d1 IH] using value_induction;
  intros v2 K1 K2 H;
  try (destruct v2; cbn in H |- *; try discriminate H;
       try reflexivity;
       first [now rewrite Z.eqb_sym | now rewrite String.eqb_sym]).
- destruct v2 as [| | | | |l2|]; try discriminate H.
  rewrite vals_equal_list in *. apply andb_true_iff in H as [Hl Hz].
  rewrite Nat.eqb_sym, Hl. cbn [andb].
  pose proof (keys_distinct_list _ K1) as D1.
  pose proof (keys_distinct_list _ K2) as D2.
  clear K1 K2 Hl. revert l2 Hz D2.
  induction IH as [|a l1 Ha _ IHl]; intros [|b l2] Hz D2;
    try reflexivity.
  cbn [combine forallb fst snd] in *.
  apply andb_true_iff in Hz as [Hab Hz].
  rewrite (Ha b (D1 a (or_introl eq_refl)) (D2 b (or_introl eq_refl))
             Hab).
  cbn [andb]. apply IHl; auto.
  + intros x Hx. apply D1. now right.
  + intros x Hx. apply D2. now right.
- destruct v2 as [| | | | | |d2]; try discriminate H.
  rewrite vals_equal_dict in *. apply andb_true_iff in H as [Hk Hv].
  rewrite keys_equal_sym, Hk. cbn [andb].
  destruct (keys_distinct_dict _ K1) as [N1 D1].
  destruct (keys_distinct_dict _ K2) as [N2 D2].
  apply forallb_forall. intros [k y] Hy. cbn [fst snd].
  unfold keys_equal in Hk. apply andb_true_iff in Hk as [_ Hk2].
  rewrite forallb_forall in Hk2.
  assert (Hin : In k (dict_keys d2)).
  { change k with (fst (k, y)). now apply in_map. }
  specialize (Hk2 k Hin). unfold dict_has in Hk2.
  destruct (dict_get key_eqb k d1) as [x|] eqn:Ex; [|discriminate].
  pose proof (dict_get_in_pair _ _ _ Ex) as Hx.
  rewrite forallb_forall in Hv. specialize (Hv (k, x) Hx).
  cbn [fst snd] in Hv.
  rewrite (dict_get_of_in k y d2 N2 Hy) in Hv.
  rewrite Forall_forall in IH.
  exact (IH (k, x) Hx y (D1 k x Hx) (D2 k y Hy) Hv).
Qed.

(** A value with a NaN inside differs from itself. *)
Lemma vals_equal_nan (v : value) :
keys_distinct v = true -> nan_free v = false ->
_vals_equal v v = false.
Proof.
induction v as [| |z|s| |l IH|d IH] using value_induction;
  intros K H; try discriminate H; try reflexivity.
- rewrite vals_equal_list. rewrite Nat.eqb_refl. cbn [andb].
  pose proof (keys_distinct_list _ K) as D. clear K.
  cbn [nan_free] in H.
  induction IH as [|a l Ha _ IHl]; [discriminate|].
  cbn [forallb combine fst snd] in *.
  destruct (nan_free a) eqn:Ea.
  + cbn [andb] in H. rewrite IHl; auto; [apply andb_false_r|].
    intros x Hx. apply D. now right.
  + now rewrite (Ha (D a (or_introl eq_refl)) eq_refl).
- rewrite vals_equal_dict. rewrite ValsEqualFacts.keys_equal_refl.
  cbn [andb]. destruct (keys_distinct_dict _ K) as [N D].
  cbn [nan_free] in H. rewrite N in H. cbn [andb] in H.
  assert (G : exists k x, In (k, x) d /\ nan_free x = false).
  { clear -H. induction d as [|[k x] d IHd]; [discriminate|].
    destruct (nan_free x) eqn:Ex.
    - cbn [andb] in H. destruct (IHd H) as (k' & x' & Hin & Hx').
      exists k', x'. split; [now right | exact Hx'].
    - exists k, x. split; [now left | exact Ex]. }
  destruct G as (k & x & Hin & Hx).
  destruct (forallb _ d) eqn:Ef; [|reflexivity].
  rewrite forallb_forall in Ef. specialize (Ef (k, x) Hin).
  cbn [fst snd] in Ef. rewrite (dict_get_of_in k x d N Hin) in Ef.
  rewrite Forall_forall in IH.
  pose proof (IH (k, x) Hin) as Hkx. cbn [snd] in Hkx.
  rewrite (Hkx (D k x Hin) Hx) in Ef. discriminate.
Qed.

Lemma nan_free_keys_distinct (v : value) :
nan_free v = true -> keys_distinct v = true.
Proof.
induction v as [| |z|s| |l IH|d IH] using value_induction;
  intros H; try reflexivity.
- cbn [nan_free keys_distinct] in *.
  induction IH as [|a l Ha _ IHl]; [reflexivity|].
  cbn [forallb] in *. apply andb_true_iff in H as [H1 H2].
  now rewrite (Ha H1), (IHl H2).
- cbn [nan_free keys_distinct] in *.
  apply andb_true_iff in H as [H1 H2]. rewrite H1. cbn [andb].
  clear H1. induction IH as [|[k x] d Hx _ IHd]; [reflexivity|].
  apply andb_true_iff in H2 as [Hx1 H2]. cbn [snd] in Hx.
  now rewrite (Hx Hx1), (IHd H2).
Qed.

End ValsEqualRel.

(** X15: on values whose dicts have pairwise distinct keys,
    [_vals_equal] does not depend on the order of its arguments, and a
    value is equal to itself exactly when there is no NaN inside it. *)
Theorem vals_equal_symmetric (v1 v2 : value) :
  keys_distinct v1 = true -> keys_distinct v2 = true ->
  _vals_equal v1 v2 = _vals_equal v2 v1
  /\ _vals_equal v1 v1 = nan_free v1.
Proof.
  intros K1 K2. split.
  - destruct (_vals_equal v1 v2) eqn:E12, (_vals_equal v2 v1) eqn:E21;
      try reflexivity.
    + now rewrite (ValsEqualRel.vals_equal_flip v1 v2 K1 K2 E12) in E21.
    + now rewrite (ValsEqualRel.vals_equal_flip v2 v1 K2 K1 E21) in E12.
  - destruct (nan_free v1) eqn:E.
    + now apply ValsEqualFacts.vals_equal_refl.
    + now apply ValsEqualRel.vals_equal_nan.
Qed.

Lemma vals_equal_symmetric_witness :
  _vals_equal (VDict [(KStr "a", VList [VInt 1; VNaN]); (KStr "b", VNone)])
              (VDict [(KStr "b", VNone); (KStr "a", VList [VInt 1; VNaN])])
  = _vals_equal
      (VDict [(KStr "b", VNone); (KStr "a", VList [VInt 1; VNaN])])
      (VDict [(KStr "a", VList [VInt 1; VNaN]); (KStr "b", VNone)])
  /\ _vals_equal
       (VDict [(KStr "a", VList [VInt 1; VNaN]); (KStr "b", VNone)])
       (VDict [(KStr "a", VList [VInt 1; VNaN]); (KStr "b", VNone)])
     = false.
Proof.
  exact (vals_equal_symmetric
           (VDict [(KStr "a", VList [VInt 1; VNaN]); (KStr "b", VNone)])
           (VDict [(KStr "b", VNone); (KStr "a", VList [VInt 1; VNaN])])
           eq_refl eq_refl).
Defined.

(* ------------------------------------------------------------------ *)
(** ** Adding traces *)

(** X16: outside a batch, [add_traces] checks everything before it
    touches the figure: when it raises, the figure is as it was; when it
    returns, the properties of the new traces, an empty defaults dict for
    each and the trace objects have been appended, in the order given,
    after those of the traces the figure had, the addTraces message
    carries the appended properties, and nothing else has changed. *)
Theorem add_traces_validates_then_appends {V : Validators}
  (grid : nat * props -> row_col -> row_col -> res (nat * props))
  (data : res (list (nat * props))) (rows cols : rows_cols_arg)
  (f f' : Figure)
  (r : add_traces_error + list nat * list props) :
  _in_batch_mode f = false ->
  add_traces grid data rows cols f = (f', r) ->
  match r with
  | inl err => f' = f /\ err <> Traces_in_batch_context
  | inr (objs, new_traces_data) =>
      _data f' = _data f ++ new_traces_data
      /\ _data_defaults f'
         = _data_defaults f ++ repeat [] (length new_traces_data)
      /\ _data_objs f' = _data_objs f ++ objs
      /\ length objs = length new_traces_data
      /\ (exists traces, data = OK traces
                         /\ length traces = length objs)
      /\ f' = with_data_objs (_data_objs f')
                (with_data_defaults (_data_defaults f')
                   (with_data (_data f') f))
  end.
Proof.
  intros Hb. unfold add_traces. rewrite Hb.
  destruct data as [data|e]; [|intros [= <- <-]; split; [easy|discriminate]].
  destruct (_validate_rows_cols "rows" (length data) rows) as [err|] eqn:Er.
  { intros [= <- <-]. split; [reflexivity|].
    destruct rows as [|vals|]; cbn in Er; try discriminate Er;
      repeat match type of Er with
             | context [if ?c then _ else _] => destruct c
             end; congruence. }
  destruct (_validate_rows_cols "cols" (length data) cols) as [err|] eqn:Ec.
  { intros [= <- <-]. split; [reflexivity|].
    destruct cols as [|vals|]; cbn in Ec; try discriminate Ec;
      repeat match type of Ec with
             | context [if ?c then _ else _] => destruct c
             end; congruence. }
  assert (G : forall positioned : res (list (nat * props)),
             (forall d, positioned = OK d -> length d = length data) ->
             match positioned with
             | Raise e => (f, inl (Grid_position_error e))
             | OK data0 =>
                 (with_data_objs (_data_objs f ++ map fst data0)
                    (with_data_defaults
                       (_data_defaults f ++ map (fun _ => []) data0)
                       (with_data (_data f ++ map snd data0) f)),
                  inr (map fst data0, map snd data0))
             end = (f', r) ->
             match r with
             | inl err => f' = f /\ err <> Traces_in_batch_context
             | inr (objs, new_traces_data) =>
                 _data f' = _data f ++ new_traces_data
                 /\ _data_defaults f'
                    = _data_defaults f
                      ++ repeat [] (length new_traces_data)
                 /\ _data_objs f' = _data_objs f ++ objs
                 /\ length objs = length new_traces_data
                 /\ (exists traces, OK data = OK traces
                                    /\ length traces = length objs)
                 /\ f' = with_data_objs (_data_objs f')
                           (with_data_defaults (_data_defaults f')
                              (with_data (_data f') f))
             end).
  { intros [d|e] Hlen; intros [= <- <-]; [|split; [easy|discriminate]].
    cbn [_data _data_defaults _data_objs with_data with_data_defaults
         with_data_objs].
    rewrite !length_map. repeat split.
    - f_equal. clear. induction d as [|x d IH]; [reflexivity|].
      cbn. now rewrite IH.
    - exists data. split; [reflexivity|]. now rewrite (Hlen d eq_refl). }
  assert (Hrc : forall rs cs d,
             apply_rows_cols grid data rs cs = OK d ->
             length d = length data).
  { clear. induction data as [|t data IH]; intros rs cs d.
    - destruct rs, cs; cbn; now intros [= <-].
    - destruct rs as [|row rs], cs as [|col cs]; cbn;
        try (now intros [= <-]).
      destruct (grid t row col) as [t'|e]; [|discriminate].
      destruct (apply_rows_cols grid data rs cs) as [rest|e] eqn:E;
        [|discriminate].
      intros [= <-]. cbn. f_equal. now apply (IH rs cs). }
  destruct rows as [|rvals|], cols as [|cvals|];
    try discriminate Er; try discriminate Ec;
    try (intros [= <- <-]; split; [reflexivity | discriminate]).
  - apply (G (OK data)). now intros d [= <-].
  - apply (G (apply_rows_cols grid data rvals cvals)).
    intros d Hd. exact (Hrc _ _ _ Hd).
Qed.

Lemma add_traces_validates_then_appends_witness :
  let f := @new_figure any_schema [[(KStr "uid", VStr "a")]] [] in
  let grid := fun (t : nat * props) (_ _ : row_col) => OK t in
  _data (fst (add_traces grid
                (OK [(1%nat, [(KStr "uid", VStr "b")])]) RC_None RC_None f))
  = [[(KStr "uid", VStr "a")]; [(KStr "uid", VStr "b")]]
  /\ fst (add_traces grid (OK [(1%nat, [])]) (RC_seq [RC_other]) RC_None f)
     = f.
Proof.
  cbv zeta. split; [reflexivity|].
  exact (proj1
    (@add_traces_validates_then_appends any_schema
       (fun t _ _ => OK t) (OK [(1%nat, [])]) (RC_seq [RC_other]) RC_None
       (@new_figure any_schema [[(KStr "uid", VStr "a")]] [])
       _ (inl (Invalid_rows_cols "rows")) eq_refl eq_refl)).
Defined.

(** X17: [add_traces] inside a [batch_update] block raises, and it
    throws the batch away: the writes to simple properties of the traces
    and of the layout that the block made before it are not committed, so
    that the block leaves the figure as it was before the block, with no
    pending edits, and nothing is sent. *)
Theorem add_traces_discards_the_batch {V : Validators}
  (grid : nat * props -> row_col -> row_col -> res (nat * props))
  (as_exn : add_traces_error -> exn)
  (stmts : list stmt) (data : res (list (nat * props)))
  (rows cols : rows_cols_arg) (f f1 : Figure) :
  _in_batch_mode f = false ->
  exec_block stmts (with_in_batch_mode true f) = (f1, OK tt) ->
  batch_update
    (bind (exec_block stmts)
          (fun _ => add_traces_stmt grid as_exn data rows cols)) f
  = (with_batch_trace_edits [] (with_batch_layout_edits [] f),
     Raise (as_exn Traces_in_batch_context)).
Proof.
  intros Hb He. unfold batch_update. rewrite Hb. unfold bind. rewrite He.
  pose proof (exec_block_batching stmts (with_in_batch_mode true f) f1
                (OK tt) eq_refl He) as Hbat.
  pose proof (batching_mode _ _ Hbat) as Hm. cbn in Hm.
  unfold add_traces_stmt, add_traces. rewrite Hm.
  rewrite build_update_params_unfold. cbv zeta.
  cbn [_batch_trace_edits _batch_layout_edits with_in_batch_mode
       with_batch_trace_edits with_batch_layout_edits dict_keys map
       sorted_set fold_right flat_map length fill_batch fold_left].
  unfold plotly_update, _perform_plotly_update.
  cbn [truthy negb andb]. unfold bind, ret.
  rewrite Hbat. f_equal.
  destruct f. cbn in Hb. subst. reflexivity.
Qed.

Lemma add_traces_discards_the_batch_witness :
  let f := @new_figure any_schema [[(KStr "uid", VStr "a")]] [] in
  batch_update
    (bind (exec_block [Assign Layout "title" (VStr "t")])
          (fun _ => add_traces_stmt (fun t _ _ => OK t)
                      (fun _ => ValueError_InvalidValue)
                      (OK [(1%nat, [])]) RC_None RC_None)) f
  = (f, Raise ValueError_InvalidValue).
Proof.
  cbv zeta.
  exact (@add_traces_discards_the_batch any_schema (fun t _ _ => OK t)
           (fun _ => ValueError_InvalidValue)
           [Assign Layout "title" (VStr "t")] (OK [(1%nat, [])])
           RC_None RC_None
           (@new_figure any_schema [[(KStr "uid", VStr "a")]] [])
           _ eq_refl eq_refl).
Defined.

(* ------------------------------------------------------------------ *)
(** ** Event callbacks of a trace *)

Section Registering.

(** The callbacks that a run of registrations names. *)
Definition named (regs : list (option nat * bool)) : list nat :=
flat_map (fun reg => match fst reg with Some cb => [cb] | None => [] end)
         regs.

Definition registered (regs : list (option nat * bool))
(callbacks : list nat) : list nat :=
fold_left (fun cbs reg => register cbs (fst reg) (snd reg)) regs callbacks.

Lemma registered_appending (regs : list (option nat * bool)) :
forallb snd regs = true ->
forall callbacks, registered regs callbacks = callbacks ++ named regs.
Proof.
unfold registered, named.
induction regs as [|[cb append] regs IH]; intros H callbacks.
- now rewrite app_nil_r.
- cbn [forallb snd] in H. apply andb_true_iff in H as [-> H].
  cbn [fold_left flat_map fst snd]. rewrite (IH H).
  unfold register. cbn [negb].
  destruct cb; [now rewrite <- app_assoc | reflexivity].
Qed.

Lemma hover_registered (regs : list (option nat * bool))
(self : trace_callbacks) :
let self' := fold_left (fun s reg => on_hover (fst reg) (snd reg) s)
                       regs self in
_hover_callbacks self' = registered regs (_hover_callbacks self)
/\ _unhover_callbacks self' = _unhover_callbacks self
/\ _click_callbacks self' = _click_callbacks self
/\ _select_callbacks self' = _select_callbacks self.
Proof.
revert self. induction regs as [|reg regs IH]; intros self;
  [now repeat split|].
cbn [fold_left]. destruct (IH (on_hover (fst reg) (snd reg) self))
  as (H1 & H2 & H3 & H4).
cbv zeta. rewrite H1, H2, H3, H4. now repeat split.
Qed.

End Registering.

(** X18: hover callbacks are called in the order they were registered,
    counting from the last registration made without [append], which
    discards the earlier ones; registering [None] adds no callback; and
    registering hover callbacks leaves the unhover, click and selection
    callbacks alone. *)
Theorem hover_callbacks_in_registration_order {Points State : Type}
  (regs : list (option nat * bool)) (self : trace_callbacks)
  (points : Points) (state : State) :
  let self' := fold_left (fun s reg => on_hover (fst reg) (snd reg) s)
                         regs self in
  (forallb snd regs = true ->
   _dispatch_on_hover self' points state
   = _dispatch_on_hover self points state
     ++ map (fun cb => (cb, points, state)) (named regs))
  /\ (forall pre cb post,
        regs = pre ++ (cb, false) :: post -> forallb snd post = true ->
        _dispatch_on_hover self' points state
        = map (fun cb => (cb, points, state)) (named ((cb, false) :: post)))
  /\ _dispatch_on_unhover self' points state
     = _dispatch_on_unhover self points state
  /\ _dispatch_on_click self' points state
     = _dispatch_on_click self points state
  /\ _dispatch_on_selection self' points state
     = _dispatch_on_selection self points state.
Proof.
  destruct (hover_registered regs self) as (H1 & H2 & H3 & H4).
  cbv zeta in *.
  unfold _dispatch_on_hover, _dispatch_on_unhover, _dispatch_on_click,
    _dispatch_on_selection.
  rewrite H1, H2, H3, H4. repeat split.
  - intros Ha. now rewrite (registered_appending regs Ha), map_app.
  - intros pre cb post -> Hp. f_equal. unfold registered.
    rewrite fold_left_app. cbn [fold_left fst snd].
    fold (registered post (register
                             (fold_left
                                (fun cbs reg =>
                                   register cbs (fst reg) (snd reg))
                                pre (_hover_callbacks self)) cb false)).
    rewrite (registered_appending post Hp).
    unfold register, named. cbn [negb flat_map fst app].
    now destruct cb.
Qed.

Lemma hover_callbacks_in_registration_order_witness :
  let self := {| _hover_callbacks := [1%nat]; _unhover_callbacks := [];
                 _click_callbacks := [2%nat]; _select_callbacks := [] |} in
  let regs := [(Some 3%nat, true); (Some 4%nat, false); (None, true);
               (Some 5%nat, true)] in
  _dispatch_on_hover
    (fold_left (fun s reg => on_hover (fst reg) (snd reg) s) regs self)
    tt tt
  = [(4%nat, tt, tt); (5%nat, tt, tt)].
Proof.
  cbv zeta.
  exact (proj1 (proj2
    (@hover_callbacks_in_registration_order unit unit
       [(Some 3%nat, true); (Some 4%nat, false); (None, true);
        (Some 5%nat, true)]
       {| _hover_callbacks := [1%nat]; _unhover_callbacks := [];
          _click_callbacks := [2%nat]; _select_callbacks := [] |}
       tt tt))
    [(Some 3%nat, true)] (Some 4%nat) [(None, true); (Some 5%nat, true)]
    eq_refl eq_refl).
Defined.

(* ------------------------------------------------------------------ *)
(** ** Paths sent up the tree *)

Module ChildPath.

Lemma digit_not_bracket (c : ascii) :
PyStr.is_digit c = true -> Ascii.eqb c "]" = false.
Proof.
destruct c as [[|] [|] [|] [|] [|] [|] [|] [|]]; cbn;
  intros H; try discriminate H; reflexivity.
Qed.

Lemma digits_no_bracket (cs : list ascii) :
PathFacts.digits cs ->
existsb (fun x => Ascii.eqb x "]") cs = false.
Proof.
induction 1 as [|c cs Hc _ IH]; [reflexivity|]. cbn.
now rewrite (digit_not_bracket c Hc), IH.
Qed.

(** A string with no closing bracket does not match the bracket
  pattern. *)
Lemma no_bracket_no_match (s : string) :
has_char "]" s = false -> PyStr.bracket_fullmatch s = None.
Proof.
intros H. destruct (PyStr.bracket_fullmatch s) as [[name idx]|] eqn:E;
  [|reflexivity].
destruct (PathShape.bracket_fullmatch_shape _ _ _ E) as (-> & _ & _).
rewrite !PathFacts.has_char_app in H. cbn in H.
now rewrite !orb_true_r in H.
Qed.

Lemma parse_decimal (z : Z) :
0 <= z -> _str_to_dict_path (Str (PyStr.decimal z)) = [KInt z].
Proof.
intros Hz. unfold _str_to_dict_path.
rewrite (PathFacts.split_dot_plain _ (PathFacts.no_dot_decimal z)).
cbn [split_brackets].
rewrite no_bracket_no_match.
- cbn [map]. now rewrite PathFacts.to_key_decimal.
- apply digits_no_bracket, PathFacts.decimal_digits.
Qed.

End ChildPath.

(** X19: the path string that [_prop_set_child] sends on to the parent
    is read, as a key path, as the key path of the child's name, then
    the position of the child if it is an element of a compound array,
    then the key path of the change below the child. *)
Theorem obj_path_composes (child_name : string) (child : nat)
  (val : child_prop_val) (prop_path_str path : string) :
  obj_path child_name child val prop_path_str = OK path ->
  _str_to_dict_path (Str path)
  = _str_to_dict_path (Str child_name)
    ++ match val with
       | Child_tuple objs =>
           match _index_is objs child with
           | Some child_ind => [KInt (Z.of_nat child_ind)]
           | None => []
           end
       | Child_object _ => []
       end
    ++ _str_to_dict_path (Str prop_path_str).
Proof.
  unfold obj_path. destruct val as [obj|objs].
  - intros [= <-]. apply PathShape.parse_join.
  - destruct (_index_is objs child) as [i|]; [|discriminate].
    intros [= <-].
    change (String "." (PyStr.decimal (Z.of_nat i)
                          ++ String "." prop_path_str))
      with ("." ++ PyStr.decimal (Z.of_nat i) ++ "." ++ prop_path_str)%string.
    rewrite !PathShape.parse_join.
    now rewrite ChildPath.parse_decimal by lia.
Qed.

Lemma obj_path_composes_witness :
  obj_path "annotations" 7 (Child_tuple [5; 7]%nat) "font.size"
  = OK "annotations.1.font.size"
  /\ _str_to_dict_path (Str "annotations.1.font.size")
     = [KStr "annotations"; KInt 1; KStr "font"; KStr "size"].
Proof.
  split; [reflexivity|].
  exact (obj_path_composes "annotations" 7 (Child_tuple [5; 7]%nat)
           "font.size" "annotations.1.font.size" eq_refl).
Defined.

(* ------------------------------------------------------------------ *)
(** ** Subplot properties with the suffix 1 *)

Module Subplot.

Lemma strip_prefix_app (pre s rest : string) :
strip_prefix pre s = Some rest -> s = (pre ++ rest)%string.
Proof.
revert s. induction pre as [|a pre IH]; intros s; cbn.
- now intros [= ->].
- destruct s as [|b s]; [discriminate|].
  destruct (Ascii.eqb a b) eqn:E; [|discriminate].
  apply Ascii.eqb_eq in E. subst b. intros H. now rewrite (IH _ H).
Qed.

Lemma strip_prefix_self (pre rest : string) :
strip_prefix pre (pre ++ rest) = Some rest.
Proof.
induction pre as [|a pre IH]; cbn; [reflexivity|].
now rewrite Ascii.eqb_refl.
Qed.

(** What the pattern matches: a subplot name and a non-empty run of
  digits. *)
Lemma fullmatch_shape (prop name digits : string) :
_subplotid_prop_re_fullmatch prop = Some (name, digits) ->
In name _subplotid_prop_names
/\ prop = (name ++ digits)%string
/\ list_ascii_of_string digits <> []
/\ PathFacts.digits (list_ascii_of_string digits).
Proof.
unfold _subplotid_prop_re_fullmatch.
generalize _subplotid_prop_names as names.
induction names as [|n names IH]; [discriminate|].
destruct (strip_prefix n prop) as [d|] eqn:E.
- destruct (nonempty (list_ascii_of_string d)
            && forallb PyStr.is_digit (list_ascii_of_string d)) eqn:C.
  + intros [= <- <-]. apply andb_true_iff in C as [C1 C2].
    split; [now left|]. split; [now apply strip_prefix_app|].
    split.
    * intros H. now rewrite H in C1.
    * apply Forall_forall. rewrite forallb_forall in C2. exact C2.
  + intros H. destruct (IH H) as (Hin & R). split; [now right | exact R].
- intros H. destruct (IH H) as (Hin & R). split; [now right | exact R].
Qed.

Lemma uint_of_digits (cs : list ascii) :
PathFacts.digits cs ->
exists u,
  DecimalString.NilEmpty.uint_of_string (string_of_list_ascii cs)
  = Some u.
Proof.
induction 1 as [|c cs Hc _ [u IH]]; [now exists Decimal.Nil|].
cbn [string_of_list_ascii DecimalString.NilEmpty.uint_of_string].
rewrite IH.
destruct c as [[|] [|] [|] [|] [|] [|] [|] [|]]; cbn in Hc |- *;
  try discriminate Hc; eexists; reflexivity.
Qed.

(** [int] accepts every non-empty run of digits. *)
Lemma int_of_digits (digits : string) :
list_ascii_of_string digits <> [] ->
PathFacts.digits (list_ascii_of_string digits) ->
exists z, PyStr.int digits = Some z.
Proof.
intros Hne Hd. unfold PyStr.int.
rewrite (PathFacts.strip_digits _ Hd).
destruct (list_ascii_of_string digits) as [|c r] eqn:E; [contradiction|].
inversion Hd as [|? ? Hc Hr]; subst.
destruct (PathFacts.digit_facts c Hc) as (_ & -> & -> & _).
unfold PyStr.nat_literal. cbn [PyStr.int_digits]. rewrite Hc.
rewrite (PathFacts.int_digits_all r Hr). cbn [option_map].
destruct (uint_of_digits (c :: r) Hd) as [u ->]. now eexists.
Qed.

(** A subplot name alone is left as it is. *)
Lemma strip_name (name : string) :
In name _subplotid_prop_names ->
_strip_subplot_suffix_of_1 (Str name) = OK (Str name).
Proof.
intros [<-|[<-|[<-|[<-|[<-|[]]]]]]; reflexivity.
Qed.

End Subplot.

(** X20: [_strip_subplot_suffix_of_1] always returns; what it returns it
    leaves unchanged when applied again; and it turns a subplot name
    followed by the number 1 into the name alone, while the name
    followed by another number stays as it is. *)
Theorem strip_subplot_suffix_of_1_normalizes :
  (forall prop, exists prop',
      _strip_subplot_suffix_of_1 prop = OK prop'
      /\ _strip_subplot_suffix_of_1 prop' = OK prop')
  /\ (forall name n,
        In name _subplotid_prop_names -> 0 <= n ->
        _strip_subplot_suffix_of_1 (Str (name ++ PyStr.decimal n))
        = OK (Str (if n =? 1 then name
                   else (name ++ PyStr.decimal n)%string))).
Proof.
  split.
  - intros prop. unfold _strip_subplot_suffix_of_1 at 1.
    destruct (_str_to_dict_path prop) as [|[p|i] [|k l]] eqn:Ep;
      try (exists prop; split; [reflexivity|];
           unfold _strip_subplot_suffix_of_1; now rewrite Ep).
    assert (Hagain : forall q,
               _str_to_dict_path (Str p) = [KStr q] -> q = p).
    { intros q Hq. now destruct (PathShape.parse_single_name _ _ Hq). }
    assert (Hkeep :
              (match _subplotid_prop_re_fullmatch p with
               | Some (subplot_prop, digits) =>
                   match PyStr.int digits with
                   | Some suffix_digit =>
                       nonempty (list_ascii_of_string subplot_prop)
                       && (suffix_digit =? 1)
                   | None => false
                   end
               | None => false
               end = false) ->
              _strip_subplot_suffix_of_1 (Str p) = OK (Str p)).
    { intros Hk. unfold _strip_subplot_suffix_of_1.
      destruct (_str_to_dict_path (Str p)) as [|[q|i] [|k l]] eqn:Eq;
        try reflexivity.
      rewrite (Hagain q eq_refl).
      destruct (_subplotid_prop_re_fullmatch p) as [[nm ds]|] eqn:Em;
        [|reflexivity].
      destruct (Subplot.fullmatch_shape _ _ _ Em) as (_ & _ & Hne & Hd).
      destruct (Subplot.int_of_digits ds Hne Hd) as [z Hz].
      rewrite Hz in Hk |- *. now rewrite Hk. }
    destruct (_subplotid_prop_re_fullmatch p) as [[nm ds]|] eqn:Em.
    + destruct (Subplot.fullmatch_shape _ _ _ Em) as (Hin & _ & Hne & Hd).
      destruct (Subplot.int_of_digits ds Hne Hd) as [z Hz]. rewrite Hz.
      destruct (nonempty (list_ascii_of_string nm) && (z =? 1)) eqn:C.
      * exists (Str nm). split; [reflexivity|].
        now apply Subplot.strip_name.
      * exists (Str p). split; [reflexivity|]. apply Hkeep.
        now rewrite Hz.
    + exists (Str p). split; [reflexivity|]. now apply Hkeep.
  - intros name n Hin Hn.
    assert (Hd := PathFacts.decimal_digits n).
    assert (Hne := PathFacts.decimal_nonempty n).
    assert (Hm : _subplotid_prop_re_fullmatch (name ++ PyStr.decimal n)
                 = Some (name, PyStr.decimal n)).
    { assert (Hc : nonempty (list_ascii_of_string (PyStr.decimal n))
                   && forallb PyStr.is_digit
                        (list_ascii_of_string (PyStr.decimal n)) = true).
      { apply andb_true_iff. split.
        - destruct (list_ascii_of_string (PyStr.decimal n));
            [contradiction | reflexivity].
        - apply forallb_forall. now apply Forall_forall. }
      destruct Hin as [<-|[<-|[<-|[<-|[<-|[]]]]]];
        unfold _subplotid_prop_re_fullmatch, _subplotid_prop_names;
        cbn [strip_prefix String.append Ascii.eqb Bool.eqb];
        now rewrite Hc. }
    assert (Hp : _str_to_dict_path (Str (name ++ PyStr.decimal n))
                 = [KStr (name ++ PyStr.decimal n)]).
    { unfold _str_to_dict_path.
      assert (Hdot : has_char "." (name ++ PyStr.decimal n) = false).
      { rewrite PathFacts.has_char_app, PathFacts.no_dot_decimal.
        destruct Hin as [<-|[<-|[<-|[<-|[<-|[]]]]]]; reflexivity. }
      rewrite (PathFacts.split_dot_plain _ Hdot). cbn [split_brackets].
      rewrite ChildPath.no_bracket_no_match.
      - cbn [map]. unfold to_key, PyStr.int.
        rewrite PathFacts.chars_app.
        assert (Hs : forall a r,
                   PyStr.is_space a = false ->
                   PyStr.strip
                     ((a :: r) ++ list_ascii_of_string (PyStr.decimal n))
                   = (a :: r) ++ list_ascii_of_string (PyStr.decimal n)).
        { intros a r Ha. unfold PyStr.strip.
          cbn [app PyStr.dropwhile]. rewrite Ha.
          change (a :: r ++ list_ascii_of_string (PyStr.decimal n))
            with ((a :: r) ++ list_ascii_of_string (PyStr.decimal n)).
          rewrite rev_app_distr.
          destruct (rev (list_ascii_of_string (PyStr.decimal n)))
            as [|c cs] eqn:Er.
          - apply (f_equal (@rev ascii)) in Er.
            rewrite rev_involutive in Er. contradiction.
          - assert (Hcd : PyStr.is_digit c = true).
            { pose proof (PathFacts.digits_rev _ Hd) as Hrd.
              rewrite Er in Hrd. now inversion Hrd. }
            destruct (PathFacts.digit_facts c Hcd) as (Hsp & _).
            cbn [app PyStr.dropwhile]. rewrite Hsp.
            change (c :: cs ++ rev (a :: r))
              with ((c :: cs) ++ rev (a :: r)).
            rewrite <- Er, <- rev_app_distr. apply rev_involutive. }
        destruct Hin as [<-|[<-|[<-|[<-|[<-|[]]]]]];
          cbn [list_ascii_of_string];
          rewrite Hs by reflexivity; reflexivity.
      - rewrite PathFacts.has_char_app.
        unfold has_char at 2.
        rewrite (ChildPath.digits_no_bracket _ Hd).
        destruct Hin as [<-|[<-|[<-|[<-|[<-|[]]]]]]; reflexivity. }
    unfold _strip_subplot_suffix_of_1. rewrite Hp, Hm.
    rewrite (PathFacts.int_decimal n Hn).
    assert (Hnm : nonempty (list_ascii_of_string name) = true)
      by (destruct Hin as [<-|[<-|[<-|[<-|[<-|[]]]]]]; reflexivity).
    rewrite Hnm. cbn [andb]. now destruct (n =? 1).
Qed.

Lemma strip_subplot_suffix_of_1_normalizes_witness :
  _strip_subplot_suffix_of_1 (Str "yaxis1") = OK (Str "yaxis")
  /\ _strip_subplot_suffix_of_1 (Str "yaxis12") = OK (Str "yaxis12")
  /\ _strip_subplot_suffix_of_1 (Tuple [KStr "geo01"]) = OK (Str "geo").
Proof.
  split; [|split; [|reflexivity]].
  - exact (proj2 strip_subplot_suffix_of_1_normalizes "yaxis" 1
             ltac:(cbn; tauto) ltac:(lia)).
  - exact (proj2 strip_subplot_suffix_of_1_normalizes "yaxis" 12
             ltac:(cbn; tauto) ltac:(lia)).
Defined.

(* ------------------------------------------------------------------ *)
(** ** What the [data] setter leaves behind *)

Section Reorder.
Context {V : Validators}.

(** [l.index(u)], for a [u] that is in [l]. *)
Definition position (u : value) (l : list value) : nat :=
match index_of uid_eqb u l with
| Some n => n
| None => O
end.

(** The positions, counted from [i], of the uids that are in [R]. *)
Fixpoint removed_at (i : nat) (uids R : list value) : list nat :=
match uids with
| [] => []
| u :: t => if mem_uid u R then i :: removed_at (S i) t R
            else removed_at (S i) t R
end.

(** What is paired with the uids that are not in [R]. *)
Definition kept {A : Type} (uids R : list value) (l : list A) : list A :=
map snd (filter (fun ux => negb (mem_uid (fst ux) R)) (combine uids l)).

Lemma removed_at_shift (i : nat) (uids R : list value) :
removed_at (S i) uids R = map S (removed_at i uids R).
Proof.
revert i. induction uids as [|u t IH]; intros i; [reflexivity|].
cbn [removed_at]. destruct (mem_uid u R); cbn [map]; now rewrite IH.
Qed.

Lemma unparent_removed_inds (f : Figure) (R : list value) :
forall (uids : list value) (i : nat),
  (i + length uids <= length (_data_objs f))%nat ->
  exists orphans,
    unparent_removed f i uids R = OK (removed_at i uids R, orphans).
Proof.
induction uids as [|u t IH]; intros i Hlen; [now eexists|].
cbn [unparent_removed removed_at length] in *.
destruct (IH (S i) ltac:(lia)) as [orph Ho].
destruct (mem_uid u R).
- destruct (nth_error (_data_objs f) i) as [obj|] eqn:En.
  + rewrite Ho. now eexists.
  + apply nth_error_None in En. lia.
- rewrite Ho. now eexists.
Qed.

Lemma del_shift {A : Type} (inds : list nat) (h : A) (t : list A) :
fold_right (fun i l => remove_at i l) (h :: t) (map S inds)
= h :: fold_right (fun i l => remove_at i l) t inds.
Proof.
induction inds as [|i inds IH]; [reflexivity|].
cbn [map fold_right]. now rewrite IH.
Qed.

(** Deleting the removed positions, from the last to the first, keeps
  what belongs to the other uids, in order. *)
Lemma del_kept {A : Type} (R : list value) :
forall (uids : list value) (l : list A),
  length l = length uids ->
  fold_left (fun l i => remove_at i l) (rev (removed_at 0 uids R)) l
  = kept uids R l.
Proof.
intros uids l Hlen.
rewrite <- (fold_left_rev_right (fun i l => remove_at i l)).
rewrite rev_involutive. revert l Hlen.
induction uids as [|u t IH]; intros [|x l] Hlen; try discriminate Hlen;
  [reflexivity|].
cbn [removed_at]. rewrite removed_at_shift. unfold kept.
cbn [combine filter fst]. injection Hlen as Hlen.
destruct (mem_uid u R); cbn [negb].
- cbn [fold_right]. rewrite del_shift. cbn [remove_at].
  now apply IH.
- rewrite del_shift. cbn [map snd]. f_equal. now apply IH.
Qed.

Lemma uids_of_length (data : list props) (uids : list value) :
uids_of data = OK uids -> length uids = length data.
Proof.
revert uids. induction data as [|d data IH]; intros uids.
- now intros [= <-].
- cbn [uids_of]. destruct (dict_get key_eqb (KStr "uid") d); [|discriminate].
  destruct (uids_of data) as [us|e]; [|discriminate].
  intros [= <-]. cbn. f_equal. now apply IH.
Qed.

Lemma kept_uids (uids R : list value) :
kept uids R uids = filter (fun u => negb (mem_uid u R)) uids.
Proof.
unfold kept. induction uids as [|u t IH]; [reflexivity|].
cbn [combine filter fst]. destruct (mem_uid u R); cbn [negb map snd];
  now rewrite IH.
Qed.

Lemma kept_length {A : Type} (uids R : list value) (l : list A) :
length l = length uids ->
length (kept uids R l) = length (kept uids R uids).
Proof.
unfold kept. revert l. induction uids as [|u t IH]; intros [|x l] H;
  try discriminate H; [reflexivity|].
injection H as H. cbn [combine filter fst].
destruct (mem_uid u R); cbn [negb map length]; auto.
Qed.

(** The uids and what is kept with them go together. *)
Lemma kept_combine {A : Type} (uids R : list value) (l : list A) :
length l = length uids ->
combine (kept uids R uids) (kept uids R l)
= filter (fun ux => negb (mem_uid (fst ux) R)) (combine uids l).
Proof.
unfold kept. revert l. induction uids as [|u t IH]; intros [|x l] H;
  try discriminate H; [reflexivity|].
injection H as H. cbn [combine filter fst].
destruct (mem_uid u R); cbn [negb map snd combine]; now rewrite IH.
Qed.

End Reorder.

Section SortFacts.
Context {A : Type}.

Lemma has_duplicates_nodup (l : list nat) :
has_duplicates l = false <-> NoDup l.
Proof.
induction l as [|x l IH]; cbn [has_duplicates].
- split; [constructor | reflexivity].
- rewrite orb_false_iff, IH. split.
  + intros [Hx Hl]. constructor; [|exact Hl].
    intros Hin. assert (existsb (Nat.eqb x) l = true); [|congruence].
    apply existsb_exists. exists x. split; [exact Hin|].
    apply Nat.eqb_refl.
  + intros H. inversion H as [|? ? Hx Hl]; subst. split; [|exact Hl].
    destruct (existsb (Nat.eqb x) l) eqn:E; [|reflexivity].
    apply existsb_exists in E as (y & Hy & Hxy).
    apply Nat.eqb_eq in Hxy. subst y. contradiction.
Qed.

Lemma insert_by_index_perm (x : nat * A) (l : list (nat * A)) :
Permutation (insert_by_index x l) (x :: l).
Proof.
induction l as [|y l IH]; cbn [insert_by_index]; [reflexivity|].
destruct (Nat.leb (fst x) (fst y)); [reflexivity|].
rewrite IH. apply perm_swap.
Qed.

Lemma isort_perm (l : list (nat * A)) :
Permutation (fold_right insert_by_index [] l) l.
Proof.
induction l as [|x l IH]; cbn [fold_right]; [reflexivity|].
rewrite insert_by_index_perm. now constructor.
Qed.

Lemma insert_by_index_sorted (x : nat * A) (l : list (nat * A)) :
StronglySorted le (map fst l) ->
StronglySorted le (map fst (insert_by_index x l)).
Proof.
induction l as [|y l IH]; cbn [insert_by_index map]; intros H.
- repeat constructor.
- inversion H as [|? ? Hl Hy]; subst.
  destruct (Nat.leb_spec (fst x) (fst y)) as [Hle|Hgt]; cbn [map].
  + constructor; [exact H|]. constructor; [exact Hle|].
    rewrite Forall_forall in *. intros z Hz. specialize (Hy z Hz). lia.
  + constructor; [now apply IH|].
    rewrite Forall_forall in *. intros z Hz.
    apply (Permutation_in _ (Permutation_map fst
                               (insert_by_index_perm x l))) in Hz.
    cbn [map] in Hz. destruct Hz as [<-|Hz]; [lia | now apply Hy].
Qed.

Lemma isort_sorted (l : list (nat * A)) :
StronglySorted le (map fst (fold_right insert_by_index [] l)).
Proof.
induction l as [|x l IH]; cbn [fold_right]; [constructor|].
now apply insert_by_index_sorted.
Qed.

Lemma sorted_nodup_strict (l : list nat) :
StronglySorted le l -> NoDup l -> StronglySorted lt l.
Proof.
induction 1 as [|x l Hl IH Hx]; intros Hnd; [constructor|].
inversion Hnd as [|? ? Hnotin Hnd']; subst.
constructor; [now apply IH|].
rewrite Forall_forall in *. intros y Hy. specialize (Hx y Hy).
assert (x <> y) by (intros ->; contradiction). lia.
Qed.

(** A strictly increasing list of the numbers from [k] to [k + n - 1]
  is their sequence. *)
Lemma sorted_range (n : nat) :
forall (k : nat) (l : list nat),
  StronglySorted lt l ->
  (forall x, In x l <-> (k <= x < k + n)%nat) ->
  l = seq k n.
Proof.
induction n as [|n IH]; intros k l Hs Hm.
- destruct l as [|a t]; [reflexivity|].
  specialize (proj1 (Hm a) (or_introl eq_refl)). lia.
- destruct l as [|a t].
  + specialize (proj2 (Hm k) ltac:(lia)). intros [].
  + inversion Hs as [|? ? Ht Ha]; subst. rewrite Forall_forall in Ha.
    assert (Hak : a = k).
    { pose proof (proj1 (Hm a) (or_introl eq_refl)) as Hr.
      destruct (proj2 (Hm k) ltac:(lia)) as [E|Hin]; [now symmetry|].
      specialize (Ha k Hin). lia. }
    subst a. cbn [seq]. f_equal. apply IH; [exact Ht|].
    intros x. split.
    * intros Hx. specialize (Ha x Hx).
      pose proof (proj1 (Hm x) (or_intror Hx)). lia.
    * intros Hx. destruct (proj2 (Hm x) ltac:(lia)) as [E|Hin];
        [lia | exact Hin].
Qed.

Lemma insert_at_end (x : A) (l : list A) :
insert_at (length l) x l = l ++ [x].
Proof.
unfold insert_at. now rewrite firstn_all, skipn_all.
Qed.

(** Inserting at the positions [k], [k + 1], ... appends. *)
Lemma insert_in_order (l : list (nat * A)) :
forall acc : list A,
  map fst l = seq (length acc) (length l) ->
  fold_left (fun l '(ni, trace_data) => insert_at ni trace_data l) l acc
  = acc ++ map snd l.
Proof.
induction l as [|[n x] l IH]; intros acc H.
- now rewrite app_nil_r.
- cbn [map fst length seq] in H. injection H as -> H.
  cbn [fold_left map snd]. rewrite insert_at_end.
  rewrite IH.
  + now rewrite <- app_assoc.
  + rewrite length_app. cbn [length]. now rewrite Nat.add_1_r.
Qed.

(** Sorting what is in order changes nothing. *)
Lemma isort_id (l : list (nat * A)) :
StronglySorted le (map fst l) ->
fold_right insert_by_index [] l = l.
Proof.
induction l as [|x l IH]; [reflexivity|]. cbn [map]. intros H.
inversion H as [|? ? Hl Hx]; subst. cbn [fold_right]. rewrite (IH Hl).
destruct l as [|y l]; [reflexivity|]. cbn [insert_by_index].
cbn [map] in Hx. inversion Hx as [|? ? Hxy _]; subst.
apply Nat.leb_le in Hxy. now rewrite Hxy.
Qed.

(** In a list whose indexes are 0, 1, ..., an element stands at its
  index. *)
Lemma at_its_index (l : list (nat * A)) (n : nat) (x : A) :
map fst l = seq 0 (length l) -> In (n, x) l ->
nth_error (map snd l) n = Some x.
Proof.
intros Hfst Hin. apply in_split in Hin as (l1 & l2 & ->).
assert (Hn : nth_error (map fst (l1 ++ (n, x) :: l2)) (length l1)
             = Some n).
{ rewrite map_app, nth_error_app2; rewrite length_map; [|lia].
  now rewrite Nat.sub_diag. }
rewrite Hfst in Hn.
assert (Hlt : (length l1 < length (l1 ++ (n, x) :: l2))%nat).
{ rewrite length_app. cbn [length]. lia. }
rewrite (nth_error_nth' _ O) in Hn by (now rewrite length_seq).
rewrite seq_nth in Hn by exact Hlt. injection Hn as <-.
rewrite map_app, nth_error_app2; rewrite length_map; [|lia].
now rewrite Nat.sub_diag.
Qed.

Lemma map_fst_combine {B : Type} (a : list B) (b : list A) :
length a = length b -> map fst (combine a b) = a.
Proof.
revert b. induction a as [|x a IH]; intros [|y b] H;
  try discriminate H; [reflexivity|].
injection H as H. cbn. now rewrite IH.
Qed.

Lemma map_snd_combine {B : Type} (a : list B) (b : list A) :
length a = length b -> map snd (combine a b) = b.
Proof.
revert b. induction a as [|x a IH]; intros [|y b] H;
  try discriminate H; [reflexivity|].
injection H as H. cbn. now rewrite IH.
Qed.

End SortFacts.

Section UidFacts.
Context {V : Validators}.

Lemma index_of_uid_nth (u : value) (l : list value) (i : nat) :
index_of uid_eqb u l = Some i -> nth_error l i = Some u.
Proof.
revert i. induction l as [|y l IH]; intros i; [discriminate|].
cbn [index_of]. destruct (uid_eqb u y) eqn:E.
- apply uid_eqb_eq in E. subst y. now intros [= <-].
- destruct (index_of uid_eqb u l) as [j|]; [|discriminate].
  intros [= <-]. now apply IH.
Qed.

Lemma index_of_uid_in (u : value) (l : list value) :
hashable u = true -> In u l ->
exists i, index_of uid_eqb u l = Some i.
Proof.
intros Hu. induction l as [|y l IH]; [intros []|]. cbn [index_of].
destruct (uid_eqb u y) eqn:E; [now eexists|].
intros [->|Hin].
- now rewrite (uid_eqb_refl u Hu) in E.
- destruct (IH Hin) as [i ->]. now eexists.
Qed.

Lemma position_nth (u : value) (l : list value) :
hashable u = true -> In u l ->
nth_error l (position u l) = Some u.
Proof.
intros Hu Hin. unfold position.
destruct (index_of_uid_in u l Hu Hin) as [i Hi]. rewrite Hi.
now apply index_of_uid_nth.
Qed.

Lemma position_unique (u : value) (l : list value) (i : nat) :
NoDup l -> hashable u = true -> nth_error l i = Some u ->
position u l = i.
Proof.
intros Hnd Hu Hi.
assert (Hin : In u l) by (eapply nth_error_In; eauto).
pose proof (position_nth u l Hu Hin) as Hp.
apply (proj1 (NoDup_nth_error l) Hnd).
- apply nth_error_Some. congruence.
- congruence.
Qed.

Lemma count_uid_in (u : value) (l : list value) :
hashable u = true -> In u l -> (1 <= count_uid u l)%nat.
Proof.
intros Hu. induction l as [|x l IH]; [intros []|]. cbn [count_uid].
intros [->|Hin].
- rewrite (uid_eqb_refl u Hu). lia.
- specialize (IH Hin). lia.
Qed.

Lemma counted_once_nodup (l : list value) :
forallb hashable l = true ->
forallb (fun u => Nat.leb (count_uid u l) 1) l = true -> NoDup l.
Proof.
induction l as [|x l IH]; intros Hh Hc; [constructor|].
cbn [forallb] in Hh, Hc. apply andb_true_iff in Hh as [Hx Hh].
apply andb_true_iff in Hc as [Hcx Hc]. apply Nat.leb_le in Hcx.
cbn [count_uid] in Hcx. rewrite (uid_eqb_refl x Hx) in Hcx.
constructor.
- intros Hin. pose proof (count_uid_in x l Hx Hin). lia.
- apply (IH Hh). apply forallb_forall. intros u Hu.
  rewrite forallb_forall in Hc. specialize (Hc u Hu).
  apply Nat.leb_le in Hc. apply Nat.leb_le. cbn [count_uid] in Hc. lia.
Qed.

Lemma hashable_in (l : list value) (u : value) :
forallb hashable l = true -> In u l -> hashable u = true.
Proof. intros H Hin. rewrite forallb_forall in H. now apply H. Qed.

(** What the setter accepts: the new uids are hashable, distinct and
  among the current ones. *)
Lemma accepted_uids (orig_uids : list value) (elems : list data_elem) :
forallb hashable orig_uids = true ->
permutation_of_subset orig_uids (Sequence elems) = true ->
forallb is_trace elems = true
/\ forallb hashable (map elem_uid elems) = true
/\ (forall u, In u (map elem_uid elems) -> In u orig_uids)
/\ NoDup (map elem_uid elems).
Proof.
intros Ho. unfold permutation_of_subset.
intros H. apply andb_true_iff in H as [H Hc].
apply andb_true_iff in H as [Ht Hm].
assert (Hin : forall u, In u (map elem_uid elems) -> In u orig_uids).
{ intros u Hu. rewrite forallb_forall in Hm. specialize (Hm u Hu).
  unfold mem_uid in Hm. apply existsb_exists in Hm as (x & Hx & E).
  apply uid_eqb_eq in E. now subst. }
assert (Hh : forallb hashable (map elem_uid elems) = true).
{ apply forallb_forall. intros u Hu.
  exact (hashable_in orig_uids u Ho (Hin u Hu)). }
repeat split; auto. now apply counted_once_nodup.
Qed.

Lemma validate_new_data_ok (f : Figure) (orig_uids : list value)
(elems : list data_elem) :
uids_of (_data f) = OK orig_uids ->
forallb hashable orig_uids = true ->
permutation_of_subset orig_uids (Sequence elems) = true ->
validate_new_data f (Sequence elems)
= OK (elems, orig_uids, map elem_uid elems).
Proof.
intros Hu Ho Hp.
destruct (accepted_uids orig_uids elems Ho Hp) as (Ht & Hh & Hin & Hnd).
unfold validate_new_data. rewrite Ht, Hu, Hh, Ho. cbn [negb orb].
assert (E1 : existsb (fun u => negb (mem_uid u orig_uids))
                     (map elem_uid elems) = false).
{ destruct (existsb _ (map elem_uid elems)) eqn:E; [|reflexivity].
  apply existsb_exists in E as (u & Hu1 & Hu2).
  apply negb_true_iff in Hu2.
  rewrite (proj2 (mem_uid_in u orig_uids (hashable_in _ _ Hh Hu1))
             (Hin u Hu1)) in Hu2. discriminate. }
rewrite E1.
assert (E2 : nonempty (duplicates (map elem_uid elems)) = false).
{ apply (duplicates_none _ Hh). unfold permutation_of_subset in Hp.
  apply andb_true_iff in Hp as [_ Hc]. exact Hc. }
now rewrite E2.
Qed.

Lemma nodup_map_on (g : value -> nat) (l : list value) :
(forall x y, In x l -> In y l -> g x = g y -> x = y) ->
NoDup l -> NoDup (map g l).
Proof.
intros Hinj. induction 1 as [|x l Hx Hl IH]; [constructor|].
cbn [map]. constructor.
- intros Hin. apply in_map_iff in Hin as (y & Hy & Hyl).
  assert (y = x).
  { apply Hinj; [now right | now left | exact Hy]. }
  subst y. contradiction.
- apply IH. intros a b Ha Hb. apply Hinj; now right.
Qed.

Lemma forallb_eq_combine (a b : list nat) :
length a = length b ->
forallb (fun '(i1, i2) => Nat.eqb i1 i2) (combine a b) = true -> a = b.
Proof.
revert b. induction a as [|x a IH]; intros [|y b] Hl;
  try discriminate Hl; [reflexivity|].
injection Hl as Hl. cbn [combine forallb]. intros H.
apply andb_true_iff in H as [Hxy H]. apply Nat.eqb_eq in Hxy.
subst y. f_equal. now apply IH.
Qed.

End UidFacts.

Section Rearranged.
Context {V : Validators}.

Lemma in_combine_nth {A B : Type} (a : list A) (b : list B) (x : A) (y : B) :
In (x, y) (combine a b) ->
exists p, nth_error a p = Some x /\ nth_error b p = Some y.
Proof.
revert b. induction a as [|h a IH]; intros [|k b]; try (intros []).
- injection H as -> ->. now exists O.
- destruct (IH b H) as (p & Hp1 & Hp2). now exists (S p).
Qed.

Lemma nth_combine {A B : Type} (a : list A) (b : list B) (i : nat)
(x : A) (y : B) :
nth_error a i = Some x -> nth_error b i = Some y ->
nth_error (combine a b) i = Some (x, y).
Proof.
revert a b. induction i as [|i IH]; intros [|h a] [|k b]; try discriminate.
- now intros [= ->] [= ->].
- cbn [nth_error combine]. apply IH.
Qed.

(** What is kept with a uid is what stood at the uid's position. *)
Lemma kept_lookup {A : Type} (uids R : list value) (l : list A)
(i : nat) (u : value) (x : A) :
length l = length uids -> NoDup uids -> hashable u = true ->
nth_error (kept uids R uids) i = Some u ->
nth_error (kept uids R l) i = Some x ->
nth_error l (position u uids) = Some x.
Proof.
intros Hlen Hnd Hu Hi Hx.
pose proof (nth_combine _ _ _ _ _ Hi Hx) as Hc.
rewrite (kept_combine uids R l Hlen) in Hc.
apply nth_error_In in Hc. apply filter_In in Hc as [Hc _].
apply in_combine_nth in Hc as (p & Hp1 & Hp2).
now rewrite (position_unique u uids p Hnd Hu Hp1).
Qed.

(** The uids that stay are the new ones. *)
Lemma stay_iff (orig_uids new_uids : list value) (u : value) :
forallb hashable orig_uids = true ->
(forall u, In u new_uids -> In u orig_uids) ->
In u (filter
        (fun u =>
           negb (mem_uid u (filter (fun u => negb (mem_uid u new_uids))
                                   orig_uids))) orig_uids)
<-> In u new_uids.
Proof.
intros Ho Hin. rewrite filter_In. split.
- intros [Hu Hm]. pose proof (hashable_in _ _ Ho Hu) as Hh.
  destruct (mem_uid u new_uids) eqn:E.
  + now apply (mem_uid_in u new_uids Hh).
  + apply negb_true_iff in Hm.
    assert (Hr : mem_uid u (filter (fun u => negb (mem_uid u new_uids))
                                   orig_uids) = true).
    { apply (mem_uid_in u _ Hh). apply filter_In. now rewrite E. }
    congruence.
- intros Hu. split; [now apply Hin|].
  pose proof (hashable_in _ _ Ho (Hin u Hu)) as Hh.
  apply negb_true_iff.
  destruct (mem_uid u (filter _ orig_uids)) eqn:E; [|reflexivity].
  apply (mem_uid_in u _ Hh) in E. apply filter_In in E as [_ E].
  apply negb_true_iff in E.
  now rewrite (proj2 (mem_uid_in u new_uids Hh) Hu) in E.
Qed.

(** The new indexes of the traces that stay are the numbers below the
  number of new uids, each once. *)
Lemma new_inds_range (new_uids uids_post : list value) :
NoDup new_uids -> NoDup uids_post ->
forallb hashable new_uids = true ->
(forall u, In u uids_post <-> In u new_uids) ->
NoDup (map (fun u => position u new_uids) uids_post)
/\ (forall n, In n (map (fun u => position u new_uids) uids_post)
              <-> (n < length new_uids)%nat).
Proof.
intros Hn Hp Hh Hiff. split.
- apply nodup_map_on; [|exact Hp]. intros x y Hx Hy E.
  apply Hiff in Hx, Hy.
  pose proof (position_nth x new_uids (hashable_in _ _ Hh Hx) Hx) as Ex.
  pose proof (position_nth y new_uids (hashable_in _ _ Hh Hy) Hy) as Ey.
  rewrite E in Ex. congruence.
- intros n. rewrite in_map_iff. split.
  + intros (u & <- & Hu). apply Hiff in Hu. apply nth_error_Some.
    now rewrite (position_nth u new_uids (hashable_in _ _ Hh Hu) Hu).
  + intros Hlt. apply nth_error_Some in Hlt.
    destruct (nth_error new_uids n) as [u|] eqn:E; [|congruence].
    exists u. pose proof (nth_error_In _ _ E) as Hu. split.
    * now apply position_unique; [| apply (hashable_in _ _ Hh Hu) |].
    * now apply Hiff.
Qed.

Lemma range_length (inds : list nat) (m : nat) :
NoDup inds -> (forall n, In n inds <-> (n < m)%nat) -> length inds = m.
Proof.
intros Hnd Hiff.
assert (P : Permutation inds (seq 0 m)).
{ apply NoDup_Permutation; [exact Hnd | apply seq_NoDup |].
  intros x. rewrite in_seq, Hiff. lia. }
apply Permutation_length in P. now rewrite length_seq in P.
Qed.

(** Sorting the pairs by index puts each element at its index. *)
Lemma sorted_pairs {A : Type} (inds : list nat) (xs : list A) (m : nat) :
NoDup inds -> (forall n, In n inds <-> (n < m)%nat) ->
length xs = length inds ->
map fst (fold_right insert_by_index [] (combine inds xs)) = seq 0 m
/\ length (fold_right insert_by_index [] (combine inds xs)) = m
/\ (forall i n x,
       nth_error inds i = Some n -> nth_error xs i = Some x ->
       nth_error (map snd (fold_right insert_by_index []
                                      (combine inds xs))) n = Some x).
Proof.
intros Hnd Hiff Hlen.
pose proof (range_length inds m Hnd Hiff) as Hm.
pose proof (isort_perm (combine inds xs)) as P.
assert (Pf : Permutation
               (map fst (fold_right insert_by_index [] (combine inds xs)))
               inds).
{ rewrite (Permutation_map fst P). now rewrite map_fst_combine. }
assert (Hl : length (fold_right insert_by_index [] (combine inds xs)) = m).
{ rewrite (Permutation_length P), length_combine. lia. }
assert (Hs : map fst (fold_right insert_by_index [] (combine inds xs))
             = seq 0 m).
{ apply sorted_range.
  - apply sorted_nodup_strict; [apply isort_sorted|].
    now apply (Permutation_NoDup (Permutation_sym Pf)).
  - intros x. rewrite (Permutation_in' (eq_refl x) Pf), Hiff. lia. }
repeat split; [exact Hs | exact Hl |].
intros i n x Hi Hx. apply at_its_index; [now rewrite Hl|].
apply (Permutation_in _ (Permutation_sym P)).
eapply nth_error_In. now apply nth_combine; eauto.
Qed.

End Rearranged.

Section DataSetter.
Context {V : Validators}.

Lemma seq_sorted (n : nat) : forall k, StronglySorted le (seq k n).
Proof.
induction n as [|n IH]; intros k; cbn [seq]; constructor; [apply IH|].
apply Forall_forall. intros x Hx. apply in_seq in Hx. lia.
Qed.

(** Pairs whose indexes are 0, 1, ... are sorted as they stand. *)
Lemma sorted_zip_seq {A : Type} (xs : list A) (n : nat) :
length xs = n ->
exists sorted, sorted_zip (seq 0 n) xs = OK sorted /\ map snd sorted = xs.
Proof.
intros Hl. unfold sorted_zip.
assert (Hf : map fst (combine (seq 0 n) xs) = seq 0 n)
  by (apply map_fst_combine; now rewrite length_seq).
rewrite Hf, (proj2 (has_duplicates_nodup (seq 0 n)) (seq_NoDup n 0)).
eexists. split; [reflexivity|]. rewrite isort_id.
- apply map_snd_combine. now rewrite length_seq.
- rewrite Hf. apply seq_sorted.
Qed.

Lemma stays (orig_uids new_uids : list value) (u : value) :
forallb hashable orig_uids = true -> In u orig_uids ->
negb (mem_uid u (filter (fun u => negb (mem_uid u new_uids)) orig_uids))
= mem_uid u new_uids.
Proof.
intros Ho Hu. pose proof (hashable_in _ _ Ho Hu) as Hh.
destruct (mem_uid u new_uids) eqn:E; [apply negb_true_iff|
                                      apply negb_false_iff].
- destruct (mem_uid u (filter _ orig_uids)) eqn:E'; [|reflexivity].
  apply (mem_uid_in u _ Hh) in E'. apply filter_In in E' as [_ E'].
  rewrite E in E'. discriminate.
- apply (mem_uid_in u _ Hh). apply filter_In. now rewrite E.
Qed.

(** A list that holds, at the new index of each trace that stays, what
  was kept with the trace, is the list of the assigned traces'
  properties. *)
Lemma rearranged_data (data : list props) (orig_uids : list value)
(elems : list data_elem) (fin : list props) :
let new_uids := map elem_uid elems in
let R := filter (fun u => negb (mem_uid u new_uids)) orig_uids in
length orig_uids = length data ->
NoDup orig_uids -> forallb hashable orig_uids = true ->
NoDup new_uids -> (forall u, In u new_uids -> In u orig_uids) ->
length fin = length elems ->
(forall i n x,
    nth_error (map (fun u => position u new_uids)
                   (kept orig_uids R orig_uids)) i = Some n ->
    nth_error (kept orig_uids R data) i = Some x ->
    nth_error fin n = Some x) ->
fin = map (fun e => nth (position (elem_uid e) orig_uids) data []) elems.
Proof.
intros new_uids R Hlen Hnd Ho Hndn Hin Hfin Hat.
apply nth_error_ext. intros j. rewrite nth_error_map.
destruct (nth_error elems j) as [e|] eqn:Ee; cbn [option_map].
- assert (Eu : nth_error new_uids j = Some (elem_uid e))
    by (unfold new_uids; now rewrite nth_error_map, Ee).
  pose proof (nth_error_In _ _ Eu) as Hun.
  pose proof (hashable_in _ _ Ho (Hin _ Hun)) as Hh.
  assert (Hst : In (elem_uid e) (kept orig_uids R orig_uids)).
  { rewrite kept_uids. now apply (stay_iff orig_uids new_uids). }
  apply In_nth_error in Hst as [i Hi].
  assert (Hx : exists x, nth_error (kept orig_uids R data) i = Some x).
  { destruct (nth_error (kept orig_uids R data) i) eqn:E; [now eexists|].
    apply nth_error_None in E.
    rewrite (kept_length orig_uids R data (eq_sym Hlen)) in E.
    assert (nth_error (kept orig_uids R orig_uids) i <> None)
      by congruence.
    apply nth_error_Some in H. lia. }
  destruct Hx as [x Hx].
  rewrite (Hat i j x); [| |exact Hx].
  + f_equal. symmetry. apply nth_error_nth.
    exact (kept_lookup orig_uids R data i (elem_uid e) x (eq_sym Hlen)
             Hnd Hh Hi Hx).
  + rewrite nth_error_map, Hi. cbn [option_map]. f_equal.
    now apply position_unique.
- apply nth_error_None. apply nth_error_None in Ee. lia.
Qed.

(** The positions of the current traces that are not assigned. *)
Definition deleted (orig_uids new_uids : list value) : list nat :=
map fst (filter (fun iu => negb (mem_uid (snd iu) new_uids))
                (combine (seq 0 (length orig_uids)) orig_uids)).

(** The uids of the current traces that are assigned, in their current
  order. *)
Definition staying (orig_uids new_uids : list value) : list value :=
filter (fun u => mem_uid u new_uids) orig_uids.

Lemma removed_at_deleted (R : list value) :
forall (uids : list value) (i : nat),
  removed_at i uids R
  = map fst (filter (fun iu => mem_uid (snd iu) R)
                    (combine (seq i (length uids)) uids)).
Proof.
induction uids as [|u t IH]; intros i; [reflexivity|].
cbn [removed_at length seq combine filter snd].
destruct (mem_uid u R); cbn [map fst]; now rewrite IH.
Qed.

Lemma same_inds (l : list nat) :
forallb (fun '(i1, i2) => Nat.eqb i1 i2) (combine l l) = true.
Proof.
induction l as [|x l IH]; [reflexivity|]. cbn [combine forallb].
now rewrite Nat.eqb_refl, IH.
Qed.

(** The setter, run on an accepted assignment. *)
Lemma set_data_runs (f : Figure) (orig_uids : list value)
(elems : list data_elem) :
uids_of (_data f) = OK orig_uids ->
NoDup orig_uids ->
forallb hashable orig_uids = true ->
length (_data_objs f) = length (_data f) ->
length (_data_defaults f) = length (_data f) ->
permutation_of_subset orig_uids (Sequence elems) = true ->
exists f',
  set_data (Sequence elems) f = (f', OK tt)
  /\ _data f'
     = map (fun e => nth (position (elem_uid e) orig_uids) (_data f) [])
           elems
  /\ _data_objs f' = map elem_obj elems
  /\ _data_defaults f'
     = map snd
         (filter (fun ud => mem_uid (fst ud) (map elem_uid elems))
                 (combine orig_uids (_data_defaults f)))
  /\ map fst (log f')
     = map fst (log f)
       ++ (if nonempty (deleted orig_uids (map elem_uid elems))
           then [Send_deleteTraces
                   (deleted orig_uids (map elem_uid elems))]
           else [])
       ++ (let stay := staying orig_uids (map elem_uid elems) in
           let new_inds :=
             map (fun u => position u (map elem_uid elems)) stay in
           if list_eq_dec Nat.eq_dec new_inds (seq 0 (length stay))
           then []
           else [Send_moveTraces (seq 0 (length stay)) new_inds]).
Proof.
intros Hu Hnd Ho Hlo Hld Hp.
destruct (accepted_uids orig_uids elems Ho Hp) as (Ht & Hh & Hin & Hndn).
pose proof (uids_of_length _ _ Hu) as Hlen.
unfold set_data. rewrite (validate_new_data_ok f orig_uids elems Hu Ho Hp).
set (new_uids := map elem_uid elems) in *.
set (R := filter (fun u => negb (mem_uid u new_uids)) orig_uids).
destruct (unparent_removed_inds f R orig_uids 0 ltac:(cbn; lia))
  as [orphans Horph].
rewrite Horph.
change (_data (with_detached (detached f ++ orphans) f)) with (_data f).
change (_data_defaults (with_detached (detached f ++ orphans) f))
  with (_data_defaults f).
rewrite (del_kept R orig_uids orig_uids eq_refl).
rewrite (del_kept R orig_uids (_data f) (eq_sym Hlen)).
rewrite (del_kept R orig_uids (_data_defaults f))
  by (now rewrite Hld).
change (fun uid : value =>
          match index_of uid_eqb uid new_uids with
          | Some n => n
          | None => 0%nat
          end) with (fun u => position u new_uids).
set (uids_post := kept orig_uids R orig_uids).
set (data_post := kept orig_uids R (_data f)).
set (defaults_post := kept orig_uids R (_data_defaults f)).
set (new_inds := map (fun u => position u new_uids) uids_post).
set (f3 := if nonempty (removed_at 0 orig_uids R) then _ else _).
assert (Hd3 : _data f3 = data_post)
  by (unfold f3; destruct (nonempty _); reflexivity).
assert (Hemit : forall ev g, _data (fst (emit ev g)) = _data g)
  by reflexivity.
rewrite Hemit, Hd3.
assert (Hup : NoDup uids_post)
  by (unfold uids_post; rewrite kept_uids; now apply NoDup_filter).
assert (Hiff : forall u, In u uids_post <-> In u new_uids).
{ intros u. unfold uids_post. rewrite kept_uids.
  now apply stay_iff. }
destruct (new_inds_range new_uids uids_post Hndn Hup Hh Hiff)
  as [Hndi Hrange].
fold new_inds in Hndi, Hrange.
pose proof (range_length new_inds _ Hndi Hrange) as Hm.
assert (Hlp : length data_post = length new_inds).
{ unfold data_post, new_inds. rewrite length_map.
  now apply kept_length. }
assert (Hldp : length defaults_post = length new_uids).
{ rewrite <- Hm. unfold defaults_post, new_inds. rewrite length_map.
  apply kept_length. now rewrite Hld. }
assert (Hle : length new_uids = length elems)
  by (unfold new_uids; apply length_map).
assert (Hdef : defaults_post
               = map snd
                   (filter (fun ud => mem_uid (fst ud) new_uids)
                           (combine orig_uids (_data_defaults f)))).
{ unfold defaults_post, kept. f_equal. apply filter_ext_in.
  intros [u d] Hud. apply in_combine_l in Hud. cbn [fst].
  now apply stays. }
destruct (sorted_zip_seq defaults_post (length new_uids) Hldp)
  as (sd & Hsd & Hsd').
assert (Hdels : removed_at 0 orig_uids R = deleted orig_uids new_uids).
{ rewrite removed_at_deleted. unfold deleted. f_equal.
  apply filter_ext_in. intros [i u] Hiu. apply in_combine_r in Hiu.
  cbn [snd]. rewrite <- (stays orig_uids new_uids u Ho Hiu).
  now rewrite negb_involutive. }
assert (Hlog3 : map fst (log f3)
                = map fst (log f)
                  ++ (if nonempty (deleted orig_uids new_uids)
                      then [Send_deleteTraces
                              (deleted orig_uids new_uids)]
                      else [])).
{ unfold f3. rewrite Hdels.
  destruct (nonempty (deleted orig_uids new_uids)).
  - change (log (fst (emit ?ev ?g))) with (log g ++ [(ev, batch_state g)]).
    rewrite map_app. reflexivity.
  - rewrite app_nil_r. reflexivity. }
assert (Hstay : uids_post = staying orig_uids new_uids).
{ unfold uids_post. rewrite kept_uids. apply filter_ext_in.
  intros u Hu'. now apply stays. }
assert (Hls : length data_post = length uids_post)
  by (unfold new_inds in Hlp; now rewrite length_map in Hlp).
cbv zeta. rewrite <- Hstay. fold new_inds. rewrite <- Hls.
destruct (forallb _ (combine new_inds _)) eqn:Eall; cbn [negb].
- apply forallb_eq_combine in Eall; [|now rewrite length_seq].
  assert (Hsz : sorted_zip new_inds defaults_post = OK sd).
  { rewrite <- Hsd. f_equal. transitivity (seq 0 (length data_post));
      [exact Eall | f_equal; lia]. }
  rewrite Hsz, Hsd'.
  eexists. split; [reflexivity|].
  repeat split; [|exact Hdef|].
  2:{ change (log (with_data_objs _ (with_data_defaults _ f3)))
        with (log f3).
      rewrite Hlog3. f_equal.
      destruct (list_eq_dec Nat.eq_dec new_inds _) as [_|N];
        [now rewrite app_nil_r | now destruct N]. }
  change (_data (with_data_objs _ (with_data_defaults _ f3)))
    with (_data f3).
  rewrite Hd3.
  apply (rearranged_data (_data f) orig_uids elems data_post);
    auto; [lia|].
  fold new_uids R uids_post data_post new_inds.
  intros i n x Hi Hx. rewrite Eall in Hi.
  assert (Hlt : (i < length data_post)%nat)
    by (apply nth_error_Some; congruence).
  rewrite (nth_error_nth' _ O) in Hi by (now rewrite length_seq).
  rewrite seq_nth in Hi by exact Hlt. injection Hi as <-. exact Hx.
- destruct (sorted_pairs new_inds data_post (length new_uids)
              Hndi Hrange Hlp) as (Hfst & Hlen' & Hat).
  unfold sorted_zip at 1.
  rewrite (map_fst_combine new_inds data_post (eq_sym Hlp)).
  rewrite (proj2 (has_duplicates_nodup new_inds) Hndi).
  rewrite Hfst, Hsd, Hsd'.
  eexists. split; [reflexivity|].
  repeat split; [|exact Hdef|].
  2:{ change (log (with_data_objs _ (with_data_defaults _
                     (with_data _ (fst (emit ?ev f3))))))
        with (log f3 ++ [(ev, batch_state f3)]).
      rewrite map_app, Hlog3, <- app_assoc. f_equal. f_equal.
      destruct (list_eq_dec Nat.eq_dec new_inds _) as [E|_];
        [|reflexivity].
      rewrite <- E, same_inds in Eall. discriminate. }
  change (_data (with_data_objs _ (with_data_defaults _
                   (with_data ?x _)))) with x.
  rewrite insert_in_order by (cbn [length]; now rewrite Hlen').
  cbn [app].
  apply (rearranged_data (_data f) orig_uids elems); auto.
  rewrite length_map. lia.
Qed.

(** X22: Assigning to [data] a sequence of traces whose uids are a
  permutation of a subset of the current ones (the current uids being
  distinct and hashable, and the figure holding one trace object and
  one defaults dict per trace) returns; afterwards the trace
  properties are those of the assigned traces, in the assigned order,
  the trace objects are the assigned ones, and the defaults are those
  of the traces that stay, in the order they had before. *)
Theorem data_setter_rearranges (f : Figure) (orig_uids : list value)
(elems : list data_elem) :
uids_of (_data f) = OK orig_uids ->
NoDup orig_uids ->
forallb hashable orig_uids = true ->
length (_data_objs f) = length (_data f) ->
length (_data_defaults f) = length (_data f) ->
permutation_of_subset orig_uids (Sequence elems) = true ->
exists f',
  set_data (Sequence elems) f = (f', OK tt)
  /\ _data f'
     = map (fun e => nth (position (elem_uid e) orig_uids) (_data f) [])
           elems
  /\ _data_objs f' = map elem_obj elems
  /\ _data_defaults f'
     = map snd
         (filter (fun ud => mem_uid (fst ud) (map elem_uid elems))
                 (combine orig_uids (_data_defaults f))).
Proof.
intros Hu Hnd Ho Hlo Hld Hp.
destruct (set_data_runs f orig_uids elems Hu Hnd Ho Hlo Hld Hp)
  as (f' & Hrun & Hd & Hobjs & Hdef & _).
exists f'. auto.
Qed.

(** X23: On such an assignment the setter sends at most two messages,
  in this order: [deleteTraces], with the positions of the traces that
  are not assigned, when there is one; and [moveTraces], with the
  positions 0, 1, ... of the traces that stay and the index of each in
  the assigned sequence, when these two lists differ. *)
Theorem data_setter_messages (f : Figure) (orig_uids : list value)
(elems : list data_elem) :
uids_of (_data f) = OK orig_uids ->
NoDup orig_uids ->
forallb hashable orig_uids = true ->
length (_data_objs f) = length (_data f) ->
length (_data_defaults f) = length (_data f) ->
permutation_of_subset orig_uids (Sequence elems) = true ->
exists f',
  set_data (Sequence elems) f = (f', OK tt)
  /\ map fst (log f')
     = map fst (log f)
       ++ (if nonempty (deleted orig_uids (map elem_uid elems))
           then [Send_deleteTraces
                   (deleted orig_uids (map elem_uid elems))]
           else [])
       ++ (let stay := staying orig_uids (map elem_uid elems) in
           let new_inds :=
             map (fun u => position u (map elem_uid elems)) stay in
           if list_eq_dec Nat.eq_dec new_inds (seq 0 (length stay))
           then []
           else [Send_moveTraces (seq 0 (length stay)) new_inds]).
Proof.
intros Hu Hnd Ho Hlo Hld Hp.
destruct (set_data_runs f orig_uids elems Hu Hnd Ho Hlo Hld Hp)
  as (f' & Hrun & _ & _ & _ & Hlog).
exists f'. auto.
Qed.

Lemma nodup_counted_once (l : list value) :
NoDup l -> forall u, In u l -> (count_uid u l <= 1)%nat.
Proof.
assert (Hz : forall (l : list value) u, ~ In u l -> count_uid u l = O).
{ clear. induction l as [|x l IH]; intros u Hu; [reflexivity|].
  cbn [count_uid]. destruct (uid_eqb u x) eqn:E.
  - apply uid_eqb_eq in E. subst x. destruct Hu. now left.
  - rewrite IH; [reflexivity|]. intros H. apply Hu. now right. }
induction 1 as [|x l Hx Hl IH]; intros u; [intros []|].
cbn [count_uid]. intros [->|Hu].
- rewrite (Hz l u Hx). destruct (uid_eqb u u); lia.
- specialize (IH u Hu). destruct (uid_eqb u x) eqn:E; [|lia].
  apply uid_eqb_eq in E. subst x. contradiction.
Qed.

Lemma positions_in_order (l : list value) :
NoDup l -> forallb hashable l = true ->
map (fun u => position u l) l = seq 0 (length l).
Proof.
intros Hnd Hh. apply nth_error_ext. intros j. rewrite nth_error_map.
destruct (nth_error l j) as [u|] eqn:E; cbn [option_map].
- rewrite (position_unique u l j Hnd
             (hashable_in _ _ Hh (nth_error_In _ _ E)) E).
  assert (Hlt : (j < length l)%nat) by (apply nth_error_Some; congruence).
  rewrite (nth_error_nth' _ O) by (now rewrite length_seq).
  now rewrite seq_nth.
- symmetry. apply nth_error_None. rewrite length_seq.
  now apply nth_error_None.
Qed.

Lemma filter_all {A : Type} (p : A -> bool) (l : list A) :
(forall x, In x l -> p x = true) -> filter p l = l.
Proof.
induction l as [|x l IH]; intros H; [reflexivity|]. cbn [filter].
rewrite (H x (or_introl eq_refl)). f_equal. apply IH.
intros y Hy. apply H. now right.
Qed.

Lemma filter_none {A : Type} (p : A -> bool) (l : list A) :
(forall x, In x l -> p x = false) -> filter p l = [].
Proof.
induction l as [|x l IH]; intros H; [reflexivity|]. cbn [filter].
rewrite (H x (or_introl eq_refl)). apply IH.
intros y Hy. apply H. now right.
Qed.

(** X24: Assigning the current traces in their current order sends no
  message and leaves the trace properties and the defaults as they
  are. *)
Theorem data_setter_same_order (f : Figure) (elems : list data_elem) :
uids_of (_data f) = OK (map elem_uid elems) ->
NoDup (map elem_uid elems) ->
forallb hashable (map elem_uid elems) = true ->
forallb is_trace elems = true ->
length (_data_objs f) = length (_data f) ->
length (_data_defaults f) = length (_data f) ->
exists f',
  set_data (Sequence elems) f = (f', OK tt)
  /\ _data f' = _data f
  /\ _data_defaults f' = _data_defaults f
  /\ _data_objs f' = map elem_obj elems
  /\ map fst (log f') = map fst (log f).
Proof.
intros Hu Hnd Hh Ht Hlo Hld.
set (uids := map elem_uid elems) in *.
pose proof (uids_of_length _ _ Hu) as Hlen.
assert (Hmem : forall u, In u uids -> mem_uid u uids = true).
{ intros u Hin. now apply (mem_uid_in u uids (hashable_in _ _ Hh Hin)). }
assert (Hp : permutation_of_subset uids (Sequence elems) = true).
{ unfold permutation_of_subset. fold uids. rewrite Ht. cbn [andb].
  apply andb_true_iff. split; apply forallb_forall; intros u Hin.
  - now apply Hmem.
  - apply Nat.leb_le. now apply nodup_counted_once. }
destruct (set_data_runs f uids elems Hu Hnd Hh Hlo Hld Hp)
  as (f' & Hrun & Hd & Hobjs & Hdef & Hlog).
fold uids in Hdef, Hlog.
exists f'. repeat split; auto.
- rewrite Hd. symmetry. apply nth_error_ext. intros j.
  rewrite nth_error_map.
  destruct (nth_error elems j) as [e|] eqn:E; cbn [option_map].
  + assert (Eu : nth_error uids j = Some (elem_uid e))
      by (unfold uids; now rewrite nth_error_map, E).
    rewrite (position_unique _ uids j Hnd
               (hashable_in _ _ Hh (nth_error_In _ _ Eu)) Eu).
    apply nth_error_nth'. rewrite <- Hlen. apply nth_error_Some.
    congruence.
  + apply nth_error_None. apply nth_error_None in E.
    rewrite <- Hlen. unfold uids. now rewrite length_map.
- rewrite Hdef, filter_all.
  + apply map_snd_combine. lia.
  + intros [u d] Hin. apply in_combine_l in Hin. now apply Hmem.
- rewrite Hlog. unfold deleted, staying. rewrite filter_none.
  + rewrite (filter_all _ uids) by exact Hmem.
    rewrite (positions_in_order uids Hnd Hh). cbn [map nonempty app].
    destruct (list_eq_dec Nat.eq_dec _ _) as [_|N];
      [now rewrite app_nil_r | now destruct N].
  + intros [i u] Hin. apply in_combine_r in Hin. cbn [snd].
    now rewrite (Hmem u Hin).
Qed.

End DataSetter.

Lemma data_setter_rearranges_witness :
  let f := @new_figure any_schema
             [[(KStr "uid", VStr "a")]; [(KStr "uid", VStr "b")];
              [(KStr "uid", VStr "c")]] [] in
  let elems := [A_trace 2 (VStr "c"); A_trace 0 (VStr "a")] in
  exists f',
    set_data (Sequence elems) f = (f', OK tt)
    /\ _data f'
       = map (fun e =>
                nth (position (elem_uid e) [VStr "a"; VStr "b"; VStr "c"])
                    (_data f) []) elems
    /\ _data_objs f' = map elem_obj elems
    /\ _data_defaults f'
       = map snd
           (filter (fun ud => mem_uid (fst ud) (map elem_uid elems))
                   (combine [VStr "a"; VStr "b"; VStr "c"]
                            (_data_defaults f))).
Proof.
  cbv zeta.
  apply (@data_setter_rearranges any_schema
           (@new_figure any_schema
              [[(KStr "uid", VStr "a")]; [(KStr "uid", VStr "b")];
               [(KStr "uid", VStr "c")]] [])
           [VStr "a"; VStr "b"; VStr "c"]
           [A_trace 2 (VStr "c"); A_trace 0 (VStr "a")]).
  - vm_compute; reflexivity.
  - repeat constructor; cbn [In]; intuition discriminate.
  - vm_compute; reflexivity.
  - vm_compute; reflexivity.
  - vm_compute; reflexivity.
  - vm_compute; reflexivity.
Defined.

Lemma data_setter_messages_witness :
  let f := @new_figure any_schema
             [[(KStr "uid", VStr "a")]; [(KStr "uid", VStr "b")];
              [(KStr "uid", VStr "c")]] [] in
  let elems := [A_trace 2 (VStr "c"); A_trace 0 (VStr "a")] in
  exists f',
    set_data (Sequence elems) f = (f', OK tt)
    /\ map fst (log f')
       = [Send_deleteTraces [1%nat];
          Send_moveTraces [0; 1]%nat [1; 0]%nat].
Proof.
  cbv zeta.
  destruct (@data_setter_messages any_schema
              (@new_figure any_schema
                 [[(KStr "uid", VStr "a")]; [(KStr "uid", VStr "b")];
                  [(KStr "uid", VStr "c")]] [])
              [VStr "a"; VStr "b"; VStr "c"]
              [A_trace 2 (VStr "c"); A_trace 0 (VStr "a")])
    as (f' & Hrun & Hlog).
  - vm_compute; reflexivity.
  - repeat constructor; cbn [In]; intuition discriminate.
  - vm_compute; reflexivity.
  - vm_compute; reflexivity.
  - vm_compute; reflexivity.
  - vm_compute; reflexivity.
  - exists f'. split; [exact Hrun|]. rewrite Hlog. vm_compute. reflexivity.
Defined.

Lemma data_setter_same_order_witness :
  let f := @new_figure any_schema
             [[(KStr "uid", VStr "a")]; [(KStr "uid", VStr "b")]] [] in
  let elems := [A_trace 0 (VStr "a"); A_trace 1 (VStr "b")] in
  exists f',
    set_data (Sequence elems) f = (f', OK tt)
    /\ _data f' = _data f
    /\ _data_defaults f' = _data_defaults f
    /\ _data_objs f' = map elem_obj elems
    /\ map fst (log f') = map fst (log f).
Proof.
  cbv zeta.
  apply (@data_setter_same_order any_schema
           (@new_figure any_schema
              [[(KStr "uid", VStr "a")]; [(KStr "uid", VStr "b")]] [])
           [A_trace 0 (VStr "a"); A_trace 1 (VStr "b")]).
  - vm_compute; reflexivity.
  - repeat constructor; cbn [In]; intuition discriminate.
  - vm_compute; reflexivity.
  - vm_compute; reflexivity.
  - vm_compute; reflexivity.
  - vm_compute; reflexivity.
Defined.
